(** * A shallow embedding of the ANN controller (Controllers/ANN/src/ann.{h,cpp})

    The network of [ann.h] is a record of six [unsigned short] header fields
    and two vectors.  Integers are [Z] with the conversions to [unsigned
    short] written out; doubles are IEEE binary64 values (Rocq's primitive
    floats), so every arithmetic step of the source is evaluated bit for bit.

    What the source takes from its platform and not from this repository is a
    parameter: libm's [exp], the constant [RAND_MAX], the values [rand()]
    returns, and the text by which a stream writes and reads a double.  For
    the last one the default of the C++ streams (six significant digits) is
    defined below as [put_double] and [get_double].

    Element access outside a vector ([operator[]]) and signed overflow leave
    no defined result: the methods return [None] there.  Reading a file is
    followed as long as every extraction succeeds; [deserialize] does not test
    its stream and goes on after a failed extraction, which is not modelled:
    the result is [None] there too.  The constructor ends the process on a bad
    argument: [ANN_new] returns the error.

    The file has three parts: the embedding, the definitions the statements
    need, and the lemmas, with the properties of the specification among
    them. *)

From Stdlib Require Import ZArith List Bool Lia Floats Uint63 String Ascii.
From Stdlib Require Import DecimalString DecimalZ.
From stdpp Require Import base option list relations.
Import ListNotations.

Open Scope Z_scope.

#[local] Set Warnings "-inexact-float".

(** ** Machine integers *)

Abbreviation double := PrimFloat.float.

Definition INT_MAX : Z := 2147483647.
Definition INT_MIN : Z := -2147483648.
Definition USHRT_MAX : Z := 65535.

(** Conversion of an integer value to [unsigned short]: reduction modulo 2^16. *)
Definition to_ushort (z : Z) : Z := z mod 65536.

Definition is_int (z : Z) : Prop := INT_MIN <= z <= INT_MAX.
Definition is_ushort (z : Z) : Prop := 0 <= z <= USHRT_MAX.

(** Conversion [(double) z] of an integer; exact for |z| < 2^53. *)
Definition double_of_int (z : Z) : double :=
  if z <? 0 then PrimFloat.opp (PrimFloat.of_uint63 (Uint63.of_Z (- z)))
  else PrimFloat.of_uint63 (Uint63.of_Z z).

(** ** Data model (ann.h) *)

Inductive NeuronType := INPUT_N | OUTPUT_N | HIDDEN_N | NUM_NEURON_TYPE.

(** [static_cast<int>(type)] and back. *)
Definition NeuronType_code (t : NeuronType) : Z :=
  match t with INPUT_N => 0 | OUTPUT_N => 1 | HIDDEN_N => 2 | NUM_NEURON_TYPE => 3 end.

Definition NeuronType_of_code (z : Z) : option NeuronType :=
  match z with
  | 0 => Some INPUT_N | 1 => Some OUTPUT_N | 2 => Some HIDDEN_N
  | 3 => Some NUM_NEURON_TYPE | _ => None
  end.

Record Neuron := mkNeuron {
  input_sum : double;
  output : double;
  type : NeuronType
}.

(** [Neuron(NeuronType ntype)] *)
Definition new_Neuron (t : NeuronType) : Neuron :=
  {| input_sum := 0; output := 0; type := t |}.

Record Connection := mkConnection {
  source_neuron_idx : Z;
  target_neuron_idx : Z;
  weight : double;
  data : double
}.

(** [Connection(int source, int target, double w)]: the two indices are
    stored in [unsigned short] members. *)
Definition new_Connection (source target : Z) (w : double) : Connection :=
  {| source_neuron_idx := to_ushort source;
     target_neuron_idx := to_ushort target;
     weight := w;
     data := 0 |}.

Record ANN := mkANN {
  num_input : Z;
  num_hidden : Z;
  num_output : Z;
  num_iPLUSh : Z;
  total_num_neurons : Z;
  neurons : list Neuron;
  total_num_connections : Z;
  connections : list Connection
}.

Definition set_neurons (a : ANN) (ns : list Neuron) : ANN :=
  {| num_input := num_input a; num_hidden := num_hidden a;
     num_output := num_output a; num_iPLUSh := num_iPLUSh a;
     total_num_neurons := total_num_neurons a; neurons := ns;
     total_num_connections := total_num_connections a;
     connections := connections a |}.

Definition set_connections (a : ANN) (cs : list Connection) : ANN :=
  {| num_input := num_input a; num_hidden := num_hidden a;
     num_output := num_output a; num_iPLUSh := num_iPLUSh a;
     total_num_neurons := total_num_neurons a; neurons := neurons a;
     total_num_connections := total_num_connections a;
     connections := cs |}.

(** ** Loops *)

(** The values [n] takes in [for (int n = lo; n < hi; ++n)]: [lo], [lo + 1],
    ... as long as they are below [hi]. *)
Fixpoint count_up (steps : nat) (n : Z) : list Z :=
  match steps with
  | O => []
  | S steps' => n :: count_up steps' (n + 1)
  end.

Definition indices (lo hi : Z) : list Z := count_up (Z.to_nat (hi - lo)) lo.

(** A loop over those values whose body may have no defined result. *)
Fixpoint for_loop {S : Type} (ns : list Z) (body : Z -> S -> option S) (s : S)
  : option S :=
  match ns with
  | [] => Some s
  | n :: ns' => s' ← body n s; for_loop ns' body s'
  end.

(** [v[n]] on a vector, undefined outside it. *)
Definition at_index {A : Type} (v : list A) (n : Z) : option A :=
  if n <? 0 then None else v !! Z.to_nat n.

(** ** Construction (ann.cpp, ANN::ANN) *)

(** What the constructor prints before [exit(EXIT_FAILURE)]. *)
Inductive ConfigError :=
| NeuronCountVector
| EdgeArraySizes
| NeuronIndexOutOfBounds.

(** Type of a neuron from its index. *)
Definition ntype_at (a_num_input a_num_iPLUSh n : Z) : NeuronType :=
  if n <? a_num_input then INPUT_N
  else if n <? a_num_iPLUSh then HIDDEN_N
  else OUTPUT_N.

(** The connection loop of the constructor: at each [c] the two indices are
    checked, then the connection is pushed. *)
Fixpoint add_connections (cs : list Z) (total : Z) (c_src c_trg : list Z)
    (c_wts : list double) (acc : list Connection)
  : ConfigError + list Connection :=
  match cs with
  | [] => inr acc
  | c :: cs' =>
      let s := nth (Z.to_nat c) c_src 0 in
      let t := nth (Z.to_nat c) c_trg 0 in
      let w := nth (Z.to_nat c) c_wts 0%float in
      if (s <? 0) || (s >? total) || (t <? 0) || (t >? total)
      then inl NeuronIndexOutOfBounds
      else add_connections cs' total c_src c_trg c_wts
             (acc ++ [new_Connection s t w])
  end.

Definition ANN_new (num_neurons c_src c_trg : list Z) (c_wts : list double)
  : ConfigError + ANN :=
  if negb ((length num_neurons =? 2)%nat || (length num_neurons =? 3)%nat)
  then inl NeuronCountVector
  else if negb ((length c_src =? length c_trg)%nat)
          || negb ((length c_src =? length c_wts)%nat)
          || negb ((length c_trg =? length c_wts)%nat)
  then inl EdgeArraySizes
  else
    let n_in := to_ushort (nth 0 num_neurons 0) in
    let n_hid := to_ushort (if (length num_neurons =? 2)%nat then 0
                            else nth 1 num_neurons 0) in
    let n_out := to_ushort (if (length num_neurons =? 2)%nat
                            then nth 1 num_neurons 0
                            else nth 2 num_neurons 0) in
    let n_ih := to_ushort (n_in + n_hid) in
    let total := to_ushort (n_ih + n_out) in
    let n_conn := to_ushort (Z.of_nat (length c_src)) in
    let ns := map (fun n => new_Neuron (ntype_at n_in n_ih n)) (indices 0 total) in
    match (if 0 <? n_conn
           then add_connections (indices 0 n_conn) total c_src c_trg c_wts []
           else inr [])
    with
    | inl e => inl e
    | inr cs =>
        inr {| num_input := n_in; num_hidden := n_hid; num_output := n_out;
               num_iPLUSh := n_ih; total_num_neurons := total; neurons := ns;
               total_num_connections := n_conn; connections := cs |}
    end.

(** ** Platform parameters

    [exp] is libm's exponential and [RAND_MAX] the largest value of [rand()];
    neither is defined in this repository. *)

Section Platform.

Variable exp : double -> double.
Variable RAND_MAX : Z.

(** *** Helper function (ann.cpp, sigmoid_AF) *)

Definition sigmoid_AF (x : double) : double :=
  if (x <? -15)%float then 0%float
  else if (15 <? x)%float then 1%float
  else (1 / (1 + exp (- x)))%float.

(** *** fullyConnectFF *)

(** One step of an inner loop: [push_back(Connection(s, t, 0))], then [++c]
    on the [int] counter. *)
Definition push_edge (s t : Z) (st : Z * list Connection)
  : option (Z * list Connection) :=
  let '(c, cs) := st in
  if c + 1 >? INT_MAX then None
  else Some (c + 1, cs ++ [new_Connection s t 0%float]).

Definition fullyConnectFF (a : ANN) : option ANN :=
  let product := num_hidden a * (num_input a + num_output a) in
  if product >? INT_MAX then None
  else
    st1 ← for_loop (indices 0 (num_input a))
            (fun i => for_loop (indices (num_input a) (num_iPLUSh a))
                        (fun h => push_edge i h))
            (0, []);
    st2 ← for_loop (indices (num_input a) (num_iPLUSh a))
            (fun h => for_loop (indices (num_iPLUSh a) (total_num_neurons a))
                        (fun o => push_edge h o))
            st1;
    Some {| num_input := num_input a; num_hidden := num_hidden a;
            num_output := num_output a; num_iPLUSh := num_iPLUSh a;
            total_num_neurons := total_num_neurons a; neurons := neurons a;
            total_num_connections := to_ushort product;
            connections := snd st2 |}.

(** *** randomizeW *)

(** The process-wide state behind [rand()]: the values it is going to return
    and how many calls were made. *)
Record RandSource := mkRand {
  draws : nat -> Z;
  calls : nat
}.

Definition rand (g : RandSource) : Z * RandSource :=
  (draws g (calls g), {| draws := draws g; calls := S (calls g) |}).

Definition set_weight (c : Connection) (w : double) : Connection :=
  {| source_neuron_idx := source_neuron_idx c;
     target_neuron_idx := target_neuron_idx c;
     weight := w; data := data c |}.

Definition new_weight (min max : double) (r : Z) : double :=
  ((max - min) * double_of_int r / double_of_int RAND_MAX + min)%float.

(** The loop over the connection vector, one [rand()] per connection. *)
Fixpoint randomize_all (min max : double) (cs : list Connection) (g : RandSource)
  : list Connection * RandSource :=
  match cs with
  | [] => ([], g)
  | conn :: cs' =>
      let '(r, g1) := rand g in
      let '(cs1, g2) := randomize_all min max cs' g1 in
      (set_weight conn (new_weight min max r) :: cs1, g2)
  end.

Definition randomizeW (min max : double) (a : ANN) (g : RandSource)
  : Z * ANN * RandSource :=
  if (max <=? min)%float then (-1, a, g)
  else
    let '(cs, g') := randomize_all min max (connections a) g in
    (0, set_connections a cs, g').

(** [randomizeW()] *)
Definition randomizeW_default (a : ANN) (g : RandSource) : Z * ANN * RandSource :=
  randomizeW (-1)%float 1%float a g.

(** *** setInput and getOutput *)

Definition set_output (nr : Neuron) (x : double) : Neuron :=
  {| input_sum := input_sum nr; output := x; type := type nr |}.

Definition setInput (inputs : list double) (a : ANN) : option (Z * ANN) :=
  if negb (Z.of_nat (length inputs) =? num_input a) then Some (-1, a)
  else
    ns ← for_loop (indices 0 (num_input a))
           (fun n ns =>
              nr ← at_index ns n;
              Some (<[Z.to_nat n := set_output nr (nth (Z.to_nat n) inputs 0%float)]> ns))
           (neurons a);
    Some (0, set_neurons a ns).

Definition getOutput (a : ANN) : option (list double) :=
  for_loop (indices (num_iPLUSh a) (total_num_neurons a))
    (fun n out => nr ← at_index (neurons a) n; Some (out ++ [output nr]))
    [].

(** *** activate *)

Definition set_data (c : Connection) (d : double) : Connection :=
  {| source_neuron_idx := source_neuron_idx c;
     target_neuron_idx := target_neuron_idx c;
     weight := weight c; data := d |}.

Definition add_input (d : double) (target : Neuron) : Neuron :=
  {| input_sum := (input_sum target + d)%float; output := output target;
     type := type target |}.

(** First loop: the data of each connection is computed from its source's
    current output and added to its target's sum. *)
Fixpoint feed (cs : list Connection) (ns : list Neuron)
  : option (list Connection * list Neuron) :=
  match cs with
  | [] => Some ([], ns)
  | conn :: cs' =>
      source ← at_index ns (source_neuron_idx conn);
      _ ← at_index ns (target_neuron_idx conn);
      let d := (weight conn * output source)%float in
      r ← feed cs' (alter (add_input d) (Z.to_nat (target_neuron_idx conn)) ns);
      Some (set_data conn d :: r.1, r.2)
  end.

(** Body of the second loop. *)
Definition fire (n : Z) (ns : list Neuron) : option (list Neuron) :=
  nr ← at_index ns n;
  Some (<[Z.to_nat n := {| input_sum := 0; output := sigmoid_AF (input_sum nr);
                           type := type nr |}]> ns).

Definition activate (a : ANN) : option ANN :=
  r ← feed (connections a) (neurons a);
  ns ← for_loop (indices (num_input a) (total_num_neurons a)) fire r.2;
  Some (set_connections (set_neurons a ns) r.1).

End Platform.

(** ** Text streams

    A file is read and written one value at a time: [out << v << std::endl]
    writes the text of [v] on a line of its own, [in >> v] takes the next
    whitespace-delimited token and converts it.  A file is the list of its
    tokens; [None] for a file name stands for a file that cannot be opened.
    An extraction is followed where the token is one numeral of the type
    read; on any other token, and at the end of the file, it is [None]. *)

Abbreviation File := (list string).

(** Integers are written in decimal, with a minus sign when negative. *)
Definition put_int (z : Z) : string := NilZero.string_of_int (Z.to_int z).

Definition get_int (s : string) : option Z := Z.of_int <$> NilZero.int_of_string s.

(** [in >> v] for an [unsigned short] and for an [int]: a token that is not a
    numeral of the type fails the extraction.  An [unsigned short] takes a
    minus sign: the digits are read as a number up to 65535, which is then
    negated in the type, so that the token -1 gives 65535. *)
Definition get_ushort (s : string) : option Z :=
  z ← get_int s;
  if (- USHRT_MAX <=? z) && (z <=? USHRT_MAX) then Some (to_ushort z) else None.

Definition get_cint (s : string) : option Z :=
  z ← get_int s; if (INT_MIN <=? z) && (z <=? INT_MAX) then Some z else None.

(** One extraction: the next token, converted. *)
Definition extract {A : Type} (get : string -> option A) (f : File)
  : option (A * File) :=
  match f with
  | [] => None
  | tok :: f' => v ← get tok; Some (v, f')
  end.

(** *** The default text of a double

    A stream in its initial state prints a double as [printf("%g")] does: six
    significant decimal digits, correctly rounded, in fixed notation when the
    decimal exponent X satisfies -4 <= X < 6 and in scientific notation
    otherwise, trailing zeros removed. *)

Definition digits (z : Z) : string := NilZero.string_of_uint (N.to_uint (Z.to_N z)).

(** Is num/den below 10^k? *)
Definition below_pow10 (num den k : Z) : bool :=
  if 0 <=? k then num <? den * 10 ^ k else num * 10 ^ (- k) <? den.

(** The decimal exponent of num/den > 0, searched upwards from [X]. *)
Fixpoint decimal_exponent (fuel : nat) (num den X : Z) : Z :=
  match fuel with
  | O => X
  | S fuel' => if below_pow10 num den (X + 1) then X
               else decimal_exponent fuel' num den (X + 1)
  end.

(** num/den rounded to the nearest integer, ties to even. *)
Definition round_half_even (num den : Z) : Z :=
  let q := num / den in
  let r := num mod den in
  if 2 * r <? den then q
  else if den <? 2 * r then q + 1
  else if Z.even q then q else q + 1.

Fixpoint strip_zeros (s : list ascii) : list ascii :=
  match s with
  | "0"%char :: s' => strip_zeros s'
  | _ => s
  end.

Definition strip_trailing_zeros (s : string) : string :=
  string_of_list_ascii (rev (strip_zeros (rev (list_ascii_of_string s)))).

Fixpoint zeros (n : nat) : string :=
  match n with O => EmptyString | S n' => String "0" (zeros n') end.

Definition with_fraction (ip fp : string) : string :=
  match strip_trailing_zeros fp with
  | EmptyString => ip
  | fp' => (ip ++ "." ++ fp')%string
  end.

(** Six significant digits D (10^5 <= D < 10^6) at decimal exponent X. *)
Definition put_digits (D X : Z) : string :=
  let ds := digits D in
  if (-4 <=? X) && (X <? 6) then
    if 0 <=? X
    then with_fraction (substring 0 (Z.to_nat (X + 1)) ds)
                       (substring (Z.to_nat (X + 1)) (Z.to_nat (5 - X)) ds)
    else with_fraction "0" (zeros (Z.to_nat (- X - 1)) ++ ds)
  else
    (with_fraction (substring 0 1 ds) (substring 1 5 ds)
      ++ "e" ++ (if (X <? 0)%Z then "-" else "+")
      ++ (if (Z.abs X <? 10)%Z then "0" else EmptyString) ++ digits (Z.abs X))%string.

(** The text of m * 2^e. *)
Definition put_finite (m : positive) (e : Z) : string :=
  let num := if 0 <=? e then Z.pos m * 2 ^ e else Z.pos m in
  let den := if 0 <=? e then 1 else 2 ^ (- e) in
  let X := decimal_exponent 700 num den (-330) in
  let D := if 0 <=? 5 - X then round_half_even (num * 10 ^ (5 - X)) den
           else round_half_even num (den * 10 ^ (X - 5)) in
  if D =? 1000000 then put_digits 100000 (X + 1) else put_digits D X.

Definition put_double (x : double) : string :=
  match Prim2SF x with
  | S754_zero s => if s then "-0" else "0"
  | S754_infinity s => if s then "-inf" else "inf"
  | S754_nan => "nan"
  | S754_finite s m e => ((if s then "-" else EmptyString) ++ put_finite m e)%string
  end.

(** *** Reading a double

    The token must be a decimal numeral: an optional sign, digits with an
    optional point, an optional exponent.  The value is the binary64 number
    nearest to it (ties to even); a numeral too large for a double fails. *)

Definition is_digit (c : ascii) : bool :=
  (48 <=? nat_of_ascii c)%nat && (nat_of_ascii c <=? 57)%nat.

Definition digit_value (c : ascii) : Z := Z.of_nat (nat_of_ascii c) - 48.

(** A run of digits: its value on top of [acc], its length, what follows. *)
Fixpoint read_digits (s : list ascii) (acc n : Z) : Z * Z * list ascii :=
  match s with
  | c :: s' => if is_digit c
               then read_digits s' (10 * acc + digit_value c) (n + 1)
               else (acc, n, s)
  | [] => (acc, n, s)
  end.

Definition read_sign (s : list ascii) : bool * list ascii :=
  match s with
  | "-"%char :: s' => (true, s')
  | "+"%char :: s' => (false, s')
  | _ => (false, s)
  end.

Definition read_exponent (s : list ascii) : option Z :=
  match s with
  | [] => Some 0
  | c :: s' =>
      if (Ascii.eqb c "e" || Ascii.eqb c "E")%bool then
        let '(neg, s1) := read_sign s' in
        let '(v, n, rest) := read_digits s1 0 0 in
        match rest with
        | [] => if 0 <? n then Some (if neg then - v else v) else None
        | _ => None
        end
      else None
  end.

(** The binary64 value nearest to num/den, both positive. *)
Definition nearest_double (num den : Z) : option double :=
  let L := Z.log2 num - Z.log2 den in
  let fl := if (if 0 <=? L then den * 2 ^ L <=? num else den <=? num * 2 ^ (- L))
            then L else L - 1 in
  let E := Z.max (fl - 52) (-1074) in
  let M := if 0 <=? E then round_half_even num (den * 2 ^ E)
           else round_half_even (num * 2 ^ (- E)) den in
  if (971 <? E) || ((E =? 971) && (M =? 2 ^ 53)) then None
  else Some (Z.ldexp (PrimFloat.of_uint63 (Uint63.of_Z M)) E).

Definition get_double (s : string) : option double :=
  let '(neg, s0) := read_sign (list_ascii_of_string s) in
  let '(ip, n1, s1) := read_digits s0 0 0 in
  let '(m, n2, s2) :=
    match s1 with
    | "."%char :: s1' => read_digits s1' ip 0
    | _ => (ip, 0, s1)
    end in
  if n1 + n2 <=? 0 then None
  else
    e ← read_exponent s2;
    v ← (if m =? 0 then Some 0%float
         else if 0 <=? e - n2 then nearest_double (m * 10 ^ (e - n2)) 1
         else nearest_double m (10 ^ (n2 - e)));
    Some (if neg then (- v)%float else v).

(** ** Persistence (ann.cpp, serialize and deserialize) *)

Section Codec.

(** The conversions of a double by the two streams. *)
Variable show_double : double -> string.
Variable read_double : string -> option double.

(** What [serialize] writes once the file is open. *)
Definition serialize_lines (a : ANN) : File :=
  [put_int (num_input a); put_int (num_hidden a); put_int (num_output a);
   put_int (num_iPLUSh a); put_int (total_num_neurons a)]
  ++ map (fun nr => put_int (NeuronType_code (type nr))) (neurons a)
  ++ [put_int (total_num_connections a)]
  ++ flat_map (fun c => [put_int (source_neuron_idx c);
                         put_int (target_neuron_idx c);
                         show_double (weight c)]) (connections a).

Definition serialize (a : ANN) (can_create : bool) : Z * option File :=
  if can_create then (0, Some (serialize_lines a)) else (-1, None).

(** The two reading loops. *)
Fixpoint read_neurons (n : nat) (f : File) : option (list Neuron * File) :=
  match n with
  | O => Some ([], f)
  | S n' =>
      r ← extract get_cint f;
      t ← NeuronType_of_code r.1;
      rs ← read_neurons n' r.2;
      Some (new_Neuron t :: rs.1, rs.2)
  end.

Fixpoint read_connections (n : nat) (f : File) : option (list Connection * File) :=
  match n with
  | O => Some ([], f)
  | S n' =>
      src ← extract get_ushort f;
      trg ← extract get_ushort src.2;
      w ← extract read_double trg.2;
      rs ← read_connections n' w.2;
      Some (new_Connection src.1 trg.1 w.1 :: rs.1, rs.2)
  end.

(** [deserialize] into the object [a], on a file all of whose extractions
    succeed.  The source never tests the stream: after a failed extraction
    it goes on, the members not yet read keep what they held (or take what
    the failed extraction left), the loops push neurons and connections
    from variables that were never read, and the function still returns 0.
    None of that is followed here: the result is [None] from the first
    extraction that fails. *)
Definition deserialize (a : ANN) (file : option File) : option (Z * ANN) :=
  match file with
  | None => Some (-1, a)
  | Some f0 =>
      n_in ← extract get_ushort f0;
      n_hid ← extract get_ushort n_in.2;
      n_out ← extract get_ushort n_hid.2;
      n_ih ← extract get_ushort n_out.2;
      total ← extract get_ushort n_ih.2;
      ns ← read_neurons (Z.to_nat total.1) total.2;
      n_conn ← extract get_ushort ns.2;
      cs ← read_connections (Z.to_nat n_conn.1) n_conn.2;
      Some (0, {| num_input := n_in.1; num_hidden := n_hid.1;
                  num_output := n_out.1; num_iPLUSh := n_ih.1;
                  total_num_neurons := total.1; neurons := ns.1;
                  total_num_connections := n_conn.1; connections := cs.1 |})
  end.

End Codec.

(** ** Conditions on a network

    The header fields have the type [unsigned short]; the data model asks for
    more: the layout of the indices and edges inside the neuron vector. *)

Definition header_typed (a : ANN) : Prop :=
  is_ushort (num_input a) /\ is_ushort (num_hidden a) /\ is_ushort (num_output a)
  /\ is_ushort (num_iPLUSh a) /\ is_ushort (total_num_neurons a)
  /\ is_ushort (total_num_connections a).

Definition edge_typed (c : Connection) : Prop :=
  is_ushort (source_neuron_idx c) /\ is_ushort (target_neuron_idx c).

(** Index layout: inputs, then hidden neurons, then outputs. *)
Definition layout (a : ANN) : Prop :=
  0 <= num_input a /\ 0 <= num_hidden a /\ 0 <= num_output a
  /\ num_iPLUSh a = num_input a + num_hidden a
  /\ total_num_neurons a = num_iPLUSh a + num_output a
  /\ total_num_neurons a <= USHRT_MAX.

Definition neurons_allocated (a : ANN) : Prop :=
  Z.of_nat (length (neurons a)) = total_num_neurons a.

Definition edge_in_range (n : nat) (c : Connection) : Prop :=
  0 <= source_neuron_idx c < Z.of_nat n /\ 0 <= target_neuron_idx c < Z.of_nat n.

Definition edges_in_range (a : ANN) : Prop :=
  Forall (edge_in_range (length (neurons a))) (connections a).

(** ** Auxiliary definitions for the statements *)

(** [v[n] = F n v[n]], the body of the loops that update a vector in place. *)
Definition update_at {A : Type} (F : Z -> A -> A) (n : Z) (v : list A)
  : option (list A) :=
  x ← at_index v n; Some (<[Z.to_nat n := F n x]> v).

Definition endpoints (c : Connection) : Z * Z :=
  (source_neuron_idx c, target_neuron_idx c).

(** Two connections with the same endpoints and weight; [data] may differ. *)
Definition same_edge (c c' : Connection) : Prop :=
  source_neuron_idx c = source_neuron_idx c'
  /\ target_neuron_idx c = target_neuron_idx c'
  /\ weight c = weight c'.

(** What the first loop leaves of a neuron: everything but [input_sum]. *)
Definition same_signal (x x' : Neuron) : Prop :=
  output x' = output x /\ type x' = type x.

(** Between two passes the sums of the neurons from num_input on are zero. *)
Definition rested (a : ANN) : Prop :=
  Forall (fun nr => input_sum nr = 0%float)
         (drop (Z.to_nat (num_input a)) (neurons a)).

(** The second loop, as a loop of in-place updates. *)
Definition fired (exp : double -> double) (nr : Neuron) : Neuron :=
  {| input_sum := 0; output := sigmoid_AF exp (input_sum nr); type := type nr |}.

(** Two neuron vectors that a pass cannot tell apart when every edge leaves
    an input neuron: same outputs below [I], same sums from [I] on. *)
Definition agree (I : Z) (ns ns' : list Neuron) : Prop :=
  length ns = length ns'
  /\ forall (k : nat) x x', ns !! k = Some x -> ns' !! k = Some x' ->
       (Z.of_nat k < I -> output x = output x')
       /\ (I <= Z.of_nat k -> input_sum x = input_sum x').

(** Every edge leaves an input neuron. *)
Definition single_hop (a : ANN) : Prop :=
  Forall (fun c => source_neuron_idx c < num_input a) (connections a).

(** The exponential of a (negative) zero is 1, as the C standard requires of
    [exp]. *)
Definition exp_zero (exp : double -> double) : Prop := exp (-0)%float = 1%float.

(** A series evaluation of the exponential, for the places that need a
    concrete [exp]: the Taylor polynomial of degree 12 at x/1024, squared ten
    times. *)
Fixpoint exp_terms (n : nat) (x k term sum : double) : double :=
  match n with
  | O => sum
  | S n' => let term' := (term * x / k)%float in
            exp_terms n' x (k + 1)%float term' (sum + term')%float
  end.

Fixpoint square_times (n : nat) (y : double) : double :=
  match n with
  | O => y
  | S n' => square_times n' (y * y)%float
  end.

Definition exp_series (x : double) : double :=
  square_times 10 (exp_terms 12 (x / 1024)%float 1%float 1%float 1%float).

(** Binary64 values as [spec_float], through which the bound of
    [new_weight] is proved. *)

(** The exponent of the format for a number of [e] binary digits before the
    point: [fexp prec emax e]. *)
Definition fx (e : Z) : Z := Z.max (e - 53) (-1074).

(** What is not a NaN and has the sign [s]. *)
Definition signed (s : bool) (x : spec_float) : Prop :=
  match x with
  | S754_zero s' | S754_infinity s' | S754_finite s' _ _ => s' = s
  | S754_nan => False
  end.

(** Zero, or above zero, and not a NaN. *)
Definition nonneg (x : spec_float) : Prop :=
  match x with
  | S754_zero _ | S754_finite false _ _ | S754_infinity false => True
  | _ => False
  end.

(** Neither a NaN nor an infinity. *)
Definition finite_or_zero (x : spec_float) : Prop :=
  match x with
  | S754_zero _ | S754_finite _ _ _ => True
  | _ => False
  end.

(** What reading back makes of a connection. *)
Definition reread (show_double : double -> string)
    (read_double : string -> option double) (c : Connection)
  : option Connection :=
  w ← read_double (show_double (weight c));
  Some {| source_neuron_idx := source_neuron_idx c;
          target_neuron_idx := target_neuron_idx c;
          weight := w; data := 0 |}.

(** The network with two inputs, two hidden neurons and one output, fully
    connected in the order fullyConnectFF uses, with weights 1, 0, 0, 1 into
    the hidden layer and 200, -100 into the output. *)
Definition two_layer_net : ConfigError + ANN :=
  ANN_new [2; 2; 1] [0; 0; 1; 1; 2; 3] [2; 3; 2; 3; 4; 4]
          [1; 0; 0; 1; 200; -100]%float.

(** Position of a neuron: 0 for an input, 1 for a hidden, 2 for an output. *)
Definition layer (a : ANN) (n : Z) : Z :=
  if n <? num_input a then 0 else if n <? num_iPLUSh a then 1 else 2.

Fixpoint nondecreasing (l : list Z) : bool :=
  match l with
  | x :: (y :: _) as l' => (x <=? y) && nondecreasing l'
  | _ => true
  end.

(** Every edge goes to a later layer, and the edges are listed by the layer
    of their source. *)
Definition strictly_feedforward (a : ANN) : bool :=
  forallb (fun c => layer a (source_neuron_idx c) <? layer a (target_neuron_idx c))
          (connections a)
  && nondecreasing (map (fun c => layer a (source_neuron_idx c)) (connections a)).

(** The values rand() returns first under glibc with the default seed. *)
Definition glibc_draws (k : nat) : Z :=
  nth k [1804289383; 846930886; 1681692777; 1714636915; 1957747793; 424238335] 0.

(** One input, one output, one edge of weight 1.0 between them. *)
Definition one_edge_net : ANN :=
  {| num_input := 1; num_hidden := 0; num_output := 1; num_iPLUSh := 1;
     total_num_neurons := 2;
     neurons := [new_Neuron INPUT_N; new_Neuron OUTPUT_N];
     total_num_connections := 1;
     connections := [new_Connection 0 1 1%float] |}.

(** Two inputs, two hidden neurons, one output, no edge yet. *)
Definition bare_2_2_1 : ANN :=
  {| num_input := 2; num_hidden := 2; num_output := 1; num_iPLUSh := 4;
     total_num_neurons := 5;
     neurons := [new_Neuron INPUT_N; new_Neuron INPUT_N; new_Neuron HIDDEN_N;
                 new_Neuron HIDDEN_N; new_Neuron OUTPUT_N];
     total_num_connections := 0;
     connections := [] |}.

(** ** Reachable networks *)

(** One call of a method that works on the network in place. *)
Inductive method_call (exp : double -> double) (RAND_MAX : Z) (a : ANN)
  : ANN -> Prop :=
| call_fullyConnectFF b :
    fullyConnectFF a = Some b -> method_call exp RAND_MAX a b
| call_randomizeW min max g code b g' :
    randomizeW RAND_MAX min max a g = (code, b, g') ->
    method_call exp RAND_MAX a b
| call_setInput inputs code b :
    setInput inputs a = Some (code, b) -> method_call exp RAND_MAX a b
| call_activate b :
    activate exp a = Some b -> method_call exp RAND_MAX a b.

(** A network as a constructor, or deserialize, leaves it. *)
Inductive loaded (read_double : string -> option double) : ANN -> Prop :=
| from_arrays counts c_src c_trg c_wts a :
    ANN_new counts c_src c_trg c_wts = inr a -> loaded read_double a
| from_file a0 f a :
    deserialize read_double a0 (Some f) = Some (0, a) -> loaded read_double a.

Definition reachable (exp : double -> double) (RAND_MAX : Z)
    (read_double : string -> option double) (a : ANN) : Prop :=
  exists a0, loaded read_double a0 /\ rtc (method_call exp RAND_MAX) a0 a.

(** The five neuron counts of the header. *)
Definition counts_of (a : ANN) : Z * Z * Z * Z * Z :=
  (num_input a, num_hidden a, num_output a, num_iPLUSh a, total_num_neurons a).

(** What the types of the members guarantee. *)
Definition well_typed (a : ANN) : Prop :=
  header_typed a /\ Forall edge_typed (connections a) /\ neurons_allocated a.

(** ** The C interface (ann.cpp, the functions declared extern "C")

    A pointer argument is the buffer it points to; reading or writing past
    its end has no defined result. *)

(** The first [count] elements of a buffer, as
    [std::vector<T>(p, p + count)] copies them. *)
Definition read_buffer {A : Type} (buf : list A) (count : Z) : option (list A) :=
  if count <? 0 then None
  else if Z.of_nat (length buf) <? count then None
  else Some (take (Z.to_nat count) buf).

(** [new_ANN]: the counts are always three, the edge arrays are read only
    when [c_cnt > 0]. *)
Definition new_ANN (num_neurons c_src c_trg : list Z) (c_wts : list double)
    (c_cnt : Z) : option (ConfigError + ANN) :=
  num ← read_buffer num_neurons (NeuronType_code NUM_NEURON_TYPE);
  if 0 <? c_cnt then
    src ← read_buffer c_src c_cnt;
    trg ← read_buffer c_trg c_cnt;
    wts ← read_buffer c_wts c_cnt;
    Some (ANN_new num src trg wts)
  else Some (ANN_new num [] [] []).

(** The object [ANN(const char *fname)] starts from: empty vectors, and
    header members that were never written. *)
Definition uninitialised (h : Z * Z * Z * Z * Z * Z) : ANN :=
  {| num_input := h.1.1.1.1.1; num_hidden := h.1.1.1.1.2;
     num_output := h.1.1.1.2; num_iPLUSh := h.1.1.2;
     total_num_neurons := h.1.2; neurons := [];
     total_num_connections := h.2; connections := [] |}.

(** [ANN::ANN(const char *fname)] and [new_ANN_FromFile]: the result of
    [deserialize] is not looked at. *)
Definition ANN_from_file (read_double : string -> option double)
    (h : Z * Z * Z * Z * Z * Z) (file : option File) : option ANN :=
  r ← deserialize read_double (uninitialised h) file; Some r.2.

Definition new_ANN_FromFile := ANN_from_file.

Definition fullyConnectFF_ANN (net : ANN) : option ANN := fullyConnectFF net.

Definition randomizeW_ANN (RAND_MAX : Z) (net : ANN) (min max : double)
    (g : RandSource) : Z * ANN * RandSource :=
  randomizeW RAND_MAX min max net g.

(** [setInput_ANN]: the first [count] values of the buffer are the inputs. *)
Definition setInput_ANN (net : ANN) (inputs : list double) (count : Z)
  : option (Z * ANN) :=
  net_inputs ← read_buffer inputs count; setInput net_inputs net.

(** [getOutput_ANN]: after the test of [count], [v[i]] is copied to
    [outputs[i]] for every [i] below [count]. *)
Definition getOutput_ANN (net : ANN) (outputs : list double) (count : Z)
  : option (Z * list double) :=
  if negb (count =? num_output net) then Some (-1, outputs)
  else
    v ← getOutput net;
    outs ← for_loop (indices 0 count)
             (fun i outs =>
                x ← at_index v i;
                _ ← at_index outs i;
                Some (<[Z.to_nat i := x]> outs))
             outputs;
    Some (0, outs).

Definition activate_ANN (exp : double -> double) (net : ANN) : option ANN :=
  activate exp net.

Definition serialize_ANN (show_double : double -> string) (net : ANN)
    (can_create : bool) : Z * option File :=
  serialize show_double net can_create.

Definition deserialize_ANN (read_double : string -> option double) (net : ANN)
    (file : option File) : option (Z * ANN) :=
  deserialize read_double net file.

(** ** The description of a network (ann.cpp, ANN::stream and print_ANN) *)

(** [std::endl] *)
Definition endl : string := String "010"%char EmptyString.

(** The text [stream] sends to [strm]; a neuron type is written as its
    integer code. *)
Definition stream (show_double : double -> string) (a : ANN) : option string :=
  let s0 :=
    ("Total number of neurons : " ++ put_int (total_num_neurons a) ++ endl
     ++ "Number of input neurons : " ++ put_int (num_input a) ++ endl
     ++ "Number of hidden neurons: " ++ put_int (num_hidden a) ++ endl
     ++ "Number of outout neurons: " ++ put_int (num_output a) ++ endl)%string in
  s1 ← for_loop (indices 0 (total_num_neurons a))
         (fun n s =>
            nr ← at_index (neurons a) n;
            Some (s ++ put_int (NeuronType_code (type nr)) ++ " ")%string)
         s0;
  let s2 :=
    (s1 ++ endl ++ "Total number of connections: "
        ++ put_int (total_num_connections a) ++ endl)%string in
  for_loop (indices 0 (total_num_connections a))
    (fun c s =>
       conn ← at_index (connections a) c;
       Some (s ++ put_int (source_neuron_idx conn) ++ " --> "
               ++ put_int (target_neuron_idx conn) ++ " : "
               ++ show_double (weight conn) ++ endl)%string)
    s2.

Definition print_ANN (show_double : double -> string) (net : ANN) : option string :=
  stream show_double net.

(** ** Conditions on the arguments of the constructor *)

Definition counts_ok (counts : list Z) : Prop :=
  length counts = 2%nat \/ length counts = 3%nat.

Definition sizes_ok (c_src c_trg : list Z) (c_wts : list double) : Prop :=
  length c_src = length c_trg /\ length c_src = length c_wts.

(** Input, hidden and output counts as the constructor reads them from two
    or three numbers. *)
Definition layers_of (counts : list Z) : Z * Z * Z :=
  match counts with
  | [i; o] => (i, 0, o)
  | [i; h; o] => (i, h, o)
  | _ => (0, 0, 0)
  end.

(** Arguments without wrap-around: counts that are not negative and add up
    to 65535 at most, and at most 65535 edges. *)
Definition plain_arguments (counts c_src c_trg : list Z) (c_wts : list double)
  : Prop :=
  counts_ok counts /\ sizes_ok c_src c_trg c_wts
  /\ Forall (fun n => 0 <= n) counts /\ foldr Z.add 0 counts <= USHRT_MAX
  /\ Z.of_nat (length c_src) <= USHRT_MAX.

(** The state every method can work on: the index layout, a neuron vector
    of the recorded size, edges between existing neurons, and a recorded
    number of connections that the connection vector covers. *)
Definition consistent (a : ANN) : Prop :=
  layout a /\ neurons_allocated a /\ edges_in_range a
  /\ 0 <= total_num_connections a <= Z.of_nat (length (connections a)).

Definition index_cases (total x : Z) : {0 <= x <= total} + {x < 0 \/ total < x}.
Proof.
  destruct (Z_le_dec 0 x); [destruct (Z_le_dec x total)|]; [left|right|right]; lia.
Defined.

(** ** The sums of a pass *)

(** The output of the neuron at an index, as the first loop of activate
    reads it. *)
Definition output_at (ns : list Neuron) (n : Z) : double :=
  default 0%float (output <$> ns !! Z.to_nat n).

(** The sum of neuron [k] after the first loop of activate: the sum [s] it
    had, plus weight * source output for each connection that targets [k],
    added in the order of the connection vector. *)
Definition received (ns : list Neuron) (k : nat) (cs : list Connection)
    (s : double) : double :=
  fold_left (fun acc c =>
               if target_neuron_idx c =? Z.of_nat k
               then (acc + weight c * output_at ns (source_neuron_idx c))%float
               else acc)
            cs s.

(** Every edge goes from an input to a hidden neuron or from a hidden
    neuron to an output: the shape fullyConnectFF builds. *)
Definition two_hop (a : ANN) : Prop :=
  Forall (fun c =>
            (source_neuron_idx c < num_input a
             /\ num_input a <= target_neuron_idx c < num_iPLUSh a)
            \/ (num_input a <= source_neuron_idx c < num_iPLUSh a
                /\ num_iPLUSh a <= target_neuron_idx c))
         (connections a).

(** ** A session on the 2-2-1 network

    The network with two inputs, two hidden neurons and one output after
    fullyConnectFF, then after randomizeW() on the first draws of glibc's
    rand(), then with the inputs 1 and -1 set, then after one pass. *)

Definition connected_2_2_1 : ANN :=
  Eval vm_compute in default bare_2_2_1 (fullyConnectFF bare_2_2_1).

Definition weighted_2_2_1 : ANN :=
  Eval vm_compute in
    (randomizeW_default 2147483647 connected_2_2_1
       {| draws := glibc_draws; calls := 0 |}).1.2.

Definition primed_2_2_1 : ANN :=
  Eval vm_compute in
    default weighted_2_2_1 (snd <$> setInput [1; -1]%float weighted_2_2_1).

Definition passed_2_2_1 : ANN :=
  Eval vm_compute in default primed_2_2_1 (activate exp_series primed_2_2_1).

(** One input, one output, one edge of weight 1/3. *)
Definition one_third_net : ANN :=
  {| num_input := 1; num_hidden := 0; num_output := 1; num_iPLUSh := 1;
     total_num_neurons := 2;
     neurons := [new_Neuron INPUT_N; new_Neuron OUTPUT_N];
     total_num_connections := 1;
     connections := [new_Connection 0 1 (1 / 3)%float] |}.

(** ** Facts about loops *)

Lemma length_count_up steps n : length (count_up steps n) = steps.
Proof.
  revert n. induction steps as [|steps IH]; intros n; cbn; [reflexivity|].
  now rewrite IH.
Qed.

Lemma lookup_count_up steps n (k : nat) :
  (k < steps)%nat -> count_up steps n !! k = Some (n + Z.of_nat k).
Proof.
  revert n k. induction steps as [|steps IH]; intros n k Hk; [lia|].
  destruct k as [|k]; cbn.
  - f_equal. lia.
  - rewrite IH by lia. f_equal. lia.
Qed.

Lemma In_count_up steps n m :
  In m (count_up steps n) <-> n <= m < n + Z.of_nat steps.
Proof.
  revert n. induction steps as [|steps IH]; intros n; cbn -[Z.of_nat].
  - lia.
  - rewrite IH. lia.
Qed.

Lemma NoDup_count_up steps n : NoDup (count_up steps n).
Proof.
  revert n. induction steps as [|steps IH]; intros n; cbn.
  - constructor.
  - apply NoDup_cons. split; [|apply IH].
    rewrite list_elem_of_In, In_count_up. lia.
Qed.

Lemma indices_nil lo hi : hi <= lo -> indices lo hi = [].
Proof.
  intros H. unfold indices.
  replace (Z.to_nat (hi - lo)) with 0%nat by lia. reflexivity.
Qed.

Lemma length_indices lo hi : length (indices lo hi) = Z.to_nat (hi - lo).
Proof. apply length_count_up. Qed.

Lemma In_indices n lo hi : In n (indices lo hi) <-> lo <= n < hi.
Proof. unfold indices. rewrite In_count_up. lia. Qed.

Lemma lookup_indices lo hi (k : nat) :
  Z.of_nat k < hi - lo -> indices lo hi !! k = Some (lo + Z.of_nat k).
Proof. intros H. apply lookup_count_up. lia. Qed.

Lemma NoDup_indices lo hi : NoDup (indices lo hi).
Proof. apply NoDup_count_up. Qed.

Lemma for_loop_cons {S : Type} (body : Z -> S -> option S) n ns s :
  for_loop (n :: ns) body s = s' ← body n s; for_loop ns body s'.
Proof. reflexivity. Qed.

(** A loop that pushes one value per iteration. *)
Lemma for_loop_push {A B : Type} (g : Z -> option B) (h : B -> A) (v : Z -> B) ns acc :
  (forall n, In n ns -> g n = Some (v n)) ->
  for_loop ns (fun n out => x ← g n; Some (out ++ [h x])) acc
  = Some (acc ++ map (fun n => h (v n)) ns).
Proof.
  revert acc. induction ns as [|n ns IH]; intros acc Hg; cbn.
  - now rewrite app_nil_r.
  - rewrite (Hg n) by now left. cbn.
    rewrite IH by (intros; apply Hg; now right).
    now rewrite <- app_assoc.
Qed.

Lemma at_index_Some {A : Type} (v : list A) n :
  0 <= n < Z.of_nat (length v) -> exists x, at_index v n = Some x.
Proof.
  intros H. unfold at_index.
  destruct (Z.ltb_spec n 0); [lia|].
  destruct (lookup_lt_is_Some_2 v (Z.to_nat n)) as [x Hx]; [lia|]. eauto.
Qed.

Lemma at_index_inv {A : Type} (v : list A) n x :
  at_index v n = Some x -> 0 <= n < Z.of_nat (length v) /\ v !! Z.to_nat n = Some x.
Proof.
  unfold at_index. destruct (Z.ltb_spec n 0); [discriminate|].
  intros Hx. pose proof (lookup_lt_Some _ _ _ Hx). split; [lia|done].
Qed.

Lemma update_at_Some {A : Type} (F : Z -> A -> A) n (v : list A) x :
  at_index v n = Some x -> update_at F n v = Some (<[Z.to_nat n := F n x]> v).
Proof. intros H. unfold update_at. now rewrite H. Qed.

Lemma for_loop_update_at {A : Type} (F : Z -> A -> A) ns (v : list A) :
  NoDup ns ->
  Forall (fun n => 0 <= n < Z.of_nat (length v)) ns ->
  exists v', for_loop ns (update_at F) v = Some v'
    /\ length v' = length v
    /\ forall (k : nat) x, v !! k = Some x ->
         v' !! k = Some (if decide (Z.of_nat k ∈ ns) then F (Z.of_nat k) x else x).
Proof.
  revert v. induction ns as [|n ns IH]; intros v Hnd Hin.
  - exists v. split; [reflexivity|]. split; [reflexivity|].
    intros k x Hk. rewrite Hk. reflexivity.
  - apply NoDup_cons in Hnd as [Hn Hnd]. apply Forall_cons in Hin as [Hn0 Hin].
    destruct (at_index_Some v n Hn0) as [x0 Hx0].
    destruct (IH (<[Z.to_nat n := F n x0]> v) Hnd) as (v' & Hv' & Hlen & Hlk).
    { rewrite length_insert. exact Hin. }
    exists v'. rewrite length_insert in Hlen.
    split; [rewrite for_loop_cons, (update_at_Some F _ _ _ Hx0); exact Hv'|].
    split; [exact Hlen|].
    intros k x Hk. apply at_index_inv in Hx0 as [_ Hx0].
    destruct (decide (k = Z.to_nat n)) as [->|Hne].
    + assert (x0 = x) as -> by congruence.
      rewrite (Hlk _ (F n x)) by (apply list_lookup_insert_eq; lia).
      rewrite Z2Nat.id by lia.
      rewrite decide_False by exact Hn.
      rewrite decide_True by (left). reflexivity.
    + rewrite (Hlk _ x) by (rewrite list_lookup_insert_ne by congruence; exact Hk).
      f_equal. destruct (decide (Z.of_nat k ∈ ns)) as [H|H].
      * rewrite decide_True by (now right). reflexivity.
      * rewrite decide_False; [reflexivity|].
        intros H'. apply elem_of_cons in H' as [H'|H']; [lia|contradiction].
Qed.

(** ** setInput *)

(** C9.  A vector of the wrong length is refused with -1 and the network is
    returned as it was; a vector of length num_input, on a network whose
    neuron vector holds its input neurons, is accepted with 0: neuron n below
    num_input gets inputs[n] as its output, and nothing else changes (sums,
    types, the other neurons, header and connections). *)
Theorem setInput_spec (inputs : list double) (a : ANN) :
  (Z.of_nat (length inputs) <> num_input a -> setInput inputs a = Some (-1, a))
  /\ (Z.of_nat (length inputs) = num_input a ->
      num_input a <= Z.of_nat (length (neurons a)) ->
      exists ns, setInput inputs a = Some (0, set_neurons a ns)
        /\ length ns = length (neurons a)
        /\ forall (k : nat) nr, neurons a !! k = Some nr ->
             ns !! k = Some (if decide (Z.of_nat k < num_input a)
                             then {| input_sum := input_sum nr;
                                     output := nth k inputs 0%float;
                                     type := type nr |}
                             else nr)).
Proof.
  unfold setInput. split.
  - intros Hlen.
    destruct (Z.eqb_spec (Z.of_nat (length inputs)) (num_input a)); [lia|reflexivity].
  - intros Hlen Hin.
    destruct (Z.eqb_spec (Z.of_nat (length inputs)) (num_input a)); [|lia]. cbn [negb].
    destruct (for_loop_update_at
                (fun n nr => set_output nr (nth (Z.to_nat n) inputs 0%float))
                (indices 0 (num_input a)) (neurons a)) as (ns & Hns & Hl & Hk).
    { apply NoDup_indices. }
    { apply Forall_forall. intros n Hn. apply list_elem_of_In, In_indices in Hn. lia. }
    exists ns. unfold update_at in Hns. rewrite Hns. split; [reflexivity|].
    split; [exact Hl|]. intros k nr Hnr. rewrite (Hk k nr Hnr). f_equal.
    destruct (decide (Z.of_nat k ∈ indices 0 (num_input a))) as [H|H];
      rewrite list_elem_of_In, In_indices in H.
    + rewrite decide_True by lia. unfold set_output. now rewrite Nat2Z.id.
    + rewrite decide_False by lia. reflexivity.
Qed.

(** ** getOutput *)

(** getOutput returns the outputs of the neurons from index num_iPLUSh up
    to, and without, index total_num_neurons. *)
Lemma getOutput_slice (a : ANN) :
  0 <= num_iPLUSh a -> total_num_neurons a <= Z.of_nat (length (neurons a)) ->
  getOutput a
  = Some (map output (take (Z.to_nat (total_num_neurons a - num_iPLUSh a))
                           (drop (Z.to_nat (num_iPLUSh a)) (neurons a)))).
Proof.
  intros Hih Htot.
  set (v := fun n => default (new_Neuron INPUT_N) (at_index (neurons a) n)).
  assert (Hg : forall n, In n (indices (num_iPLUSh a) (total_num_neurons a)) ->
                         at_index (neurons a) n = Some (v n)).
  { intros n Hn. apply In_indices in Hn.
    destruct (at_index_Some (neurons a) n) as [x Hx]; [lia|].
    unfold v. now rewrite Hx. }
  unfold getOutput. rewrite (for_loop_push _ output v _ [] Hg). cbn [app].
  f_equal. apply list_eq. intros k.
  change (map ?f ?l) with (f <$> l). rewrite !list_lookup_fmap.
  destruct (decide (Z.of_nat k < total_num_neurons a - num_iPLUSh a)) as [Hk|Hk].
  - rewrite lookup_indices, lookup_take_lt, lookup_drop by lia. cbn.
    assert (Hn : In (num_iPLUSh a + Z.of_nat k)
                    (indices (num_iPLUSh a) (total_num_neurons a)))
      by (apply In_indices; lia).
    apply Hg, at_index_inv in Hn as [_ Hn].
    replace (Z.to_nat (num_iPLUSh a) + k)%nat
      with (Z.to_nat (num_iPLUSh a + Z.of_nat k)) by lia.
    now rewrite Hn.
  - rewrite lookup_take_ge by lia.
    rewrite (lookup_ge_None_2 (indices _ _)) by (rewrite length_indices; lia).
    reflexivity.
Qed.

(** C4 (as amended).  When the header describes the neuron vector (the index
    layout holds and the vector has total_num_neurons elements), getOutput
    returns num_output values: the outputs of the neurons at the indices
    num_iPLUSh, num_iPLUSh + 1, ... in that order. *)
Theorem getOutput_spec (a : ANN) :
  layout a -> neurons_allocated a ->
  exists out, getOutput a = Some out
    /\ Z.of_nat (length out) = num_output a
    /\ forall k : nat, Z.of_nat k < num_output a ->
         exists nr, neurons a !! (Z.to_nat (num_iPLUSh a) + k)%nat = Some nr
                    /\ out !! k = Some (output nr).
Proof.
  intros (HI & HH & HO & Hih & Htot & _) Hall. unfold neurons_allocated in Hall.
  rewrite getOutput_slice by lia. eexists. split; [reflexivity|]. split.
  - rewrite length_map, length_take, length_drop. lia.
  - intros k Hk.
    destruct (lookup_lt_is_Some_2 (neurons a) (Z.to_nat (num_iPLUSh a) + k))
      as [nr Hnr]; [lia|].
    exists nr. split; [exact Hnr|].
    change (map ?f ?l) with (f <$> l).
    rewrite list_lookup_fmap, lookup_take_lt, lookup_drop, Hnr by lia.
    reflexivity.
Qed.

(** ** fullyConnectFF *)

Lemma push_edge_Some s t c cs :
  c + 1 <= INT_MAX ->
  push_edge s t (c, cs) = Some (c + 1, cs ++ [new_Connection s t 0%float]).
Proof.
  intros Hc. unfold push_edge.
  destruct (Z.gtb_spec (c + 1) INT_MAX) as [Hgt|_]; [lia|reflexivity].
Qed.

Lemma for_loop_push_edge s ts c cs :
  c + Z.of_nat (length ts) <= INT_MAX ->
  for_loop ts (fun t => push_edge s t) (c, cs)
  = Some (c + Z.of_nat (length ts),
          cs ++ map (fun t => new_Connection s t 0%float) ts).
Proof.
  revert c cs. induction ts as [|t ts IH]; intros c cs Hc.
  - cbn. now rewrite Z.add_0_r, app_nil_r.
  - rewrite for_loop_cons. cbn [length] in Hc.
    rewrite push_edge_Some by lia.
    cbn [mbind option_bind]. rewrite IH by lia.
    cbn [length map]. rewrite <- app_assoc. do 2 f_equal. lia.
Qed.

Lemma for_loop_push_edges ss ts c cs :
  c + Z.of_nat (length ss * length ts) <= INT_MAX ->
  for_loop ss (fun s => for_loop ts (fun t => push_edge s t)) (c, cs)
  = Some (c + Z.of_nat (length ss * length ts),
          cs ++ flat_map (fun s => map (fun t => new_Connection s t 0%float) ts) ss).
Proof.
  revert c cs. induction ss as [|s ss IH]; intros c cs Hc.
  - cbn. now rewrite Z.add_0_r, app_nil_r.
  - rewrite for_loop_cons. cbn [length] in Hc. cbv beta.
    rewrite for_loop_push_edge by lia. cbn [mbind option_bind].
    rewrite IH by lia. cbn [length flat_map]. rewrite <- app_assoc.
    do 2 f_equal. lia.
Qed.

Lemma endpoints_block ss ts :
  Forall is_ushort ss -> Forall is_ushort ts ->
  flat_map (fun s => map (fun t => new_Connection s t 0%float) ts) ss
  = map (fun p => mkConnection p.1 p.2 0%float 0%float) (list_prod ss ts).
Proof.
  intros Hss Hts. induction Hss as [|s ss Hs Hss IH]; [reflexivity|].
  cbn [flat_map list_prod]. rewrite map_app, map_map, IH. f_equal.
  apply map_ext_in. intros t Ht.
  rewrite Forall_forall in Hts. apply list_elem_of_In, Hts in Ht.
  unfold new_Connection, to_ushort, is_ushort, USHRT_MAX in *. cbn.
  now rewrite !Z.mod_small by lia.
Qed.

Lemma NoDup_list_prod {A B : Type} (l : list A) (k : list B) :
  NoDup l -> NoDup k -> NoDup (list_prod l k).
Proof.
  intros Hl Hk. induction Hl as [|x l Hx Hl IH]; cbn [list_prod].
  - constructor.
  - apply NoDup_app. split; [|split; [|exact IH]].
    + apply (NoDup_fmap_2_strong (fun y => (x, y))); [|exact Hk]. congruence.
    + intros [x' y'] Hin Hin'. apply list_elem_of_In, in_map_iff in Hin.
      destruct Hin as (y & [= <- <-] & _).
      apply list_elem_of_In, in_prod_iff in Hin' as [Hin' _].
      apply Hx, list_elem_of_In, Hin'.
Qed.

Lemma list_prod_nil_r {A B : Type} (l : list A) : list_prod l (@nil B) = [].
Proof. induction l as [|x l IH]; [reflexivity|exact IH]. Qed.

Lemma Forall_indices_ushort lo hi :
  0 <= lo -> hi <= USHRT_MAX + 1 -> Forall is_ushort (indices lo hi).
Proof.
  intros Hlo Hhi. apply Forall_forall. intros n Hn.
  apply list_elem_of_In, In_indices in Hn. unfold is_ushort. lia.
Qed.

(** C6.  On a network whose header follows the index layout, fullyConnectFF
    replaces the connections, whatever they were, by one edge for each
    (input, hidden) pair followed by one edge for each (hidden, output) pair,
    each with weight 0: num_hidden * (num_input + num_output) edges, no pair
    twice, and none at all when num_hidden = 0.  The neurons and the neuron
    counts are left as they were. *)
Theorem fullyConnectFF_spec (a : ANN) :
  layout a ->
  exists cs,
    fullyConnectFF a
    = Some {| num_input := num_input a; num_hidden := num_hidden a;
              num_output := num_output a; num_iPLUSh := num_iPLUSh a;
              total_num_neurons := total_num_neurons a; neurons := neurons a;
              total_num_connections :=
                to_ushort (num_hidden a * (num_input a + num_output a));
              connections := cs |}
    /\ cs = map (fun p => mkConnection p.1 p.2 0%float 0%float)
              (list_prod (indices 0 (num_input a))
                         (indices (num_input a) (num_iPLUSh a))
               ++ list_prod (indices (num_input a) (num_iPLUSh a))
                            (indices (num_iPLUSh a) (total_num_neurons a)))
    /\ Z.of_nat (length cs) = num_hidden a * (num_input a + num_output a)
    /\ NoDup (map endpoints cs)
    /\ (num_hidden a = 0 -> cs = []).
Proof.
  intros (HI & HH & HO & Hih & Htot & Hmax). unfold USHRT_MAX in Hmax.
  set (I := num_input a) in *. set (H := num_hidden a) in *.
  set (O := num_output a) in *.
  assert (Hprod : H * (I + O) <= 1073741824).
  { assert (Hsq : forall x y : Z, 4 * (x * y) <= (x + y) * (x + y))
      by (intros x y; pose proof (Z.square_nonneg (x - y)); nia).
    specialize (Hsq H (I + O)).
    assert ((H + (I + O)) * (H + (I + O)) <= 65535 * 65535)
      by (apply Z.mul_le_mono_nonneg; lia).
    lia. }
  assert (Hlen1 : (length (indices 0 I) * length (indices I (num_iPLUSh a)))%nat
                  = Z.to_nat (I * H)).
  { rewrite !length_indices. replace (num_iPLUSh a - I) with H by lia.
    rewrite Z.sub_0_r. rewrite Z2Nat.inj_mul by lia. reflexivity. }
  assert (Hlen2 : (length (indices I (num_iPLUSh a))
                   * length (indices (num_iPLUSh a) (total_num_neurons a)))%nat
                  = Z.to_nat (H * O)).
  { rewrite !length_indices. replace (num_iPLUSh a - I) with H by lia.
    replace (total_num_neurons a - num_iPLUSh a) with O by lia.
    rewrite Z2Nat.inj_mul by lia. reflexivity. }
  assert (HIH : 0 <= I * H) by nia.
  assert (HHO : 0 <= H * O) by nia.
  assert (Hsum : H * (I + O) = I * H + H * O) by ring.
  eexists. split; [|split; [reflexivity|]].
  - unfold fullyConnectFF. fold I H O.
    destruct (Z.gtb_spec (H * (I + O)) INT_MAX) as [Hgt|_];
      [unfold INT_MAX in Hgt; lia|].
    rewrite for_loop_push_edges by (rewrite Hlen1; unfold INT_MAX; lia).
    cbn [mbind option_bind].
    rewrite for_loop_push_edges by (rewrite Hlen1, Hlen2; unfold INT_MAX; lia).
    cbn [mbind option_bind snd app].
    rewrite !endpoints_block, <- map_app
      by (apply Forall_indices_ushort; unfold USHRT_MAX; lia).
    reflexivity.
  - split; [|split].
    + rewrite length_map, length_app, !length_prod, Hlen1, Hlen2. lia.
    + rewrite map_map.
      rewrite (map_ext _ id) by (intros [s t]; reflexivity). rewrite map_id.
      apply NoDup_app. split; [|split].
      * apply NoDup_list_prod; apply NoDup_indices.
      * intros [s t] H1 H2.
        apply list_elem_of_In, in_prod_iff in H1 as [H1 _].
        apply list_elem_of_In, in_prod_iff in H2 as [H2 _].
        apply In_indices in H1, H2. lia.
      * apply NoDup_list_prod; apply NoDup_indices.
    + intros H0. rewrite (indices_nil I (num_iPLUSh a)) by lia.
      rewrite list_prod_nil_r. reflexivity.
Qed.

(** ** activate *)

Lemma feed_cons conn cs ns :
  feed (conn :: cs) ns
  = source ← at_index ns (source_neuron_idx conn);
    _ ← at_index ns (target_neuron_idx conn);
    r ← feed cs (alter (add_input (weight conn * output source)%float)
                       (Z.to_nat (target_neuron_idx conn)) ns);
    Some (set_data conn (weight conn * output source)%float :: r.1, r.2).
Proof. reflexivity. Qed.

Lemma feed_spec cs ns :
  Forall (edge_in_range (length ns)) cs ->
  exists r, feed cs ns = Some r
    /\ length r.2 = length ns
    /\ Forall2 same_edge cs r.1
    /\ forall (k : nat) x, ns !! k = Some x ->
         exists x', r.2 !! k = Some x' /\ same_signal x x'.
Proof.
  intros Hcs. revert ns Hcs. induction cs as [|conn cs IH]; intros ns Hcs.
  - exists ([], ns). repeat split; [constructor|].
    intros k x Hk. exists x. now split.
  - apply Forall_cons in Hcs as [[Hs Ht] Hcs].
    destruct (at_index_Some ns _ Hs) as [source Hsource].
    destruct (at_index_Some ns _ Ht) as [target Htarget].
    set (d := (weight conn * output source)%float).
    destruct (IH (alter (add_input d) (Z.to_nat (target_neuron_idx conn)) ns))
      as (r & Hr & Hlen & Hedges & Hk).
    { now rewrite length_alter. }
    exists (set_data conn d :: r.1, r.2).
    rewrite feed_cons, Hsource, Htarget. cbn [mbind option_bind]. fold d.
    rewrite Hr. cbn [mbind option_bind fst snd].
    rewrite length_alter in Hlen. repeat split; [exact Hlen| |].
    + constructor; [repeat split|exact Hedges].
    + intros k x Hx.
      destruct (decide (k = Z.to_nat (target_neuron_idx conn))) as [->|Hne].
      * destruct (Hk (Z.to_nat (target_neuron_idx conn)) (add_input d x))
          as (x' & Hx' & Ho & Hty).
        { now rewrite list_lookup_alter_eq, Hx. }
        exists x'. split; [exact Hx'|]. split; [exact Ho|exact Hty].
      * destruct (Hk k x) as (x' & Hx' & Hsig).
        { now rewrite list_lookup_alter_ne by congruence. }
        exists x'. now split.
Qed.

Lemma fire_loop exp I (ns : list Neuron) :
  0 <= I ->
  exists ns', for_loop (indices I (Z.of_nat (length ns))) (fire exp) ns = Some ns'
    /\ length ns' = length ns
    /\ forall (k : nat) x, ns !! k = Some x ->
         ns' !! k = Some (if decide (I <= Z.of_nat k) then fired exp x else x).
Proof.
  intros HI.
  destruct (for_loop_update_at (fun _ => fired exp)
              (indices I (Z.of_nat (length ns))) ns) as (ns' & Hns' & Hlen & Hk).
  { apply NoDup_indices. }
  { apply Forall_forall. intros n Hn. apply list_elem_of_In, In_indices in Hn. lia. }
  exists ns'. split; [exact Hns'|]. split; [exact Hlen|].
  intros k x Hx. rewrite (Hk k x Hx). f_equal.
  pose proof (lookup_lt_Some _ _ _ Hx).
  destruct (decide (Z.of_nat k ∈ indices I (Z.of_nat (length ns)))) as [H'|H'];
    rewrite list_elem_of_In, In_indices in H'.
  - rewrite decide_True by lia. reflexivity.
  - rewrite decide_False by lia. reflexivity.
Qed.

(** C10.  On a network whose neuron vector has total_num_neurons elements and
    whose edges point inside it, activate returns; the header is as before,
    every connection keeps its source, target and weight, every neuron keeps
    its type, every neuron below num_input keeps its output, and every neuron
    from num_input on has input_sum = 0. *)
Theorem activate_frame (exp : double -> double) (a : ANN) :
  0 <= num_input a -> neurons_allocated a -> edges_in_range a ->
  exists cs ns,
    activate exp a = Some (set_connections (set_neurons a ns) cs)
    /\ Forall2 same_edge (connections a) cs
    /\ length ns = length (neurons a)
    /\ forall (k : nat) nr, neurons a !! k = Some nr ->
         exists nr', ns !! k = Some nr'
           /\ type nr' = type nr
           /\ (Z.of_nat k < num_input a -> output nr' = output nr)
           /\ (num_input a <= Z.of_nat k -> input_sum nr' = 0%float).
Proof.
  intros HI Hall Hedges.
  destruct (feed_spec _ _ Hedges) as (r & Hr & Hlen & Hcs & Hk).
  destruct (fire_loop exp (num_input a) r.2 HI) as (ns & Hns & Hlen' & Hk').
  exists r.1, ns. unfold activate. rewrite Hr. cbn [mbind option_bind].
  unfold neurons_allocated in Hall. rewrite <- Hall, <- Hlen, Hns.
  cbn [mbind option_bind]. repeat split; [exact Hcs|congruence|].
  intros k nr Hnr. destruct (Hk k nr Hnr) as (x' & Hx' & Ho & Hty).
  rewrite (Hk' k x' Hx'). eexists. split; [reflexivity|].
  destruct (decide (num_input a <= Z.of_nat k)); cbn; repeat split; intros;
    try assumption; try reflexivity; lia.
Qed.

(** *** Two passes in a row *)

Lemma agree_alter I d t ns ns' :
  agree I ns ns' ->
  agree I (alter (add_input d) t ns) (alter (add_input d) t ns').
Proof.
  intros [Hlen Hk]. split; [now rewrite !length_alter|].
  intros k x x'. destruct (decide (t = k)) as [->|Hne].
  - rewrite !list_lookup_alter_eq.
    destruct (ns !! k) as [y|] eqn:Hy; [|discriminate].
    destruct (ns' !! k) as [y'|] eqn:Hy'; [|discriminate].
    cbn. intros [= <-] [= <-]. destruct (Hk k y y' Hy Hy') as [Ho Hs].
    split; intros Hlt; cbn; [auto|]. now rewrite (Hs Hlt).
  - rewrite !list_lookup_alter_ne by exact Hne. apply Hk.
Qed.

Lemma feed_agree I cs cs' ns ns' r :
  Forall2 same_edge cs cs' ->
  Forall (fun c => source_neuron_idx c < I) cs ->
  agree I ns ns' ->
  feed cs ns = Some r ->
  exists r', feed cs' ns' = Some r' /\ agree I r.2 r'.2.
Proof.
  intros Hcs. revert ns ns' r.
  induction Hcs as [|c c' cs cs' (Hsrc & Htrg & Hw) Hcs IH];
    intros ns ns' r Hhop Hag Hfeed.
  - injection Hfeed as <-. exists ([], ns'). now split.
  - apply Forall_cons in Hhop as [Hc Hhop]. rewrite feed_cons in Hfeed.
    destruct (at_index ns (source_neuron_idx c)) as [source|] eqn:Hs;
      [|discriminate].
    destruct (at_index ns (target_neuron_idx c)) as [target|] eqn:Ht;
      [|discriminate].
    cbn [mbind option_bind] in Hfeed.
    destruct (feed cs _) as [r0|] eqn:Hr0; [|discriminate].
    injection Hfeed as <-.
    apply at_index_inv in Hs as [Hs_rng Hs], Ht as [Ht_rng Ht].
    destruct Hag as [Hlen Hk].
    destruct (at_index_Some ns' (source_neuron_idx c')) as [source' Hs'];
      [rewrite <- Hsrc, <- Hlen; exact Hs_rng|].
    destruct (at_index_Some ns' (target_neuron_idx c')) as [target' Ht'];
      [rewrite <- Htrg, <- Hlen; exact Ht_rng|].
    rewrite feed_cons, Hs', Ht'. cbn [mbind option_bind].
    apply at_index_inv in Hs' as [_ Hs']. rewrite <- Hsrc in Hs'.
    destruct (Hk _ _ _ Hs Hs') as [Hout _].
    rewrite <- Hout, <- Hw, <- Htrg by lia.
    destruct (IH _ (alter (add_input (weight c * output source)%float)
                          (Z.to_nat (target_neuron_idx c)) ns') _ Hhop
                 (agree_alter I _ _ ns ns' (conj Hlen Hk)) Hr0)
      as (r' & Hr' & Hag').
    rewrite Hr'. cbn [mbind option_bind]. eexists. split; [reflexivity|exact Hag'].
Qed.

Lemma for_loop_ext {S : Type} (body body' : Z -> S -> option S) ns s :
  (forall n s, body n s = body' n s) ->
  for_loop ns body s = for_loop ns body' s.
Proof.
  intros Hb. revert s. induction ns as [|n ns IH]; intros s; [reflexivity|].
  rewrite !for_loop_cons, Hb. destruct (body' n s); cbn; auto.
Qed.

(** getOutput reads two header fields and the outputs, nothing else. *)
Lemma getOutput_ext (a a' : ANN) :
  num_iPLUSh a' = num_iPLUSh a -> total_num_neurons a' = total_num_neurons a ->
  map output (neurons a') = map output (neurons a) ->
  getOutput a' = getOutput a.
Proof.
  intros Hih Htot Hout. unfold getOutput. rewrite Hih, Htot.
  apply for_loop_ext. intros n out.
  assert (H : output <$> at_index (neurons a') n = output <$> at_index (neurons a) n).
  { unfold at_index. destruct (n <? 0); [reflexivity|].
    change (output <$> neurons a' = output <$> neurons a) in Hout.
    now rewrite <- !list_lookup_fmap, Hout. }
  destruct (at_index (neurons a') n), (at_index (neurons a) n);
    cbn in *; congruence.
Qed.

Lemma rested_lookup (a : ANN) (k : nat) x :
  rested a -> 0 <= num_input a -> neurons a !! k = Some x ->
  num_input a <= Z.of_nat k -> input_sum x = 0%float.
Proof.
  intros Hr HI Hx Hk. unfold rested in Hr. rewrite Forall_lookup in Hr.
  apply (Hr (k - Z.to_nat (num_input a))%nat). rewrite lookup_drop.
  replace (Z.to_nat (num_input a) + (k - Z.to_nat (num_input a)))%nat with k by lia.
  exact Hx.
Qed.

(** C5 (as amended).  When every connection has an input neuron as its
    source (on a network whose edges point inside the neuron vector and whose
    sums from num_input on are zero, as they are between passes), two
    activate calls in a row, with nothing changed in between, leave the same
    output in every neuron, so getOutput returns the same values after the
    second call as after the first. *)
Theorem activate_twice_single_hop (exp : double -> double) (a : ANN) :
  0 <= num_input a -> neurons_allocated a -> edges_in_range a ->
  single_hop a -> rested a ->
  exists a1 a2,
    activate exp a = Some a1 /\ activate exp a1 = Some a2
    /\ map output (neurons a2) = map output (neurons a1)
    /\ getOutput a2 = getOutput a1.
Proof.
  intros HI Hall Hedges Hhop Hrest. unfold neurons_allocated in Hall.
  destruct (feed_spec _ _ Hedges) as (r & Hr & Hlen & Hcs & Hk).
  destruct (fire_loop exp (num_input a) r.2 HI) as (ns1 & Hns1 & Hlen1 & Hk1).
  assert (Hag : agree (num_input a) (neurons a) ns1).
  { split; [congruence|]. intros k x x1 Hx Hx1.
    destruct (Hk k x Hx) as (y & Hy & Ho & _).
    rewrite (Hk1 k y Hy) in Hx1. injection Hx1 as <-.
    destruct (decide (num_input a <= Z.of_nat k)) as [Hge|Hlt];
      (split; intros Hcmp; [try lia|try lia]).
    - cbn. exact (rested_lookup a k x Hrest HI Hx Hge).
    - now symmetry. }
  destruct (feed_agree _ _ _ _ _ _ Hcs Hhop Hag Hr) as (r' & Hr' & [Hlen' Hk']).
  destruct (fire_loop exp (num_input a) r'.2 HI) as (ns2 & Hns2 & Hlen2 & Hk2).
  assert (Ha1 : activate exp a = Some (set_connections (set_neurons a ns1) r.1)).
  { unfold activate. rewrite Hr. cbn [mbind option_bind].
    rewrite <- Hall, <- Hlen, Hns1. reflexivity. }
  assert (Ha2 : activate exp (set_connections (set_neurons a ns1) r.1)
                = Some (set_connections (set_neurons a ns2) r'.1)).
  { unfold activate. cbn [connections neurons set_connections set_neurons
                          num_input total_num_neurons].
    rewrite Hr'. cbn [mbind option_bind].
    rewrite <- Hall, <- Hlen, Hlen', Hns2. reflexivity. }
  assert (Hout : map output ns2 = map output ns1).
  { apply list_eq. intros k.
    change (map output ns2) with (output <$> ns2).
    change (map output ns1) with (output <$> ns1).
    rewrite !list_lookup_fmap.
    destruct (r.2 !! k) as [x|] eqn:Hx.
    - destruct (lookup_lt_is_Some_2 r'.2 k) as [x' Hx'].
      { rewrite <- Hlen'. exact (lookup_lt_Some _ _ _ Hx). }
      rewrite (Hk1 k x Hx), (Hk2 k x' Hx'). cbn. f_equal.
      destruct (Hk' k x x' Hx Hx') as [Ho Hs].
      destruct (decide (num_input a <= Z.of_nat k)) as [Hge|Hlt]; cbn.
      + now rewrite (Hs Hge).
      + symmetry. apply Ho. lia.
    - apply lookup_ge_None_1 in Hx.
      rewrite !lookup_ge_None_2 by lia. reflexivity. }
  exists (set_connections (set_neurons a ns1) r.1),
         (set_connections (set_neurons a ns2) r'.1).
  split; [exact Ha1|]. split; [exact Ha2|]. split; [exact Hout|].
  apply getOutput_ext; [reflexivity|reflexivity|exact Hout].
Qed.

(** ** The activation function *)

Lemma exp_series_zero : exp_zero exp_series.
Proof. reflexivity. Qed.

Lemma Prim2SF_15 : Prim2SF 15 = S754_finite false 8444249301319680 (-49).
Proof. vm_compute. reflexivity. Qed.

Lemma Prim2SF_m15 : Prim2SF (-15) = S754_finite true 8444249301319680 (-49).
Proof. vm_compute. reflexivity. Qed.

(** A double above 15 is not below -15. *)
Lemma ltb_15_exclusive (x : double) :
  (15 <? x)%float = true -> (x <? -15)%float = false.
Proof.
  rewrite !FloatAxioms.ltb_spec, Prim2SF_15, Prim2SF_m15.
  unfold SFltb, SFcompare.
  destruct (Prim2SF x) as [s|s| |s m e]; try destruct s; congruence.
Qed.

(** C7.  sigmoid_AF returns 0.0 below -15, 1.0 above 15 and
    1/(1 + exp(-x)) otherwise; so 100 gives 1.0, -100 gives 0.0 and, the
    exponential of zero being 1, 0 gives 0.5. *)
Theorem sigmoid_AF_spec (exp : double -> double) :
  exp_zero exp ->
  (forall x, (x <? -15)%float = true -> sigmoid_AF exp x = 0%float)
  /\ (forall x, (15 <? x)%float = true -> sigmoid_AF exp x = 1%float)
  /\ (forall x, (x <? -15)%float = false -> (15 <? x)%float = false ->
        sigmoid_AF exp x = (1 / (1 + exp (- x)))%float)
  /\ sigmoid_AF exp 100 = 1%float
  /\ sigmoid_AF exp (-100) = 0%float
  /\ sigmoid_AF exp 0 = 0.5%float.
Proof.
  intros Hexp. unfold sigmoid_AF. repeat split.
  - intros x Hx. now rewrite Hx.
  - intros x Hx. now rewrite (ltb_15_exclusive x Hx), Hx.
  - intros x Hlo Hhi. now rewrite Hlo, Hhi.
  - cbv in Hexp. cbv. rewrite Hexp. reflexivity.
Qed.

Lemma sigmoid_AF_spec_witness :
  (forall x, (x <? -15)%float = true -> sigmoid_AF exp_series x = 0%float)
  /\ (forall x, (15 <? x)%float = true -> sigmoid_AF exp_series x = 1%float)
  /\ (forall x, (x <? -15)%float = false -> (15 <? x)%float = false ->
        sigmoid_AF exp_series x = (1 / (1 + exp_series (- x)))%float)
  /\ sigmoid_AF exp_series 100 = 1%float
  /\ sigmoid_AF exp_series (-100) = 0%float
  /\ sigmoid_AF exp_series 0 = 0.5%float.
Proof. exact (sigmoid_AF_spec exp_series exp_series_zero). Defined.

(** ** The one-edge scenario *)

(** C8.  The network with one input, no hidden and one output neuron and the
    single connection 0 -> 1 of weight 1.0: after setInput([0.0]) and
    activate(), getOutput() is [0.5]. *)
Theorem scenario_one_edge (exp : double -> double) :
  exp_zero exp ->
  exists a a1 a2,
    ANN_new [1; 0; 1] [0] [1] [1%float] = inr a
    /\ setInput [0%float] a = Some (0, a1)
    /\ activate exp a1 = Some a2
    /\ getOutput a2 = Some [0.5%float].
Proof.
  intros Hexp. cbv in Hexp.
  do 3 eexists. split; [cbv; reflexivity|].
  split; [cbv; reflexivity|]. split; [cbv; reflexivity|].
  cbv. rewrite Hexp. reflexivity.
Qed.

Lemma scenario_one_edge_witness :
  exists a a1 a2,
    ANN_new [1; 0; 1] [0] [1] [1%float] = inr a
    /\ setInput [0%float] a = Some (0, a1)
    /\ activate exp_series a1 = Some a2
    /\ getOutput a2 = Some [0.5%float].
Proof. exact (scenario_one_edge exp_series exp_series_zero). Defined.

(** ** randomizeW *)

(** [min < max] excludes [min >= max]. *)
Lemma ltb_leb_false (x y : double) :
  (x <? y)%float = true -> (y <=? x)%float = false.
Proof.
  rewrite FloatAxioms.ltb_spec, FloatAxioms.leb_spec.
  unfold SFltb, SFleb, SFcompare.
  destruct (Prim2SF x) as [s|s| |s m e], (Prim2SF y) as [s'|s'| |s' m' e'];
    try destruct s; try destruct s'; try congruence;
    pose proof (Pos.compare_cont_antisym m m' Eq) as Hm; cbn in Hm;
    rewrite (Z.compare_antisym e e'), <- Hm;
    destruct (e ?= e'); cbn; try congruence;
    destruct (Pos.compare_cont Eq m m'); cbn; congruence.
Qed.

(** ** Rounding to binary64 *)

Lemma fexp_eq e : fexp prec emax e = fx e.
Proof. reflexivity. Qed.

Lemma digits2_pos_bounds p :
  2 ^ (Z.pos (digits2_pos p) - 1) <= Z.pos p < 2 ^ Z.pos (digits2_pos p).
Proof.
  induction p as [p IH|p IH|]; cbn [digits2_pos].
  - rewrite Pos2Z.inj_succ, Z.pow_succ_r by lia.
    replace (Z.succ (Z.pos (digits2_pos p)) - 1)
      with (Z.succ (Z.pos (digits2_pos p) - 1)) by lia.
    rewrite Z.pow_succ_r by lia. lia.
  - rewrite Pos2Z.inj_succ, Z.pow_succ_r by lia.
    replace (Z.succ (Z.pos (digits2_pos p)) - 1)
      with (Z.succ (Z.pos (digits2_pos p) - 1)) by lia.
    rewrite Z.pow_succ_r by lia. lia.
  - cbn. lia.
Qed.

Lemma Zdigits2_bounds m :
  0 < m -> 0 < Zdigits2 m /\ 2 ^ (Zdigits2 m - 1) <= m < 2 ^ Zdigits2 m.
Proof.
  destruct m as [|p|p]; try lia. intros _. cbn [Zdigits2].
  split; [lia|apply digits2_pos_bounds].
Qed.

(** The number of digits from a bracket of powers of two. *)
Lemma Zdigits2_le_of_lt m d : 0 < m -> 0 <= d -> m < 2 ^ d -> Zdigits2 m <= d.
Proof.
  intros Hm Hd Hlt. destruct (Zdigits2_bounds m Hm) as (Hpos & Hlo & _).
  destruct (Z_le_gt_dec (Zdigits2 m) d) as [|Hgt]; [assumption|exfalso].
  assert (2 ^ d <= 2 ^ (Zdigits2 m - 1)) by (apply Z.pow_le_mono_r; lia). lia.
Qed.

Lemma Zdigits2_ge_of_le m d : 0 < m -> 2 ^ (d - 1) <= m -> d <= Zdigits2 m.
Proof.
  intros Hm Hle. destruct (Zdigits2_bounds m Hm) as (Hpos & _ & Hhi).
  destruct (Z_le_gt_dec d (Zdigits2 m)) as [|Hgt]; [assumption|exfalso].
  assert (2 ^ Zdigits2 m <= 2 ^ (d - 1)) by (apply Z.pow_le_mono_r; lia). lia.
Qed.

Lemma shr_1_m mrs : 0 <= shr_m mrs -> shr_m (shr_1 mrs) = shr_m mrs / 2.
Proof.
  destruct mrs as [[|[p|p|]|p] r s]; cbn [shr_1 shr_m]; intros H; try lia.
  - reflexivity.
  - apply (Z.div_unique (Z.pos p~1) 2 (Z.pos p) 1); lia.
  - apply (Z.div_unique (Z.pos p~0) 2 (Z.pos p) 0); lia.
  - reflexivity.
Qed.

Lemma pow2_xO n : 2 ^ Z.pos n~0 = 2 ^ Z.pos n * 2 ^ Z.pos n.
Proof.
  replace (Z.pos n~0) with (Z.pos n + Z.pos n) by lia.
  apply Z.pow_add_r; lia.
Qed.

Lemma pow2_xI n : 2 ^ Z.pos n~1 = 2 * (2 ^ Z.pos n * 2 ^ Z.pos n).
Proof.
  replace (Z.pos n~1) with (Z.succ (Z.pos n + Z.pos n)) by lia.
  rewrite Z.pow_succ_r, Z.pow_add_r by lia. reflexivity.
Qed.

Lemma iter_pos_shr_m n mrs :
  0 <= shr_m mrs -> shr_m (SpecFloat.iter_pos shr_1 n mrs) = shr_m mrs / 2 ^ Z.pos n.
Proof.
  revert mrs. induction n as [n IH|n IH|]; intros mrs Hm; cbn [SpecFloat.iter_pos].
  - assert (Hp : 0 < 2 ^ Z.pos n) by (apply Z.pow_pos_nonneg; lia).
    assert (H1 : 0 <= shr_m (shr_1 mrs))
      by (rewrite shr_1_m by assumption; apply Z.div_pos; lia).
    assert (H2 : 0 <= shr_m (SpecFloat.iter_pos shr_1 n (shr_1 mrs)))
      by (rewrite IH by assumption; apply Z.div_pos; assumption).
    rewrite IH, IH, shr_1_m by assumption. rewrite pow2_xI.
    rewrite !Z.div_div by lia. reflexivity.
  - assert (Hp : 0 < 2 ^ Z.pos n) by (apply Z.pow_pos_nonneg; lia).
    assert (H2 : 0 <= shr_m (SpecFloat.iter_pos shr_1 n mrs))
      by (rewrite IH by assumption; apply Z.div_pos; assumption).
    rewrite IH, IH by assumption. rewrite pow2_xO.
    rewrite !Z.div_div by lia. reflexivity.
  - rewrite shr_1_m by assumption. reflexivity.
Qed.

Lemma shr_record_of_loc_m m l : shr_m (shr_record_of_loc m l) = m.
Proof. destruct l as [|[]]; reflexivity. Qed.

(** The mantissa and exponent after [shr_fexp]. *)
Lemma shr_fexp_m m e l :
  0 <= m ->
  shr_m (fst (shr_fexp prec emax m e l))
  = m / 2 ^ Z.max 0 (fx (Zdigits2 m + e) - e)
  /\ snd (shr_fexp prec emax m e l)
     = e + Z.max 0 (fx (Zdigits2 m + e) - e).
Proof.
  intros Hm. unfold shr_fexp, shr. rewrite fexp_eq.
  destruct (fx (Zdigits2 m + e) - e) as [|p|p] eqn:Hn; cbn [fst snd].
  - rewrite shr_record_of_loc_m, Z.div_1_r. split; [reflexivity|lia].
  - rewrite iter_pos_shr_m, shr_record_of_loc_m by (rewrite shr_record_of_loc_m; exact Hm).
    rewrite Z.max_r by lia. split; reflexivity.
  - rewrite shr_record_of_loc_m. rewrite Z.max_l by lia.
    rewrite Z.div_1_r. split; [reflexivity|lia].
Qed.

Lemma shr_fexp_exact m e :
  fx (Zdigits2 m + e) - e <= 0 ->
  shr_fexp prec emax m e loc_Exact = ({| shr_m := m; shr_r := false; shr_s := false |}, e).
Proof.
  intros Hn. unfold shr_fexp, shr. rewrite fexp_eq.
  destruct (fx (Zdigits2 m + e) - e) as [|p|p]; try reflexivity; lia.
Qed.

Lemma round_nearest_even_cases m l :
  round_nearest_even m l = m \/ round_nearest_even m l = m + 1.
Proof.
  destruct l as [|[]]; cbn; auto. destruct (Z.even m); auto.
Qed.

(** [binary_round_aux] on a mantissa that is not negative, in integers. *)
Lemma binary_round_aux_eq s m e l :
  0 <= m ->
  exists m2,
    (m2 = m / 2 ^ Z.max 0 (fx (Zdigits2 m + e) - e)
     \/ m2 = m / 2 ^ Z.max 0 (fx (Zdigits2 m + e) - e) + 1)
    /\ (l = loc_Exact -> fx (Zdigits2 m + e) - e <= 0 -> m2 = m)
    /\ binary_round_aux prec emax s m e l
       = let e1 := e + Z.max 0 (fx (Zdigits2 m + e) - e) in
         let n2 := Z.max 0 (fx (Zdigits2 m2 + e1) - e1) in
         if m2 / 2 ^ n2 =? 0 then S754_zero s
         else if e1 + n2 <=? 971 then S754_finite s (Z.to_pos (m2 / 2 ^ n2)) (e1 + n2)
              else S754_infinity s.
Proof.
  intros Hm. unfold binary_round_aux.
  destruct (shr_fexp_m m e l Hm) as [Hm1 He1].
  destruct (shr_fexp prec emax m e l) as [mrs' e'] eqn:H1. cbn [fst snd] in Hm1, He1.
  set (m2 := round_nearest_even (shr_m mrs') (loc_of_shr_record mrs')).
  assert (H2 : m2 = shr_m mrs' \/ m2 = shr_m mrs' + 1)
    by apply round_nearest_even_cases.
  assert (Hm1' : 0 <= shr_m mrs')
    by (rewrite Hm1; apply Z.div_pos; [exact Hm|apply Z.pow_pos_nonneg; lia]).
  assert (Hm2 : 0 <= m2) by lia.
  exists m2. split; [rewrite <- Hm1; exact H2|]. split.
  - intros -> Hn. rewrite shr_fexp_exact in H1 by exact Hn.
    injection H1 as <- <-. reflexivity.
  - destruct (shr_fexp_m m2 e' loc_Exact Hm2) as [Hm3 He3].
    destruct (shr_fexp prec emax m2 e' loc_Exact) as [mrs'' e''].
    cbn [fst snd] in Hm3, He3. cbv zeta. rewrite <- He1, <- He3, <- Hm3.
    assert (0 <= shr_m mrs'')
      by (rewrite Hm3; apply Z.div_pos; [exact Hm2|apply Z.pow_pos_nonneg; lia]).
    destruct (shr_m mrs'') as [|p|p]; [reflexivity|reflexivity|lia].
Qed.

Lemma bounded_inv m e :
  bounded prec emax m e = true ->
  fx (Z.pos (digits2_pos m) + e) = e /\ e <= 971.
Proof.
  unfold bounded, canonical_mantissa. rewrite fexp_eq. intros H.
  apply andb_prop in H as [H1 H2].
  apply Z.eqb_eq in H1. apply Z.leb_le in H2. split; [exact H1|exact H2].
Qed.

Lemma iter_xO_value m d : Z.pos (Pos.iter xO m d) = Z.pos m * 2 ^ Z.pos d.
Proof.
  apply (Pos.iter_ind _ xO m (fun p a => Z.pos a = Z.pos m * 2 ^ Z.pos p)).
  - rewrite (Pos2Z.inj_xO m), Z.pow_1_r. ring.
  - intros p a IH. rewrite (Pos2Z.inj_xO a), IH, Pos2Z.inj_succ, Z.pow_succ_r by lia.
    ring.
Qed.

Lemma shl_align_value m e e' :
  snd (shl_align m e e') = Z.min e e'
  /\ Z.pos (fst (shl_align m e e')) = Z.pos m * 2 ^ (e - Z.min e e').
Proof.
  unfold shl_align. destruct (e' - e) as [|p|p] eqn:Hd; cbn [fst snd].
  - rewrite Z.min_l by lia. rewrite Z.sub_diag. split; [reflexivity|cbn; lia].
  - rewrite Z.min_l by lia. rewrite Z.sub_diag. split; [reflexivity|cbn; lia].
  - rewrite Z.min_r by lia. split; [reflexivity|].
    rewrite iter_xO_value. f_equal. f_equal. lia.
Qed.

Lemma Zdigits2_shift m k :
  0 < m -> 0 <= k -> Zdigits2 (m * 2 ^ k) = Zdigits2 m + k.
Proof.
  intros Hm Hk. destruct (Zdigits2_bounds m Hm) as (Hd & Hlo & Hhi).
  assert (Hp : 0 < 2 ^ k) by (apply Z.pow_pos_nonneg; lia).
  assert (Hmk : 0 < m * 2 ^ k) by nia.
  apply Z.le_antisymm.
  - apply Zdigits2_le_of_lt; [exact Hmk|lia|].
    rewrite Z.pow_add_r by lia. nia.
  - apply Zdigits2_ge_of_le; [exact Hmk|].
    replace (Zdigits2 m + k - 1) with (Zdigits2 m - 1 + k) by lia.
    rewrite Z.pow_add_r by lia. nia.
Qed.

Lemma binary_round_aux_signed s m e l :
  0 <= m -> signed s (binary_round_aux prec emax s m e l).
Proof.
  intros Hm. destruct (binary_round_aux_eq s m e l Hm) as (m2 & _ & _ & ->).
  cbv zeta. destruct (_ =? 0); [reflexivity|]. destruct (_ <=? 971); reflexivity.
Qed.

Lemma binary_round_signed s m e : signed s (binary_round prec emax s m e).
Proof.
  unfold binary_round. destruct (shl_align _ _ _) as [mz ez].
  apply binary_round_aux_signed. lia.
Qed.

(** Rounding a positive integer multiple of 2^ez that is not below a
    binary64 number gives a result that is not below it. *)
Lemma binary_round_ge M ez my ey :
  -1074 <= ez <= ey -> bounded prec emax my ey = true ->
  Z.pos my * 2 ^ (ey - ez) <= Z.pos M ->
  SFleb (S754_finite false my ey) (binary_round prec emax false M ez) = true.
Proof.
  intros Hez Hb HM. apply bounded_inv in Hb as [Hy Hey].
  pose proof (digits2_pos_bounds my) as [Hylo Hyhi].
  pose proof (digits2_pos_bounds M) as [HMlo HMhi].
  set (dy := Z.pos (digits2_pos my)) in *. set (d := Z.pos (digits2_pos M)) in *.
  assert (Hdy : 0 < dy) by (unfold dy; lia). assert (Hd0 : 0 < d) by (unfold d; lia).
  assert (Hpk : 0 < 2 ^ (ey - ez)) by (apply Z.pow_pos_nonneg; lia).
  assert (Hd : dy + ey - ez <= d).
  { assert (H : 2 ^ (dy - 1 + (ey - ez)) < 2 ^ d).
    { rewrite Z.pow_add_r by lia. nia. }
    apply Z.pow_lt_mono_r_iff in H; lia. }
  fold dy in Hy. unfold binary_round. rewrite fexp_eq. fold d.
  set (f0 := fx (d + ez)).
  assert (Hf0 : ey <= f0) by (unfold f0, fx in *; lia).
  assert (Hal : shl_align M ez f0 = (M, ez)).
  { unfold shl_align. destruct (f0 - ez) as [|p|p] eqn:Hs; try reflexivity. lia. }
  rewrite Hal.
  destruct (binary_round_aux_eq false (Z.pos M) ez loc_Exact) as (m2 & Hm2 & _ & ->);
    [lia|].
  cbv zeta. cbn [Zdigits2] in Hm2 |- *. fold d in Hm2 |- *. fold f0 in Hm2 |- *.
  rewrite !(Z.max_r 0 (f0 - ez)) in Hm2 |- * by lia.
  replace (ez + (f0 - ez)) with f0 by lia.
  assert (Hn1 : f0 - ez <= d - 1) by (unfold f0, fx; lia).
  assert (Hm1 : 1 <= Z.pos M / 2 ^ (f0 - ez)).
  { apply Z.div_le_lower_bound; [apply Z.pow_pos_nonneg; lia|].
    assert (2 ^ (f0 - ez) <= 2 ^ (d - 1)) by (apply Z.pow_le_mono_r; lia). lia. }
  assert (Hm2' : 1 <= m2) by lia.
  destruct (Zdigits2_bounds m2) as (Hd2 & Hlo2 & Hhi2); [lia|].
  set (d2 := Zdigits2 m2) in *.
  set (n2 := Z.max 0 (fx (d2 + f0) - f0)).
  assert (Hf0' : -1074 <= f0) by (unfold f0, fx; lia).
  assert (Hn2 : 0 <= n2 <= d2 - 1) by (unfold n2, fx; lia).
  assert (Hm3 : 1 <= m2 / 2 ^ n2).
  { apply Z.div_le_lower_bound; [apply Z.pow_pos_nonneg; lia|].
    assert (2 ^ n2 <= 2 ^ (d2 - 1)) by (apply Z.pow_le_mono_r; lia). lia. }
  destruct (Z.eqb_spec (m2 / 2 ^ n2) 0) as [H0|_]; [lia|].
  destruct (f0 + n2 <=? 971); [|reflexivity].
  unfold SFleb, SFcompare.
  destruct (Z.compare_spec ey (f0 + n2)) as [He|He|He]; [|reflexivity|lia].
  assert (Hn20 : n2 = 0) by lia. assert (Hf0e : f0 = ey) by lia.
  rewrite Hn20, Z.pow_0_r, Z.div_1_r in *. rewrite Hf0e in *.
  assert (Hmy : Z.pos my <= Z.pos M / 2 ^ (ey - ez))
    by (apply Z.div_le_lower_bound; [exact Hpk|lia]).
  change (Pos.compare_cont Eq my (Z.to_pos m2)) with (my ?= Z.to_pos m2)%positive.
  destruct (Pos.compare_spec my (Z.to_pos m2)) as [?|?|Hgt]; try reflexivity.
  exfalso. apply Pos2Z.pos_lt_pos in Hgt. rewrite Z2Pos.id in Hgt by lia. lia.
Qed.

(** Rounding a positive integer multiple of 2^ez below a binary64 number
    gives a magnitude that is not above it: with the negative sign, a
    result that is not below. *)
Lemma binary_round_le M ez my ey :
  -1074 <= ez <= ey -> bounded prec emax my ey = true ->
  Z.pos M < Z.pos my * 2 ^ (ey - ez) ->
  SFleb (S754_finite true my ey) (binary_round prec emax true M ez) = true.
Proof.
  intros Hez Hb HM. apply bounded_inv in Hb as [Hy Hey].
  pose proof (digits2_pos_bounds my) as [Hylo Hyhi].
  pose proof (digits2_pos_bounds M) as [HMlo HMhi].
  set (dy := Z.pos (digits2_pos my)) in *. set (d := Z.pos (digits2_pos M)) in *.
  assert (Hdy : 0 < dy) by (unfold dy; lia). assert (Hd0 : 0 < d) by (unfold d; lia).
  assert (Hpk : 0 < 2 ^ (ey - ez)) by (apply Z.pow_pos_nonneg; lia).
  assert (Hdy53 : dy <= 53) by (unfold fx in Hy; lia).
  assert (Hd : d <= dy + ey - ez).
  { apply (Zdigits2_le_of_lt (Z.pos M)); [lia|lia|].
    replace (dy + ey - ez) with (dy + (ey - ez)) by lia.
    rewrite Z.pow_add_r by lia. nia. }
  unfold binary_round. rewrite fexp_eq. fold d.
  set (f0 := fx (d + ez)).
  assert (Hf0 : f0 <= ey) by (unfold f0, fx in *; lia).
  assert (Hf0' : -1074 <= f0) by (unfold f0, fx; lia).
  destruct (shl_align_value M ez f0) as [Hse Hsm].
  destruct (shl_align M ez f0) as [mz e0]. cbn [fst snd] in Hse, Hsm. subst e0.
  destruct (binary_round_aux_eq true (Z.pos mz) (Z.min ez f0) loc_Exact)
    as (m2 & Hm2 & Hex & ->); [lia|].
  cbv zeta. cbn [Zdigits2] in Hm2, Hex |- *.
  change (Z.pos (digits2_pos mz)) with (Zdigits2 (Z.pos mz)) in Hm2, Hex |- *.
  rewrite Hsm in Hm2, Hex |- *. rewrite Zdigits2_shift in Hm2, Hex |- * by lia.
  cbn [Zdigits2] in Hm2, Hex |- *. fold d in Hm2, Hex |- *.
  replace (d + (ez - Z.min ez f0) + Z.min ez f0) with (d + ez) in Hm2, Hex |- * by lia.
  fold f0 in Hm2, Hex |- *.
  destruct (Z_lt_le_dec f0 ez) as [Hlt|Hge].
  - (* the mantissa is shifted left: the result is exact *)
    rewrite (Z.min_r ez f0) in Hm2, Hex |- * by lia.
    rewrite Z.sub_diag in Hex |- *. rewrite (Z.max_l 0 0) by lia.
    specialize (Hex eq_refl (Z.le_refl 0)). subst m2.
    rewrite Z.add_0_r. rewrite Zdigits2_shift by lia. cbn [Zdigits2]. fold d.
    replace (d + (ez - f0) + f0) with (d + ez) by lia. fold f0.
    rewrite Z.sub_diag, (Z.max_l 0 0), Z.pow_0_r, Z.div_1_r, Z.add_0_r by lia.
    assert (Hp : 0 < 2 ^ (ez - f0)) by (apply Z.pow_pos_nonneg; lia).
    destruct (Z.eqb_spec (Z.pos M * 2 ^ (ez - f0)) 0) as [H0|_]; [nia|].
    destruct (Z.leb_spec f0 971) as [_|Hbig]; [|lia].
    unfold SFleb, SFcompare.
    destruct (Z.compare_spec ey f0) as [He|He|He]; [lia|lia|reflexivity].
  - rewrite (Z.min_l ez f0) in Hm2, Hex |- * by lia.
    rewrite Z.sub_diag, Z.pow_0_r, Z.mul_1_r in Hm2, Hex.
    rewrite !(Z.max_r 0 (f0 - ez)) in Hm2 |- * by lia.
    replace (ez + (f0 - ez)) with f0 by lia.
    assert (Hpn : 0 < 2 ^ (f0 - ez)) by (apply Z.pow_pos_nonneg; lia).
    assert (Hm1 : 0 <= Z.pos M / 2 ^ (f0 - ez) < 2 ^ 53).
    { split; [apply Z.div_pos; lia|].
      apply Z.div_lt_upper_bound; [exact Hpn|].
      rewrite <- Z.pow_add_r by lia.
      assert (2 ^ d <= 2 ^ (f0 - ez + 53))
        by (apply Z.pow_le_mono_r; unfold f0, fx; lia).
      lia. }
    assert (Hm2le : 0 <= m2 <= 2 ^ 53).
    { destruct (Z.eq_dec f0 ez) as [Heq|Hne].
      - rewrite (Hex eq_refl) by lia.
        assert (2 ^ d <= 2 ^ 53) by (apply Z.pow_le_mono_r; unfold f0, fx in *; lia).
        lia.
      - lia. }
    assert (Hm2y : f0 = ey -> m2 <= Z.pos my).
    { intros Heq. rewrite Heq in *.
      assert (Z.pos M / 2 ^ (ey - ez) < Z.pos my)
        by (apply Z.div_lt_upper_bound; [exact Hpn|lia]).
      destruct (Z.eq_dec ey ez) as [Heq'|Hne].
      - rewrite (Hex eq_refl) by lia. rewrite Heq', Z.sub_diag, Z.pow_0_r in HM. lia.
      - lia. }
    destruct (Z_lt_le_dec m2 (2 ^ 53)) as [Hsmall|Hbig].
    + assert (Hd2 : Zdigits2 m2 <= 53).
      { destruct (Z.eq_dec m2 0) as [->|Hne]; [cbn; lia|].
        apply Zdigits2_le_of_lt; lia. }
      assert (Hn2 : Z.max 0 (fx (Zdigits2 m2 + f0) - f0) = 0) by (unfold fx; lia).
      rewrite Hn2, Z.pow_0_r, Z.div_1_r, Z.add_0_r.
      destruct (Z.eqb_spec m2 0) as [_|Hne]; [reflexivity|].
      destruct (Z.leb_spec f0 971) as [_|Hbig]; [|lia].
      unfold SFleb, SFcompare.
      destruct (Z.compare_spec ey f0) as [He|He|He]; [|lia|reflexivity].
      specialize (Hm2y (eq_sym He)).
      change (Pos.compare_cont Eq my (Z.to_pos m2)) with (my ?= Z.to_pos m2)%positive.
      destruct (Pos.compare_spec my (Z.to_pos m2)) as [?|Hlt'|?]; try reflexivity.
      exfalso. apply Pos2Z.pos_lt_pos in Hlt'. rewrite Z2Pos.id in Hlt' by lia. lia.
    + assert (Hm2eq : m2 = 2 ^ 53) by lia.
      assert (Hne : f0 <> ey).
      { intros Heq. specialize (Hm2y Heq).
        assert (2 ^ dy <= 2 ^ 53) by (apply Z.pow_le_mono_r; lia). lia. }
      assert (Hd2 : Zdigits2 m2 = 54) by (rewrite Hm2eq; reflexivity).
      assert (Hn2 : Z.max 0 (fx (Zdigits2 m2 + f0) - f0) = 1)
        by (rewrite Hd2; unfold fx; lia).
      rewrite Hn2, Hm2eq.
      change (2 ^ 53 / 2 ^ 1) with (2 ^ 52).
      change (2 ^ 52 =? 0) with false. cbv iota.
      destruct (Z.leb_spec (f0 + 1) 971) as [_|Hbig']; [|lia].
      unfold SFleb, SFcompare.
      destruct (Z.compare_spec ey (f0 + 1)) as [He|He|He]; [|lia|reflexivity].
      assert (Hdy' : dy = 53) by (unfold fx in Hy; lia).
      rewrite Hdy' in Hylo. change (2 ^ (53 - 1)) with (2 ^ 52) in Hylo.
      change (Pos.compare_cont Eq my (Z.to_pos (2 ^ 52)))
        with (my ?= Z.to_pos (2 ^ 52))%positive.
      destruct (Pos.compare_spec my (Z.to_pos (2 ^ 52))) as [?|Hlt'|?]; try reflexivity.
      exfalso. apply Pos2Z.pos_lt_pos in Hlt'. rewrite Z2Pos.id in Hlt' by reflexivity.
      lia.
Qed.

(** A positive integer that fits under the largest exponent rounds to a
    finite number. *)
Lemma binary_round_finite s M e :
  -1074 <= e -> Z.pos (digits2_pos M) + e <= 1023 ->
  exists m e', binary_round prec emax s M e = S754_finite s m e'.
Proof.
  intros He Hd.
  pose proof (digits2_pos_bounds M) as [HMlo HMhi].
  set (d := Z.pos (digits2_pos M)) in *.
  assert (Hd0 : 0 < d) by (unfold d; lia).
  unfold binary_round. rewrite fexp_eq. fold d.
  set (f0 := fx (d + e)).
  assert (Hf0 : -1074 <= f0 <= 970) by (unfold f0, fx; lia).
  destruct (shl_align_value M e f0) as [Hse Hsm].
  destruct (shl_align M e f0) as [mz e0]. cbn [fst snd] in Hse, Hsm. subst e0.
  destruct (binary_round_aux_eq s (Z.pos mz) (Z.min e f0) loc_Exact)
    as (m2 & Hm2 & Hex & ->); [lia|].
  cbv zeta. cbn [Zdigits2] in Hm2, Hex |- *.
  change (Z.pos (digits2_pos mz)) with (Zdigits2 (Z.pos mz)) in Hm2, Hex |- *.
  rewrite Hsm in Hm2, Hex |- *. rewrite Zdigits2_shift in Hm2, Hex |- * by lia.
  cbn [Zdigits2] in Hm2, Hex |- *. fold d in Hm2, Hex |- *.
  replace (d + (e - Z.min e f0) + Z.min e f0) with (d + e) in Hm2, Hex |- * by lia.
  fold f0 in Hm2, Hex |- *.
  set (n1 := Z.max 0 (f0 - Z.min e f0)) in *.
  assert (Hn1 : 0 <= n1 /\ Z.min e f0 + n1 = f0) by (unfold n1; lia).
  destruct Hn1 as [Hn1 He1]. rewrite He1.
  set (mz' := Z.pos M * 2 ^ (e - Z.min e f0)) in *.
  assert (Hp : 0 < 2 ^ (e - Z.min e f0)) by (apply Z.pow_pos_nonneg; lia).
  assert (Hpn : 0 < 2 ^ n1) by (apply Z.pow_pos_nonneg; lia).
  (* the mantissa before rounding has between 1 and 53 digits *)
  assert (Hlo : 2 ^ (d - 1 + (e - Z.min e f0)) <= mz').
  { rewrite Z.pow_add_r by lia. unfold mz'. nia. }
  assert (Hhi : mz' < 2 ^ (d + (e - Z.min e f0))).
  { rewrite Z.pow_add_r by lia. unfold mz'. nia. }
  assert (Hm1 : 1 <= mz' / 2 ^ n1 < 2 ^ 53).
  { split.
    - apply Z.div_le_lower_bound; [exact Hpn|].
      assert (2 ^ n1 <= 2 ^ (d - 1 + (e - Z.min e f0)))
        by (apply Z.pow_le_mono_r; unfold n1, f0, fx; lia).
      lia.
    - apply Z.div_lt_upper_bound; [exact Hpn|].
      rewrite <- Z.pow_add_r by lia.
      assert (2 ^ (d + (e - Z.min e f0)) <= 2 ^ (n1 + 53))
        by (apply Z.pow_le_mono_r; unfold n1, f0, fx; lia).
      lia. }
  assert (Hm2' : 1 <= m2 <= 2 ^ 53) by lia.
  destruct (Z_lt_le_dec m2 (2 ^ 53)) as [Hsmall|Hbig].
  - assert (Hd2 : Zdigits2 m2 <= 53) by (apply Zdigits2_le_of_lt; lia).
    assert (Hn2 : Z.max 0 (fx (Zdigits2 m2 + f0) - f0) = 0) by (unfold fx; lia).
    rewrite Hn2, Z.pow_0_r, Z.div_1_r, Z.add_0_r.
    destruct (Z.eqb_spec m2 0) as [|_]; [lia|].
    destruct (Z.leb_spec f0 971) as [_|]; [|lia]. eauto.
  - assert (Hm2eq : m2 = 2 ^ 53) by lia.
    assert (Hd2 : Zdigits2 m2 = 54) by (rewrite Hm2eq; reflexivity).
    assert (Hn2 : Z.max 0 (fx (Zdigits2 m2 + f0) - f0) = 1)
      by (rewrite Hd2; unfold fx; lia).
    rewrite Hn2, Hm2eq. change (2 ^ 53 / 2 ^ 1 =? 0) with false. cbv iota.
    destruct (Z.leb_spec (f0 + 1) 971) as [_|]; [|lia]. eauto.
Qed.

Lemma signed_nonneg x : signed false x -> nonneg x.
Proof. destruct x as [s|s| |s m e]; cbn; try tauto; now intros ->. Qed.

Lemma valid_exponent s m e :
  valid_binary (S754_finite s m e) = true ->
  bounded prec emax m e = true /\ -1074 <= e.
Proof.
  cbn [SpecFloat.valid_binary]. intros H. split; [exact H|].
  apply bounded_inv in H as [H _]. unfold fx in H. lia.
Qed.

Lemma SFleb_refl_finite s m e :
  SFleb (S754_finite s m e) (S754_finite s m e) = true.
Proof.
  unfold SFleb, SFcompare. rewrite Z.compare_refl.
  change (Pos.compare_cont Eq m m) with (m ?= m)%positive.
  rewrite Pos.compare_refl. now destruct s.
Qed.

(** Adding what is not negative does not give less. *)
Lemma SFadd_ge x y :
  nonneg x -> valid_binary x = true -> valid_binary y = true ->
  finite_or_zero y ->
  SFleb y (SFadd prec emax x y) = true.
Proof.
  intros Hx Hvx Hvy Hy.
  destruct x as [sx|[|]| |[|] mx ex]; try contradiction;
    destruct y as [sy|sy| |sy my ey]; try contradiction.
  - destruct sx, sy; reflexivity.
  - destruct sx; cbn [SFadd]; apply SFleb_refl_finite.
  - destruct sy; reflexivity.
  - destruct sy; reflexivity.
  - destruct sy; reflexivity.
  - apply valid_exponent in Hvx as [Hbx Hex]. apply valid_exponent in Hvy as [Hby Hey].
    cbn [SFadd]. cbv zeta.
    destruct (shl_align_value mx ex (Z.min ex ey)) as [_ HX].
    destruct (shl_align_value my ey (Z.min ex ey)) as [_ HY].
    rewrite (Z.min_r ex (Z.min ex ey)) in HX by lia.
    rewrite (Z.min_r ey (Z.min ex ey)) in HY by lia.
    set (X := fst (shl_align mx ex (Z.min ex ey))) in *.
    set (Y := fst (shl_align my ey (Z.min ex ey))) in *.
    cbn [cond_Zopp].
    assert (Hp : 0 < 2 ^ (ex - Z.min ex ey)) by (apply Z.pow_pos_nonneg; lia).
    destruct sy; cbn [cond_Zopp].
    + destruct (Z.pos X + - Z.pos Y) as [|p|p] eqn:HM; cbn [binary_normalize].
      * reflexivity.
      * pose proof (binary_round_signed false p (Z.min ex ey)) as Hs.
        destruct (binary_round prec emax false p (Z.min ex ey)) as [s|s| |s m e];
          cbn in Hs; try contradiction; subst; reflexivity.
      * apply binary_round_le; [lia|exact Hby|]. lia.
    + change (Z.pos X + Z.pos Y) with (Z.pos (X + Y)). cbn [binary_normalize].
      apply binary_round_ge; [lia|exact Hby|]. rewrite Pos2Z.inj_add. lia.
Qed.

(** Of two binary64 magnitudes the one with the smaller exponent is the
    smaller number. *)
Lemma magnitude_lt mx ex my ey :
  bounded prec emax mx ex = true -> bounded prec emax my ey = true ->
  -1074 <= ex -> ex < ey ->
  Z.pos mx < Z.pos my * 2 ^ (ey - ex).
Proof.
  intros Hbx Hby Hex Hlt.
  apply bounded_inv in Hbx as [Hx _]. apply bounded_inv in Hby as [Hy _].
  pose proof (digits2_pos_bounds mx) as [_ Hxhi].
  pose proof (digits2_pos_bounds my) as [Hylo _].
  set (dx := Z.pos (digits2_pos mx)) in *. set (dy := Z.pos (digits2_pos my)) in *.
  assert (Hdx : dx <= 53) by (unfold fx in Hx; lia).
  assert (Hdy : dy = 53) by (unfold fx in Hy; lia).
  rewrite Hdy in Hylo. change (2 ^ (53 - 1)) with (2 ^ 52) in Hylo.
  assert (2 ^ dx <= 2 ^ 53) by (apply Z.pow_le_mono_r; lia).
  assert (2 ^ 1 <= 2 ^ (ey - ex)) by (apply Z.pow_le_mono_r; lia).
  change (2 ^ 1) with 2 in *. change (2 ^ 53) with (2 * 2 ^ 52) in *. nia.
Qed.

(** Subtracting the smaller of two numbers from the larger gives what is
    not negative. *)
Lemma SFsub_nonneg x y :
  valid_binary x = true -> valid_binary y = true ->
  SFltb y x = true -> nonneg (SFsub prec emax x y).
Proof.
  intros Hvx Hvy Hlt.
  destruct x as [sx|sx| |sx mx ex]; destruct y as [sy|sy| |sy my ey];
    try discriminate Hlt.
  all: try (destruct sx; try discriminate Hlt; exact I).
  all: try (destruct sy; try discriminate Hlt; exact I).
  all: try (destruct sx, sy; try discriminate Hlt; exact I).
  - apply valid_exponent in Hvx as [Hbx Hex]. apply valid_exponent in Hvy as [Hby Hey].
    cbn [SFsub]. cbv zeta.
    destruct (shl_align_value mx ex (Z.min ex ey)) as [_ HX].
    destruct (shl_align_value my ey (Z.min ex ey)) as [_ HY].
    rewrite (Z.min_r ex (Z.min ex ey)) in HX by lia.
    rewrite (Z.min_r ey (Z.min ex ey)) in HY by lia.
    set (X := fst (shl_align mx ex (Z.min ex ey))) in *.
    set (Y := fst (shl_align my ey (Z.min ex ey))) in *.
    assert (HM : 0 <= cond_Zopp sx (Z.pos X) - cond_Zopp sy (Z.pos Y)).
    { unfold SFltb, SFcompare in Hlt.
      destruct sy, sx; cbn [cond_Zopp]; try discriminate; try lia.
      - destruct (Z.compare_spec ey ex) as [He|He|He]; try discriminate.
        + subst ey. rewrite Z.min_id, Z.sub_diag, Z.pow_0_r in HX, HY.
          destruct (Pos.compare_cont Eq my mx) eqn:Hc; try discriminate.
          change (Pos.compare_cont Eq my mx) with (my ?= mx)%positive in Hc.
          apply Pos.compare_gt_iff in Hc. lia.
        + rewrite Z.min_l in HX, HY by lia. rewrite Z.sub_diag, Z.pow_0_r in HX.
          pose proof (magnitude_lt mx ex my ey Hbx Hby Hex). lia.
      - destruct (Z.compare_spec ey ex) as [He|He|He]; try discriminate.
        + subst ey. rewrite Z.min_id, Z.sub_diag, Z.pow_0_r in HX, HY.
          change (Pos.compare_cont Eq my mx) with (my ?= mx)%positive in Hlt.
          destruct (Pos.compare_spec my mx); try discriminate. lia.
        + rewrite Z.min_r in HX, HY by lia. rewrite Z.sub_diag, Z.pow_0_r in HY.
          pose proof (magnitude_lt my ey mx ex Hby Hbx Hey). lia. }
    destruct (cond_Zopp sx (Z.pos X) - cond_Zopp sy (Z.pos Y)) as [|p|p];
      cbn [binary_normalize]; [exact I| |lia].
    apply signed_nonneg, binary_round_signed.
Qed.

(** The product and the quotient of numbers that are not negative. *)
Lemma SFmul_nonneg x y :
  nonneg x -> nonneg y -> finite_or_zero x -> finite_or_zero y ->
  nonneg (SFmul prec emax x y).
Proof.
  intros Hx Hy Hfx Hfy.
  destruct x as [sx|sx| |[|] mx ex]; try contradiction;
    destruct y as [sy|sy| |[|] my ey]; try contradiction; try exact I.
  cbn [SFmul xorb]. apply signed_nonneg, binary_round_aux_signed. lia.
Qed.

Lemma SFdiv_nonneg x my ey :
  nonneg x -> nonneg (SFdiv prec emax x (S754_finite false my ey)).
Proof.
  intros Hx. destruct x as [sx|[|]| |[|] mx ex]; try contradiction; try exact I.
  cbn [SFdiv xorb]. unfold SFdiv_core_binary. cbv zeta.
  match goal with
  | |- context [Z.div_eucl ?a ?b] =>
      pose proof (Z.div_eucl_eq a b); pose proof (Z.mod_pos_bound a b);
      assert (Ha : 0 <= a);
      [|assert (Hq : 0 <= a / b) by (apply Z.div_pos; lia);
        unfold Z.div in Hq; destruct (Z.div_eucl a b) as [q r]]
  end.
  - destruct (_ - _ - _) as [|p|p]; [lia| |lia].
    rewrite Z.shiftl_mul_pow2 by lia.
    assert (0 < 2 ^ Z.pos p) by (apply Z.pow_pos_nonneg; lia). nia.
  - apply signed_nonneg, binary_round_aux_signed. exact Hq.
Qed.

(** The double of an integer that is not negative. *)
Lemma Prim2SF_of_uint63 n :
  (to_Z n = 0 /\ Prim2SF (of_uint63 n) = S754_zero false)
  \/ (0 < to_Z n /\ exists m e, Prim2SF (of_uint63 n) = S754_finite false m e).
Proof.
  rewrite of_uint63_spec. pose proof (to_Z_bounded n) as [H0 Hhi].
  destruct (to_Z n) as [|p|p] eqn:Hp; [left; split; reflexivity| |lia].
  right. split; [lia|]. cbn [binary_normalize].
  apply binary_round_finite; [lia|].
  assert (Hd : Zdigits2 (Z.pos p) <= 63).
  { apply Zdigits2_le_of_lt; [lia|lia|]. exact Hhi. }
  cbn [Zdigits2] in Hd. lia.
Qed.

Lemma double_of_int_nonneg z :
  0 <= z ->
  nonneg (Prim2SF (double_of_int z)) /\ finite_or_zero (Prim2SF (double_of_int z)).
Proof.
  intros Hz. unfold double_of_int. destruct (Z.ltb_spec z 0); [lia|].
  destruct (Prim2SF_of_uint63 (of_Z z)) as [[_ ->]|[_ (m & e & ->)]];
    split; exact I.
Qed.

Lemma double_of_int_positive z :
  0 < z < 2 ^ 63 ->
  exists m e, Prim2SF (double_of_int z) = S754_finite false m e.
Proof.
  intros Hz. unfold double_of_int. destruct (Z.ltb_spec z 0); [lia|].
  destruct (Prim2SF_of_uint63 (of_Z z)) as [[H0 _]|[_ H1]]; [|exact H1].
  rewrite of_Z_spec, Z.mod_small in H0 by (change wB with (2 ^ 63); lia). lia.
Qed.

(** The lower bound of the weights, in double arithmetic: when max - min
    does not overflow, the value computed for a draw r >= 0 is not below
    min. *)
Lemma new_weight_ge_min (RAND_MAX : Z) (min max : double) (r : Z) :
  (min <? max)%float = true -> (max - min <? infinity)%float = true ->
  0 < RAND_MAX < 2 ^ 63 -> 0 <= r ->
  (min <=? new_weight RAND_MAX min max r)%float = true.
Proof.
  intros Hlt Hfin HR Hr. unfold new_weight.
  rewrite FloatAxioms.leb_spec, FloatAxioms.add_spec, FloatAxioms.div_spec,
    FloatAxioms.mul_spec.
  rewrite FloatAxioms.ltb_spec in Hlt, Hfin.
  rewrite FloatAxioms.sub_spec in Hfin |- *.
  pose proof (Prim2SF_valid min) as Hvmin. pose proof (Prim2SF_valid max) as Hvmax.
  pose proof (SFsub_nonneg _ _ Hvmax Hvmin Hlt) as Hd.
  destruct (double_of_int_nonneg r Hr) as [Hr1 Hr2].
  destruct (double_of_int_positive RAND_MAX HR) as (mR & eR & HRM). rewrite HRM.
  assert (Hminf : finite_or_zero (Prim2SF min)).
  { unfold SF64sub in Hfin.
    destruct (Prim2SF min) as [s|[|]| |s m e]; try exact I; try discriminate Hlt;
      destruct (Prim2SF max) as [s'|[|]| |s' m' e'];
      try discriminate Hlt; discriminate Hfin. }
  assert (Hdf : finite_or_zero (SF64sub (Prim2SF max) (Prim2SF min))).
  { unfold SF64sub in *.
    destruct (SFsub prec emax (Prim2SF max) (Prim2SF min)) as [s|[|]| |s m e];
      try contradiction; try exact I. discriminate Hfin. }
  apply SFadd_ge; [|rewrite <- HRM, <- FloatAxioms.sub_spec, <- FloatAxioms.mul_spec,
                      <- FloatAxioms.div_spec; apply Prim2SF_valid
                  |exact Hvmin|exact Hminf].
  apply SFdiv_nonneg, SFmul_nonneg; assumption.
Qed.

(** The loop gives connection k the weight computed from the k-th draw
    after the calls already made. *)
Lemma randomize_all_spec RAND_MAX min max cs g :
  randomize_all RAND_MAX min max cs g
  = (imap (fun k c => set_weight c (new_weight RAND_MAX min max
                                      (draws g (calls g + k)%nat))) cs,
     {| draws := draws g; calls := (calls g + length cs)%nat |}).
Proof.
  revert g. induction cs as [|c cs IH]; intros g.
  - cbn. destruct g as [d n]. cbn. now rewrite Nat.add_0_r.
  - cbn [randomize_all rand]. rewrite IH. cbn [draws calls length imap].
    rewrite Nat.add_0_r. f_equal.
    + f_equal. apply imap_ext. intros k x _. cbn.
      now rewrite Nat.add_succ_r.
    + f_equal. lia.
Qed.

(** C3 (as amended).  If min >= max, randomizeW returns -1 and changes
    nothing.  If min < max it returns 0 and gives the k-th connection the
    double (max - min) * r / RAND_MAX + min, r being the k-th value rand()
    returns from this call on; everything but the weights is unchanged.
    When max - min does not overflow and the values of rand() are not
    negative, none of the new weights is below min.  There is no such bound
    by max: a weight can be max, and can be above it by the rounding of the
    sum. *)
Theorem randomizeW_spec (RAND_MAX : Z) (min max : double) (a : ANN) (g : RandSource) :
  ((max <=? min)%float = true -> randomizeW RAND_MAX min max a g = (-1, a, g))
  /\ ((min <? max)%float = true ->
      exists cs,
        randomizeW RAND_MAX min max a g
        = (0, set_connections a cs,
           {| draws := draws g;
              calls := (calls g + length (connections a))%nat |})
        /\ length cs = length (connections a)
        /\ (forall (k : nat) c, connections a !! k = Some c ->
              cs !! k = Some {| source_neuron_idx := source_neuron_idx c;
                                target_neuron_idx := target_neuron_idx c;
                                weight := new_weight RAND_MAX min max
                                            (draws g (calls g + k)%nat);
                                data := data c |})
        /\ ((max - min <? infinity)%float = true ->
            0 < RAND_MAX < 2 ^ 63 ->
            (forall k : nat, (k < length (connections a))%nat ->
               0 <= draws g (calls g + k)%nat) ->
            Forall (fun c => (min <=? weight c)%float = true) cs)).
Proof.
  split.
  - intros Hge. unfold randomizeW. now rewrite Hge.
  - intros Hlt. unfold randomizeW. rewrite (ltb_leb_false _ _ Hlt).
    rewrite randomize_all_spec. eexists. split; [reflexivity|].
    split; [apply length_imap|]. split.
    + intros k c Hc. rewrite list_lookup_imap, Hc. reflexivity.
    + intros Hfin HR Hdraws. apply Forall_lookup_2. intros k c Hk.
      rewrite list_lookup_imap in Hk.
      destruct (connections a !! k) as [c0|] eqn:Hc0; [|discriminate Hk].
      injection Hk as <-. cbn [set_weight weight].
      apply new_weight_ge_min; [exact Hlt|exact Hfin|exact HR|].
      apply Hdraws. eapply lookup_lt_Some. exact Hc0.
Qed.

(** C3 (counterexample).  With RAND_MAX = 2147483647 a call of rand() that
    returns RAND_MAX gives the connection, for the bounds 0 < 1, the weight
    1.0, which is max, and for the bounds -0.1 < 0.3 the weight
    0.30000000000000004, which is above max. *)
Lemma randomizeW_exceeds_max :
  exists a a1 g1 a2 g2,
    ANN_new [1; 1] [0] [1] [0.5%float] = inr a
    /\ (0 <? 1)%float = true
    /\ randomizeW 2147483647 0 1 a {| draws := fun _ => 2147483647; calls := 0 |}
       = (0, a1, g1)
    /\ map weight (connections a1) = [1%float]
    /\ (-0.1 <? 0.3)%float = true
    /\ randomizeW 2147483647 (-0.1) 0.3 a
         {| draws := fun _ => 2147483647; calls := 0 |}
       = (0, a2, g2)
    /\ map weight (connections a2) = [0.30000000000000004%float]
    /\ (0.3 <? 0.30000000000000004)%float = true.
Proof.
  do 5 eexists. split; [vm_compute; reflexivity|].
  split; [reflexivity|]. split; [vm_compute; reflexivity|].
  split; [reflexivity|]. split; [reflexivity|].
  split; [vm_compute; reflexivity|]. split; reflexivity.
Qed.

(** ** The text of doubles, on examples *)

Lemma put_double_examples :
  map put_double [0; 1; -100; 0.5; 0.1; 1234567; 0.0001; 0.00001; 1e21;
                  999999.5; 1.0000000000000002]%float
  = ["0"; "1"; "-100"; "0.5"; "0.1"; "1.23457e+06"; "0.0001"; "1e-05"; "1e+21";
     "1e+06"; "1"]%string.
Proof. vm_compute. reflexivity. Qed.

Lemma get_double_examples :
  map get_double ["0"; "1"; "-100"; "0.5"; "0.1"; "1.23457e+06"; "1e-05";
                  "inf"; "nan"; "1e"; "1.8e308"]%string
  = [Some 0; Some 1; Some (-100); Some 0.5; Some 0.1; Some 1234570; Some 1e-05;
     None; None; None; None]%float.
Proof. vm_compute. reflexivity. Qed.

(** ** Persistence *)

(** One extraction further into the stream. *)
Ltac read_step := cbn [mbind option_bind fst snd extract app].

Lemma get_put_int z : get_int (put_int z) = Some z.
Proof.
  unfold get_int, put_int. rewrite NilZero.isi.
  - cbn. now rewrite DecimalZ.of_to.
  - destruct z as [|p|p]; cbn; try discriminate.
    intros [= H]. now apply DecimalPos.Unsigned.to_uint_nonnil in H.
  - destruct z as [|p|p]; cbn; try discriminate.
    intros [= H]. now apply DecimalPos.Unsigned.to_uint_nonnil in H.
Qed.

Lemma get_put_ushort z : is_ushort z -> get_ushort (put_int z) = Some z.
Proof.
  intros [H0 H1]. unfold get_ushort. rewrite get_put_int. cbn.
  destruct (Z.leb_spec (- USHRT_MAX) z); [|unfold USHRT_MAX in *; lia].
  destruct (Z.leb_spec z USHRT_MAX); [|lia].
  cbn. unfold to_ushort. rewrite Z.mod_small by (unfold USHRT_MAX in *; lia).
  reflexivity.
Qed.

Lemma get_ushort_examples :
  map get_ushort ["0"; "65535"; "65536"; "-1"; "-65535"; "-65536"; "x"]%string
  = [Some 0; Some 65535; None; Some 65535; Some 1; None; None].
Proof. vm_compute. reflexivity. Qed.

Lemma get_put_cint z : is_int z -> get_cint (put_int z) = Some z.
Proof.
  intros [H0 H1]. unfold get_cint. rewrite get_put_int. cbn.
  destruct (Z.leb_spec INT_MIN z); [|lia]. destruct (Z.leb_spec z INT_MAX); [|lia].
  reflexivity.
Qed.

Lemma NeuronType_code_inv t : NeuronType_of_code (NeuronType_code t) = Some t.
Proof. now destruct t. Qed.

Lemma NeuronType_code_int t : is_int (NeuronType_code t).
Proof. destruct t; unfold is_int, INT_MIN, INT_MAX; cbn; lia. Qed.

Lemma read_neurons_written (ns : list Neuron) (rest : File) :
  read_neurons (length ns)
    (map (fun nr => put_int (NeuronType_code (type nr))) ns ++ rest)
  = Some (map (fun nr => new_Neuron (type nr)) ns, rest).
Proof.
  induction ns as [|nr ns IH]; [reflexivity|].
  cbn [length map app read_neurons extract].
  rewrite get_put_cint by apply NeuronType_code_int. read_step.
  rewrite NeuronType_code_inv. cbn [mbind option_bind]. rewrite IH. reflexivity.
Qed.

Section Roundtrip.

Variable show_double : double -> string.
Variable read_double : string -> option double.

Lemma read_connections_written (cs : list Connection) (rest : File) :
  Forall edge_typed cs ->
  Forall (fun c => is_Some (read_double (show_double (weight c)))) cs ->
  exists cs',
    read_connections read_double (length cs)
      (flat_map (fun c => [put_int (source_neuron_idx c);
                           put_int (target_neuron_idx c);
                           show_double (weight c)]) cs ++ rest)
    = Some (cs', rest)
    /\ map Some cs' = map (reread show_double read_double) cs.
Proof.
  intros Hty Hw. induction cs as [|c cs IH].
  - exists []. split; reflexivity.
  - apply Forall_cons in Hty as [[Hs Ht] Hty]. apply Forall_cons in Hw as [[w Hc] Hw].
    destruct (IH Hty Hw) as (cs' & Hcs' & Hmap).
    exists ({| source_neuron_idx := source_neuron_idx c;
               target_neuron_idx := target_neuron_idx c;
               weight := w; data := 0 |} :: cs').
    cbn [length flat_map app read_connections extract].
    rewrite !get_put_ushort by assumption. read_step.
    rewrite get_put_ushort by assumption. read_step.
    rewrite Hc. read_step. rewrite Hcs'.
    read_step. split.
    + unfold new_Connection, to_ushort. destruct Hs, Ht.
      unfold USHRT_MAX in *. now rewrite !Z.mod_small by lia.
    + cbn [map]. rewrite Hmap. unfold reread at 2. now rewrite Hc.
Qed.

Lemma reread_all (cs cs' : list Connection) :
  map Some cs' = map (reread show_double read_double) cs ->
  map endpoints cs' = map endpoints cs
  /\ map (fun c => Some (weight c)) cs'
     = map (fun c => read_double (show_double (weight c))) cs.
Proof.
  revert cs'. induction cs as [|c cs IH]; intros [|c' cs']; cbn [map];
    try discriminate; [split; reflexivity|].
  intros [= Hc Hcs]. destruct (IH cs' Hcs) as [IH1 IH2].
  unfold reread in Hc.
  destruct (read_double (show_double (weight c))) as [w|]; [|discriminate].
  injection Hc as ->. cbn. now rewrite IH1, IH2.
Qed.

(** C1 (as amended).  For a network whose recorded counts are the lengths of
    its two vectors and whose weights can be read back from their text,
    serialize followed by deserialize into any network gives a network with
    the same six header fields, the same sequence of neuron types and the
    same sequence of connection endpoints; each weight is what the reading
    stream makes of the text the writing stream printed for it, and so is
    the weight itself exactly when that text reads back to it. *)
Theorem serialize_deserialize (a fresh : ANN) :
  header_typed a -> Forall edge_typed (connections a) ->
  neurons_allocated a ->
  total_num_connections a = Z.of_nat (length (connections a)) ->
  Forall (fun c => is_Some (read_double (show_double (weight c)))) (connections a) ->
  exists f a',
    serialize show_double a true = (0, Some f)
    /\ deserialize read_double fresh (Some f) = Some (0, a')
    /\ (num_input a', num_hidden a', num_output a', num_iPLUSh a',
        total_num_neurons a', total_num_connections a')
       = (num_input a, num_hidden a, num_output a, num_iPLUSh a,
          total_num_neurons a, total_num_connections a)
    /\ map type (neurons a') = map type (neurons a)
    /\ map endpoints (connections a') = map endpoints (connections a)
    /\ map (fun c => Some (weight c)) (connections a')
       = map (fun c => read_double (show_double (weight c))) (connections a)
    /\ (Forall (fun c => read_double (show_double (weight c)) = Some (weight c))
               (connections a) ->
        map weight (connections a') = map weight (connections a)).
Proof.
  intros (HI & HH & HO & Hih & Htot & Hcnt) Hty Hall Hrec Hw.
  unfold neurons_allocated in Hall.
  destruct (read_connections_written (connections a) [] Hty Hw) as (cs' & Hcs' & Hmap).
  rewrite app_nil_r in Hcs'.
  exists (serialize_lines show_double a).
  exists {| num_input := num_input a; num_hidden := num_hidden a;
            num_output := num_output a; num_iPLUSh := num_iPLUSh a;
            total_num_neurons := total_num_neurons a;
            neurons := map (fun nr => new_Neuron (type nr)) (neurons a);
            total_num_connections := total_num_connections a;
            connections := cs' |}.
  split; [reflexivity|]. split.
  - unfold deserialize, serialize_lines. cbn [app extract].
    rewrite !get_put_ushort by assumption. read_step.
    rewrite get_put_ushort by assumption. read_step.
    rewrite get_put_ushort by assumption. read_step.
    rewrite get_put_ushort by assumption. read_step.
    rewrite get_put_ushort by assumption. read_step.
    rewrite <- Hall, Nat2Z.id, read_neurons_written.
    read_step.
    rewrite get_put_ushort by assumption. read_step.
    rewrite Hrec, Nat2Z.id, Hcs'. read_step.
    rewrite Hall. reflexivity.
  - cbn [num_input num_hidden num_output num_iPLUSh total_num_neurons
         total_num_connections neurons connections].
    split; [reflexivity|]. split; [now rewrite map_map|].
    pose proof (reread_all _ _ Hmap) as Hend.
    destruct Hend as [Hend Hws]. split; [exact Hend|]. split; [exact Hws|].
    intros Hstable.
    assert (Hs : map (fun c => Some (weight c)) cs'
                 = map (fun c => Some (weight c)) (connections a)).
    { rewrite Hws. apply map_ext_in. intros c Hc.
      rewrite Forall_forall in Hstable. apply Hstable, list_elem_of_In, Hc. }
    rewrite <- !(map_map weight Some) in Hs.
    revert Hs. generalize (map weight cs') (map weight (connections a)).
    induction l as [|x l IH]; intros [|y l']; cbn; try discriminate; [reflexivity|].
    intros [= -> H]. f_equal. now apply IH.
Qed.

End Roundtrip.

(** ** What every reachable network satisfies *)

Lemma for_loop_invariant {S : Type} (P : S -> Prop) (body : Z -> S -> option S) ns s s' :
  (forall n s s', P s -> body n s = Some s' -> P s') ->
  P s -> for_loop ns body s = Some s' -> P s'.
Proof.
  intros Hbody. revert s. induction ns as [|n ns IH]; intros s Hs Hloop.
  - injection Hloop as <-. exact Hs.
  - rewrite for_loop_cons in Hloop.
    destruct (body n s) as [s1|] eqn:Hb; [|discriminate].
    exact (IH s1 (Hbody n s s1 Hs Hb) Hloop).
Qed.

Lemma to_ushort_typed z : is_ushort (to_ushort z).
Proof.
  unfold is_ushort, to_ushort, USHRT_MAX.
  pose proof (Z.mod_pos_bound z 65536). lia.
Qed.

Lemma new_Connection_typed s t w : edge_typed (new_Connection s t w).
Proof. split; apply to_ushort_typed. Qed.

Lemma push_edge_typed s t st st' :
  Forall edge_typed st.2 -> push_edge s t st = Some st' -> Forall edge_typed st'.2.
Proof.
  destruct st as [c cs]. unfold push_edge. destruct (c + 1 >? INT_MAX); [discriminate|].
  intros Hcs [= <-]. cbn. apply Forall_app. split; [exact Hcs|].
  constructor; [apply new_Connection_typed|constructor].
Qed.

Lemma push_edges_typed ss ts st st' :
  Forall edge_typed st.2 ->
  for_loop ss (fun s => for_loop ts (fun t => push_edge s t)) st = Some st' ->
  Forall edge_typed st'.2.
Proof.
  apply (for_loop_invariant (fun st => Forall edge_typed st.2)).
  intros s st1 st2. apply (for_loop_invariant (fun st => Forall edge_typed st.2)).
  intros t. apply push_edge_typed.
Qed.

Lemma feed_Some cs ns r :
  feed cs ns = Some r ->
  length r.2 = length ns /\ map endpoints r.1 = map endpoints cs.
Proof.
  revert ns r. induction cs as [|c cs IH]; intros ns r Hfeed.
  - injection Hfeed as <-. split; reflexivity.
  - rewrite feed_cons in Hfeed.
    destruct (at_index ns (source_neuron_idx c)) as [source|]; [|discriminate].
    destruct (at_index ns (target_neuron_idx c)) as [target|]; [|discriminate].
    cbn [mbind option_bind] in Hfeed.
    destruct (feed cs _) as [r0|] eqn:Hr0; [|discriminate].
    injection Hfeed as <-. destruct (IH _ _ Hr0) as [Hlen Hend].
    rewrite length_alter in Hlen. cbn. split; [exact Hlen|]. now rewrite Hend.
Qed.

Lemma update_loop_length {A : Type} (F : Z -> A -> A) ns (v v' : list A) :
  for_loop ns (update_at F) v = Some v' -> length v' = length v.
Proof.
  apply (for_loop_invariant (fun w => length w = length v)); [|reflexivity].
  intros n w w' Hw. unfold update_at.
  destruct (at_index w n); [|discriminate]. intros [= <-].
  now rewrite length_insert.
Qed.

Lemma edge_typed_endpoints cs cs' :
  map endpoints cs' = map endpoints cs ->
  Forall edge_typed cs -> Forall edge_typed cs'.
Proof.
  revert cs'. induction cs as [|c cs IH]; intros [|c' cs']; cbn; try discriminate.
  - constructor.
  - intros [= Hs Ht Hcs] Hall. apply Forall_cons in Hall as [[H1 H2] Hall].
    constructor; [|exact (IH cs' Hcs Hall)].
    split; [now rewrite Hs|now rewrite Ht].
Qed.

(** No method changes the neuron counts or the size of the neuron vector,
    and none stores an index or a count that is not an unsigned short. *)
Lemma method_call_preserves exp RAND_MAX a a' :
  method_call exp RAND_MAX a a' ->
  counts_of a' = counts_of a
  /\ length (neurons a') = length (neurons a)
  /\ (is_ushort (total_num_connections a) -> is_ushort (total_num_connections a'))
  /\ (Forall edge_typed (connections a) -> Forall edge_typed (connections a')).
Proof.
  intros [b Hcall|min max g code b g' Hcall|inputs code b Hcall|b Hcall].
  - unfold fullyConnectFF in Hcall.
    destruct (_ >? INT_MAX); [discriminate|].
    destruct (for_loop _ _ (0, [])) as [st1|] eqn:H1; [|discriminate].
    cbn [mbind option_bind] in Hcall.
    destruct (for_loop _ _ st1) as [st2|] eqn:H2; [|discriminate].
    injection Hcall as <-.
    split; [reflexivity|]. split; [reflexivity|]. split.
    + intros _. apply to_ushort_typed.
    + intros _. cbn. eapply push_edges_typed; [|exact H2].
      eapply push_edges_typed; [|exact H1]. constructor.
  - unfold randomizeW in Hcall. destruct (max <=? min)%float.
    + injection Hcall as _ <- _. auto.
    + rewrite randomize_all_spec in Hcall. injection Hcall as _ <- _.
      split; [reflexivity|]. split; [reflexivity|]. split; [auto|].
      cbn. apply edge_typed_endpoints.
      apply list_eq. intros k.
      change (map endpoints ?l) with (endpoints <$> l).
      rewrite !list_lookup_fmap, list_lookup_imap.
      now destruct (connections a !! k).
  - unfold setInput in Hcall. destruct (negb _).
    + injection Hcall as _ <-. auto.
    + destruct (for_loop _ _ _) as [ns|] eqn:Hns; [|discriminate].
      injection Hcall as _ <-.
      split; [reflexivity|]. split; [|auto].
      exact (update_loop_length _ _ _ _ Hns).
  - unfold activate in Hcall.
    destruct (feed _ _) as [r|] eqn:Hr; [|discriminate].
    cbn [mbind option_bind] in Hcall.
    destruct (for_loop _ _ _) as [ns|] eqn:Hns; [|discriminate].
    injection Hcall as <-. destruct (feed_Some _ _ _ Hr) as [Hlen Hend].
    split; [reflexivity|]. split; [|split; [auto|]].
    + cbn. rewrite <- Hlen.
      exact (update_loop_length (fun _ => fired exp) _ _ _ Hns).
    + cbn. exact (edge_typed_endpoints _ _ Hend).
Qed.

Lemma add_connections_typed cs total c_src c_trg c_wts acc r :
  Forall edge_typed acc ->
  add_connections cs total c_src c_trg c_wts acc = inr r ->
  Forall edge_typed r /\ length r = (length acc + length cs)%nat.
Proof.
  revert acc. induction cs as [|c cs IH]; intros acc Hacc Hadd.
  - injection Hadd as <-. split; [exact Hacc|cbn; lia].
  - cbn [add_connections] in Hadd. destruct (_ || _); [discriminate|].
    apply IH in Hadd as [Hr Hlen].
    + split; [exact Hr|]. rewrite Hlen, length_app. cbn. lia.
    + apply Forall_app. split; [exact Hacc|].
      constructor; [apply new_Connection_typed|constructor].
Qed.

Lemma extract_ushort f r : extract get_ushort f = Some r -> is_ushort r.1.
Proof.
  destruct f as [|tok f]; [discriminate|]. cbn. unfold get_ushort.
  destruct (get_int tok) as [z|]; [|discriminate]. cbn.
  destruct (_ && _); [|discriminate].
  intros [= <-]. cbn. unfold is_ushort, to_ushort, USHRT_MAX.
  pose proof (Z.mod_pos_bound z 65536 eq_refl). lia.
Qed.

Lemma read_neurons_length n f r : read_neurons n f = Some r -> length r.1 = n.
Proof.
  revert f r. induction n as [|n IH]; intros f r Hr.
  - now injection Hr as <-.
  - cbn [read_neurons] in Hr.
    destruct (extract get_cint f) as [c|]; [|discriminate].
    cbn [mbind option_bind] in Hr.
    destruct (NeuronType_of_code c.1); [|discriminate].
    cbn [mbind option_bind] in Hr.
    destruct (read_neurons n c.2) as [rs|] eqn:Hrs; [|discriminate].
    injection Hr as <-. cbn. f_equal. exact (IH _ _ Hrs).
Qed.

Lemma read_connections_typed read_double n f r :
  read_connections read_double n f = Some r -> Forall edge_typed r.1.
Proof.
  revert f r. induction n as [|n IH]; intros f r Hr.
  - injection Hr as <-. constructor.
  - cbn [read_connections] in Hr.
    destruct (extract get_ushort f) as [s|]; [|discriminate].
    cbn [mbind option_bind] in Hr.
    destruct (extract get_ushort s.2) as [t|]; [|discriminate].
    cbn [mbind option_bind] in Hr.
    destruct (extract read_double t.2) as [w|]; [|discriminate].
    cbn [mbind option_bind] in Hr.
    destruct (read_connections read_double n w.2) as [rs|] eqn:Hrs; [|discriminate].
    injection Hr as <-. cbn.
    constructor; [apply new_Connection_typed|exact (IH _ _ Hrs)].
Qed.

Lemma loaded_well_typed read_double a : loaded read_double a -> well_typed a.
Proof.
  intros [counts c_src c_trg c_wts b Hnew|a0 f b Hfile].
  - unfold ANN_new in Hnew.
    destruct (negb _); [discriminate|]. destruct (_ || _); [discriminate|].
    match type of Hnew with
    | match ?m with _ => _ end = _ => destruct m as [e|cs] eqn:Hcs; [discriminate|]
    end.
    injection Hnew as <-. split; [|split].
    + repeat split; apply to_ushort_typed.
    + cbn. destruct (0 <? _).
      * eapply add_connections_typed; [|exact Hcs]. constructor.
      * injection Hcs as <-. constructor.
    + unfold neurons_allocated. cbn. rewrite length_map, length_indices.
      pose proof (to_ushort_typed
                    (to_ushort
                       (to_ushort (nth 0 counts 0)
                        + to_ushort (if (length counts =? 2)%nat then 0
                                     else nth 1 counts 0))
                     + to_ushort (if (length counts =? 2)%nat
                                  then nth 1 counts 0 else nth 2 counts 0)))
        as [H0 _].
      lia.
  - cbn in Hfile.
    destruct (extract get_ushort f) as [n_in|] eqn:H1; [|discriminate].
    cbn [mbind option_bind] in Hfile.
    destruct (extract get_ushort n_in.2) as [n_hid|] eqn:H2; [|discriminate].
    cbn [mbind option_bind] in Hfile.
    destruct (extract get_ushort n_hid.2) as [n_out|] eqn:H3; [|discriminate].
    cbn [mbind option_bind] in Hfile.
    destruct (extract get_ushort n_out.2) as [n_ih|] eqn:H4; [|discriminate].
    cbn [mbind option_bind] in Hfile.
    destruct (extract get_ushort n_ih.2) as [total|] eqn:H5; [|discriminate].
    cbn [mbind option_bind] in Hfile.
    destruct (read_neurons _ total.2) as [ns|] eqn:H6; [|discriminate].
    cbn [mbind option_bind] in Hfile.
    destruct (extract get_ushort ns.2) as [n_conn|] eqn:H7; [|discriminate].
    cbn [mbind option_bind] in Hfile.
    destruct (read_connections _ _ n_conn.2) as [cs|] eqn:H8; [|discriminate].
    injection Hfile as <-.
    apply extract_ushort in H1, H2, H3, H4, H5, H7.
    split; [|split].
    + repeat split; cbn; first [apply H1|apply H2|apply H3|apply H4|apply H5|apply H7].
    + cbn. exact (read_connections_typed _ _ _ _ H8).
    + unfold neurons_allocated. cbn. rewrite (read_neurons_length _ _ _ H6).
      destruct H5. lia.
Qed.

(** X20.  Whatever the calls made, the header numbers of a network are
    unsigned shorts, so are the indices stored in its connections, and its
    neuron vector has total_num_neurons elements. *)
Lemma reachable_well_typed exp RAND_MAX read_double a :
  reachable exp RAND_MAX read_double a -> well_typed a.
Proof.
  intros (a0 & Hload & Hcalls). apply loaded_well_typed in Hload.
  induction Hcalls as [a0|a0 a1 a2 Hcall _ IH]; [exact Hload|]. apply IH.
  destruct Hload as ((HI & HH & HO & Hih & Htot & Hcnt) & Hedges & Hall).
  destruct (method_call_preserves _ _ _ _ Hcall) as (Hc & Hlen & Hcnt' & Hedges').
  unfold counts_of in Hc. injection Hc as H1 H2 H3 H4 H5.
  unfold well_typed, header_typed, neurons_allocated in *.
  rewrite Hlen, H1, H2, H3, H4, H5. auto 10.
Qed.

(** The constructor lays the neurons out as the data model says when the
    counts are not negative and add up to 65535 at most. *)
Lemma ANN_new_layout counts c_src c_trg c_wts a :
  Forall (fun n => 0 <= n) counts -> foldr Z.add 0 counts <= USHRT_MAX ->
  ANN_new counts c_src c_trg c_wts = inr a -> layout a.
Proof.
  intros Hpos Hsum Hnew. unfold ANN_new in Hnew.
  destruct counts as [|x [|y [|z [|w l]]]];
    cbn [length Nat.eqb negb orb nth] in Hnew; try discriminate.
  all: destruct (_ || _); [discriminate|].
  all: match type of Hnew with
       | match ?m with _ => _ end = _ => destruct m as [e|cs]; [discriminate|]
       end.
  all: injection Hnew as <-.
  all: repeat match goal with
              | H : Forall _ (_ :: _) |- _ => apply Forall_cons in H as [? H]
              end.
  all: unfold layout, USHRT_MAX in *; cbn in Hsum.
  all: cbn [num_input num_hidden num_output num_iPLUSh total_num_neurons].
  all: unfold to_ushort; rewrite ?(Z.mod_small 0), ?(Z.mod_small x),
         ?(Z.mod_small y), ?(Z.mod_small z) by lia.
  all: rewrite ?(Z.mod_small (x + 0)), ?(Z.mod_small (x + y)) by lia.
  all: rewrite ?(Z.mod_small (x + 0 + y)), ?(Z.mod_small (x + y + z)) by lia.
  all: lia.
Qed.

Lemma method_calls_layout exp RAND_MAX a a' :
  rtc (method_call exp RAND_MAX) a a' ->
  layout a /\ neurons_allocated a -> layout a' /\ neurons_allocated a'.
Proof.
  induction 1 as [a|a a1 a2 Hcall _ IH]; [auto|]. intros [Hlay Hall]. apply IH.
  destruct (method_call_preserves _ _ _ _ Hcall) as (Hc & Hlen & _).
  unfold counts_of in Hc. injection Hc as H1 H2 H3 H4 H5.
  unfold layout, neurons_allocated in *. rewrite Hlen, H1, H2, H3, H4, H5. auto.
Qed.

(** X22.  Along the calls of a program: a network built by the constructor
    from counts that add up to 65535 at most, then changed by any calls of
    fullyConnectFF, randomizeW, setInput and activate, returns num_output
    values from getOutput. *)
Lemma getOutput_after_calls exp RAND_MAX counts c_src c_trg c_wts a0 a :
  Forall (fun n => 0 <= n) counts -> foldr Z.add 0 counts <= USHRT_MAX ->
  ANN_new counts c_src c_trg c_wts = inr a0 ->
  rtc (method_call exp RAND_MAX) a0 a ->
  exists out, getOutput a = Some out /\ Z.of_nat (length out) = num_output a.
Proof.
  intros Hpos Hsum Hnew Hcalls.
  assert (Hload : loaded get_double a0) by (econstructor; exact Hnew).
  destruct (loaded_well_typed _ _ Hload) as (_ & _ & Hall).
  destruct (method_calls_layout _ _ _ _ Hcalls) as [Hlay Hall'].
  { split; [exact (ANN_new_layout _ _ _ _ _ Hpos Hsum Hnew)|exact Hall]. }
  destruct Hlay as (HI & HH & HO & Hih & Htot & _).
  unfold neurons_allocated in Hall'.
  rewrite getOutput_slice by lia. eexists. split; [reflexivity|].
  rewrite length_map, length_take, length_drop. lia.
Qed.

(** *** The sums between two passes *)

Lemma rested_intro (a : ANN) :
  (forall (k : nat) x, neurons a !! k = Some x -> num_input a <= Z.of_nat k ->
                       input_sum x = 0%float) ->
  rested a.
Proof.
  intros H. unfold rested. apply Forall_lookup. intros i x Hx.
  rewrite lookup_drop in Hx. apply (H _ _ Hx). lia.
Qed.

Lemma fresh_rested (a : ANN) :
  Forall (fun nr => input_sum nr = 0%float) (neurons a) -> rested a.
Proof. intros H. unfold rested. now apply Forall_drop. Qed.

Lemma read_neurons_fresh n f r :
  read_neurons n f = Some r -> Forall (fun nr => input_sum nr = 0%float) r.1.
Proof.
  revert f r. induction n as [|n IH]; intros f r Hr.
  - injection Hr as <-. constructor.
  - cbn [read_neurons] in Hr.
    destruct (extract get_cint f) as [c|]; [|discriminate].
    cbn [mbind option_bind] in Hr.
    destruct (NeuronType_of_code c.1); [|discriminate].
    cbn [mbind option_bind] in Hr.
    destruct (read_neurons n c.2) as [rs|] eqn:Hrs; [|discriminate].
    injection Hr as <-. cbn. constructor; [reflexivity|exact (IH _ _ Hrs)].
Qed.

Lemma loaded_rested read_double a : loaded read_double a -> rested a.
Proof.
  intros [counts c_src c_trg c_wts b Hnew|a0 f b Hfile]; apply fresh_rested.
  - unfold ANN_new in Hnew.
    destruct (negb _); [discriminate|]. destruct (_ || _); [discriminate|].
    match type of Hnew with
    | match ?m with _ => _ end = _ => destruct m as [e|cs]; [discriminate|]
    end.
    injection Hnew as <-. cbn. apply Forall_forall. intros nr Hnr.
    apply list_elem_of_In, in_map_iff in Hnr as (n & <- & _). reflexivity.
  - cbn in Hfile.
    repeat match type of Hfile with
           | (?m ≫= _) = _ =>
               let H := fresh "H" in
               destruct m eqn:H; [cbn [mbind option_bind] in Hfile|discriminate]
           end.
    injection Hfile as <-. cbn. eapply read_neurons_fresh. eassumption.
Qed.

(** activate leaves every sum from num_input on at zero. *)
Lemma activate_rested exp a a' :
  0 <= num_input a -> neurons_allocated a -> activate exp a = Some a' -> rested a'.
Proof.
  intros HI Hall Hact. unfold neurons_allocated in Hall. unfold activate in Hact.
  destruct (feed _ _) as [r|] eqn:Hr; [|discriminate].
  cbn [mbind option_bind] in Hact. destruct (feed_Some _ _ _ Hr) as [Hlen _].
  destruct (fire_loop exp (num_input a) r.2 HI) as (ns & Hns & _ & Hk).
  rewrite <- Hall, <- Hlen, Hns in Hact. injection Hact as <-.
  apply rested_intro. cbn. intros k x Hx Hge.
  destruct (lookup_lt_is_Some_2 r.2 k) as [y Hy].
  { apply lookup_lt_Some in Hx. destruct (fire_loop exp (num_input a) r.2 HI)
      as (ns' & Hns' & Hlen' & _). congruence. }
  rewrite (Hk k y Hy), decide_True in Hx by exact Hge. now injection Hx as <-.
Qed.

Lemma setInput_sums inputs a code a' :
  setInput inputs a = Some (code, a') ->
  map input_sum (neurons a') = map input_sum (neurons a).
Proof.
  unfold setInput. destruct (negb _); [now intros [= _ <-]|].
  destruct (for_loop _ _ _) as [ns|] eqn:Hns; [|discriminate].
  intros [= _ <-]. cbn. revert Hns.
  apply (for_loop_invariant
           (fun w => map input_sum w = map input_sum (neurons a))); [|reflexivity].
  intros n w w' Hw.
  destruct (at_index w n) as [nr|] eqn:Hnr; [|discriminate].
  intros [= <-]. rewrite <- Hw.
  change (map input_sum ?l) with (input_sum <$> l).
  rewrite list_fmap_insert. apply list_insert_id.
  apply at_index_inv in Hnr as [_ Hnr]. now rewrite list_lookup_fmap, Hnr.
Qed.

Lemma method_call_rested exp RAND_MAX a a' :
  0 <= num_input a -> neurons_allocated a ->
  method_call exp RAND_MAX a a' -> rested a -> rested a'.
Proof.
  intros HI Hall [b Hcall|min max g code b g' Hcall|inputs code b Hcall|b Hcall] Hr.
  - unfold fullyConnectFF in Hcall. destruct (_ >? INT_MAX); [discriminate|].
    destruct (for_loop _ _ (0, [])) as [st1|]; [|discriminate].
    cbn [mbind option_bind] in Hcall.
    destruct (for_loop _ _ st1) as [st2|]; [|discriminate].
    injection Hcall as <-. exact Hr.
  - unfold randomizeW in Hcall. destruct (max <=? min)%float.
    + injection Hcall as _ <- _. exact Hr.
    + destruct (randomize_all _ _ _ _ _) as [cs g2].
      injection Hcall as _ <- _. exact Hr.
  - pose proof (setInput_sums _ _ _ _ Hcall) as Hs.
    destruct (method_call_preserves exp RAND_MAX a b
                (call_setInput exp RAND_MAX a inputs code b Hcall)) as (Hc & _).
    unfold counts_of in Hc. injection Hc as HI' _ _ _ _.
    apply rested_intro. intros k x Hx Hge.
    assert (Hk : (input_sum <$> neurons b) !! k = (input_sum <$> neurons a) !! k)
      by (change (map input_sum (neurons b) !! k = map input_sum (neurons a) !! k);
          now rewrite Hs).
    rewrite !list_lookup_fmap, Hx in Hk. cbn in Hk.
    destruct (neurons a !! k) as [y|] eqn:Hy; [|discriminate].
    injection Hk as ->. apply (rested_lookup a k y Hr HI Hy). lia.
  - exact (activate_rested exp a b HI Hall Hcall).
Qed.

(** X21.  Every network made by a constructor or by deserialize, and then
    changed by any calls of fullyConnectFF, randomizeW, setInput and
    activate, has its sums from num_input on at zero. *)
Lemma reachable_rested exp RAND_MAX read_double a :
  reachable exp RAND_MAX read_double a -> rested a.
Proof.
  intros (a0 & Hload & Hcalls).
  pose proof (loaded_well_typed _ _ Hload) as Hty.
  apply loaded_rested in Hload.
  induction Hcalls as [a0|a0 a1 a2 Hcall _ IH]; [exact Hload|].
  destruct Hty as (Hh & He & Hall). pose proof Hh as (HI & _).
  destruct (method_call_preserves _ _ _ _ Hcall) as (Hc & Hlen & Hcnt & Hedges).
  assert (Hty1 : well_typed a1).
  { unfold counts_of in Hc. injection Hc as H1 H2 H3 H4 H5.
    destruct Hh as (? & ? & ? & ? & ? & ?).
    unfold well_typed, header_typed, neurons_allocated in *.
    rewrite Hlen, H1, H2, H3, H4, H5. auto 10. }
  assert (Hr1 : rested a1)
    by (apply (method_call_rested exp RAND_MAX a0 a1); [apply HI| | |]; assumption).
  auto.
Qed.

(** ** Construction *)

(** C2 (the code at the failing input).  With counts [1; 1] the network has
    two neurons, at indices 0 and 1.  A connection whose source index is 2,
    the value of total_num_neurons, passes the constructor's check: the
    network is built and the connection stored. *)
Theorem ANN_new_accepts_index_total :
  exists a, ANN_new [1; 1] [2] [1] [1%float] = inr a
    /\ total_num_neurons a = 2
    /\ length (neurons a) = 2%nat
    /\ map endpoints (connections a) = [(2, 1)].
Proof.
  eexists. split; [vm_compute; reflexivity|]. repeat split.
Qed.

(** The check the constructor does make: an index above total_num_neurons,
    or below zero, at one of the positions the loop visits, ends the
    construction. *)
Lemma add_connections_rejects cs total c_src c_trg c_wts acc :
  Exists (fun c => nth (Z.to_nat c) c_src 0 < 0
                   \/ total < nth (Z.to_nat c) c_src 0
                   \/ nth (Z.to_nat c) c_trg 0 < 0
                   \/ total < nth (Z.to_nat c) c_trg 0) cs ->
  add_connections cs total c_src c_trg c_wts acc = inl NeuronIndexOutOfBounds.
Proof.
  intros Hex. revert acc. induction cs as [|c cs IH]; intros acc.
  - inversion Hex.
  - cbn [add_connections].
    destruct (Z.ltb_spec (nth (Z.to_nat c) c_src 0) 0); [reflexivity|].
    destruct (Z.gtb_spec (nth (Z.to_nat c) c_src 0) total); [reflexivity|].
    destruct (Z.ltb_spec (nth (Z.to_nat c) c_trg 0) 0); [reflexivity|].
    destruct (Z.gtb_spec (nth (Z.to_nat c) c_trg 0) total); [reflexivity|].
    cbn [orb]. apply IH. apply Exists_cons in Hex as [Hc|Hcs]; [lia|exact Hcs].
Qed.

(** ** Counterexamples *)

(** C4 (counterexample).  deserialize stores the five header numbers as they
    come: a stream that announces one neuron, which is an input, and two
    outputs is accepted, and getOutput then returns no value at all for
    num_output = 2.  The constructor reaches such a state too: the counts
    65535, 0, 1 add up to 65536, which is 0 as an unsigned short; and what
    serialize writes of that network, deserialize restores as it is. *)
Lemma getOutput_length_fails :
  (exists a,
     deserialize get_double (mkANN 0 0 0 0 0 [] 0 [])
       (Some ["1"; "0"; "2"; "1"; "1"; "0"; "0"]%string) = Some (0, a)
     /\ num_output a = 2 /\ getOutput a = Some [])
  /\ (exists a f a',
        ANN_new [65535; 0; 1] [] [] [] = inr a
        /\ num_output a = 1 /\ getOutput a = Some []
        /\ serialize put_double a true = (0, Some f)
        /\ deserialize get_double a (Some f) = Some (0, a')
        /\ num_output a' = 1 /\ getOutput a' = Some []).
Proof.
  split.
  - eexists. split; [vm_compute; reflexivity|]. split; reflexivity.
  - do 3 eexists. split; [vm_compute; reflexivity|].
    split; [reflexivity|]. split; [reflexivity|].
    split; [vm_compute; reflexivity|]. split; [vm_compute; reflexivity|].
    split; reflexivity.
Qed.

(** Two passes over [two_layer_net], whatever [exp] is: once the hidden
    neurons hold 1.0 from an earlier pass and the inputs are set to
    (-100, 100), the first pass returns 1.0 (it uses the hidden outputs of
    the pass before) and the second returns 0.0. *)
Lemma two_layer_passes (exp : double -> double) :
  exists a0 a1 a2 a3 a4 a5,
    two_layer_net = inr a0
    /\ setInput [100; 100]%float a0 = Some (0, a1)
    /\ activate exp a1 = Some a2
    /\ setInput [-100; 100]%float a2 = Some (0, a3)
    /\ strictly_feedforward a3 = true
    /\ activate exp a3 = Some a4
    /\ activate exp a4 = Some a5
    /\ map weight (connections a4) = map weight (connections a3)
    /\ getOutput a4 = Some [1%float]
    /\ getOutput a5 = Some [0%float].
Proof.
  do 6 eexists. repeat (split; [cbv; reflexivity|]). cbv. reflexivity.
Qed.

(** C5 (counterexample).  A strictly feedforward network with a hidden
    layer; inputs and weights are the same in both calls, yet getOutput is
    [1.0] after the first activate and [0.0] after the second.  The values
    come from the saturated branches of sigmoid_AF: no value of [exp] enters
    them. *)
Lemma activate_twice_differs :
  exists a0 a1 a2 a3 a4 a5,
    two_layer_net = inr a0
    /\ setInput [100; 100]%float a0 = Some (0, a1)
    /\ activate exp_series a1 = Some a2
    /\ setInput [-100; 100]%float a2 = Some (0, a3)
    /\ strictly_feedforward a3 = true
    /\ activate exp_series a3 = Some a4
    /\ activate exp_series a4 = Some a5
    /\ map weight (connections a4) = map weight (connections a3)
    /\ map output (take 2 (neurons a4)) = map output (take 2 (neurons a3))
    /\ getOutput a4 = Some [1%float]
    /\ getOutput a5 = Some [0%float].
Proof.
  do 6 eexists. repeat (split; [vm_compute; reflexivity|]). vm_compute. reflexivity.
Qed.

(** C1 (counterexample).  The network with 2 input, 2 hidden and 1 output
    neurons, fully connected, its weights randomized in [-1, 1]: the first
    weight is 0.68037543430941905, the stream writes 0.680375, and the
    network read back has the weight 0.680375, another double. *)
Lemma roundtrip_changes_weights :
  exists a0 a1 a2 g f a3,
    ANN_new [2; 2; 1] [] [] [] = inr a0
    /\ fullyConnectFF a0 = Some a1
    /\ randomizeW_default 2147483647 a1 {| draws := glibc_draws; calls := 0 |}
       = (0, a2, g)
    /\ serialize put_double a2 true = (0, Some f)
    /\ deserialize get_double a0 (Some f) = Some (0, a3)
    /\ map weight (connections a2)
       = [0.68037543430941905; -0.21123414636181392; 0.56619844751721171;
          0.59688006695214657; 0.82329471587356862; -0.60489726141323208]%float
    /\ map weight (connections a3)
       = [0.680375; -0.211234; 0.566198; 0.59688; 0.823295; -0.604897]%float
    /\ map weight (connections a3) <> map weight (connections a2).
Proof.
  do 6 eexists. repeat (split; [vm_compute; reflexivity|]).
  vm_compute. discriminate.
Qed.

(** The other two ways a round trip fails.  After fullyConnectFF on the
    network built from the counts 65535, 2, 0 the recorded number of
    connections is 65534 and the vector is empty: deserialize looks for
    connections the stream does not hold.  And the text of an infinite weight
    is not a numeral a stream reads. *)
Lemma roundtrip_other_failures :
  (exists a0 a1 f,
     ANN_new [65535; 2; 0] [] [] [] = inr a0
     /\ fullyConnectFF a0 = Some a1
     /\ total_num_connections a1 = 65534 /\ connections a1 = []
     /\ serialize put_double a1 true = (0, Some f)
     /\ deserialize get_double a0 (Some f) = None)
  /\ (exists a f,
        ANN_new [1; 1] [0] [1] [infinity] = inr a
        /\ serialize put_double a true = (0, Some f)
        /\ deserialize get_double a (Some f) = None).
Proof.
  split.
  - do 3 eexists. repeat (split; [vm_compute; reflexivity|]).
    vm_compute. reflexivity.
  - do 2 eexists. repeat (split; [vm_compute; reflexivity|]).
    vm_compute. reflexivity.
Qed.

(** ** The theorems at concrete networks *)

(** Closed comparisons between integers, by evaluation. *)
Ltac by_evaluation := repeat split; vm_compute; congruence.

Lemma one_edge_net_layout : layout one_edge_net.
Proof. by_evaluation. Qed.

Lemma one_edge_net_edges : edges_in_range one_edge_net.
Proof. constructor; [by_evaluation|constructor]. Qed.

Lemma setInput_spec_witness :
  Z.of_nat (length [0.25%float]) = num_input one_edge_net
  /\ num_input one_edge_net <= Z.of_nat (length (neurons one_edge_net))
  /\ exists ns,
       setInput [0.25%float] one_edge_net = Some (0, set_neurons one_edge_net ns)
       /\ length ns = 2%nat.
Proof.
  split; [reflexivity|]. split; [by_evaluation|].
  destruct (setInput_spec [0.25%float] one_edge_net) as [_ H].
  destruct H as (ns & H1 & H2 & _); [reflexivity|by_evaluation|].
  exists ns. split; [exact H1|exact H2].
Defined.

Lemma getOutput_spec_witness :
  layout one_edge_net /\ neurons_allocated one_edge_net
  /\ exists out, getOutput one_edge_net = Some out /\ Z.of_nat (length out) = 1.
Proof.
  split; [exact one_edge_net_layout|]. split; [reflexivity|].
  destruct (getOutput_spec one_edge_net one_edge_net_layout eq_refl)
    as (out & H1 & H2 & _).
  exists out. split; [exact H1|exact H2].
Defined.

Lemma fullyConnectFF_spec_witness :
  layout bare_2_2_1
  /\ exists a cs, fullyConnectFF bare_2_2_1 = Some a
       /\ connections a = cs /\ Z.of_nat (length cs) = 2 * (2 + 1).
Proof.
  assert (H : layout bare_2_2_1) by by_evaluation.
  split; [exact H|].
  destruct (fullyConnectFF_spec bare_2_2_1 H) as (cs & H1 & _ & H2 & _).
  eexists. exists cs. split; [exact H1|]. split; [reflexivity|exact H2].
Defined.

Lemma activate_frame_witness :
  0 <= num_input one_edge_net /\ neurons_allocated one_edge_net
  /\ edges_in_range one_edge_net
  /\ exists cs ns,
       activate exp_series one_edge_net
       = Some (set_connections (set_neurons one_edge_net ns) cs)
       /\ Forall2 same_edge (connections one_edge_net) cs.
Proof.
  split; [by_evaluation|]. split; [reflexivity|].
  split; [exact one_edge_net_edges|].
  destruct (activate_frame exp_series one_edge_net)
    as (cs & ns & H1 & H2 & _);
    [by_evaluation|reflexivity|exact one_edge_net_edges|].
  exists cs, ns. split; [exact H1|exact H2].
Defined.

Lemma activate_twice_single_hop_witness :
  0 <= num_input one_edge_net /\ neurons_allocated one_edge_net
  /\ edges_in_range one_edge_net /\ single_hop one_edge_net
  /\ rested one_edge_net
  /\ exists a1 a2,
       activate exp_series one_edge_net = Some a1
       /\ activate exp_series a1 = Some a2
       /\ map output (neurons a2) = map output (neurons a1)
       /\ getOutput a2 = getOutput a1.
Proof.
  assert (Hhop : single_hop one_edge_net)
    by (constructor; [by_evaluation|constructor]).
  assert (Hrest : rested one_edge_net)
    by (constructor; [reflexivity|constructor]).
  split; [by_evaluation|]. split; [reflexivity|].
  split; [exact one_edge_net_edges|].
  split; [exact Hhop|]. split; [exact Hrest|].
  apply (activate_twice_single_hop exp_series one_edge_net);
    [by_evaluation|reflexivity|exact one_edge_net_edges|exact Hhop|exact Hrest].
Defined.

Lemma randomizeW_spec_witness :
  (0 <? 1)%float = true
  /\ exists cs,
       randomizeW 2147483647 0 1 one_edge_net {| draws := glibc_draws; calls := 0 |}
       = (0, set_connections one_edge_net cs,
          {| draws := glibc_draws; calls := 1 |})
       /\ length cs = 1%nat
       /\ Forall (fun c => (0 <=? weight c)%float = true) cs.
Proof.
  split; [reflexivity|].
  destruct (randomizeW_spec 2147483647 0 1 one_edge_net
              {| draws := glibc_draws; calls := 0 |}) as (_ & H).
  destruct (H eq_refl) as (cs & H1 & H2 & _ & H4).
  exists cs. split; [exact H1|]. split; [exact H2|].
  apply H4; [reflexivity|lia|].
  intros [|k] Hk; [vm_compute; discriminate|cbn in Hk; lia].
Defined.

Lemma serialize_deserialize_witness :
  header_typed one_edge_net /\ Forall edge_typed (connections one_edge_net)
  /\ neurons_allocated one_edge_net
  /\ total_num_connections one_edge_net
     = Z.of_nat (length (connections one_edge_net))
  /\ Forall (fun c => is_Some (get_double (put_double (weight c))))
            (connections one_edge_net)
  /\ exists f a',
       serialize put_double one_edge_net true = (0, Some f)
       /\ deserialize get_double bare_2_2_1 (Some f) = Some (0, a')
       /\ map type (neurons a') = map type (neurons one_edge_net)
       /\ map endpoints (connections a') = map endpoints (connections one_edge_net).
Proof.
  assert (H1 : header_typed one_edge_net)
    by by_evaluation.
  assert (H2 : Forall edge_typed (connections one_edge_net))
    by (constructor; [by_evaluation|constructor]).
  assert (H3 : Forall (fun c => is_Some (get_double (put_double (weight c))))
                      (connections one_edge_net))
    by (constructor; [exists 1%float; reflexivity|constructor]).
  split; [exact H1|]. split; [exact H2|]. split; [reflexivity|].
  split; [reflexivity|]. split; [exact H3|].
  destruct (serialize_deserialize put_double get_double one_edge_net bare_2_2_1
              H1 H2 eq_refl eq_refl H3)
    as (f & a' & Hs & Hd & _ & Hn & He & _).
  exists f, a'. repeat split; assumption.
Defined.

(** ** The constructor, case by case *)

Lemma add_connections_error cs total c_src c_trg c_wts acc e :
  add_connections cs total c_src c_trg c_wts acc = inl e ->
  e = NeuronIndexOutOfBounds.
Proof.
  revert acc. induction cs as [|c cs IH]; intros acc H; [discriminate|].
  cbn [add_connections] in H. destruct (_ || _); [congruence|eauto].
Qed.

Lemma add_connections_accepts cs total c_src c_trg c_wts acc :
  Forall (fun c => 0 <= nth (Z.to_nat c) c_src 0 <= total
                   /\ 0 <= nth (Z.to_nat c) c_trg 0 <= total) cs ->
  add_connections cs total c_src c_trg c_wts acc
  = inr (acc ++ map (fun c => new_Connection (nth (Z.to_nat c) c_src 0)
                                (nth (Z.to_nat c) c_trg 0)
                                (nth (Z.to_nat c) c_wts 0%float)) cs).
Proof.
  intros Hall. revert acc. induction Hall as [|c cs [Hs Ht] _ IH]; intros acc.
  - cbn. now rewrite app_nil_r.
  - cbn [add_connections map].
    destruct (Z.ltb_spec (nth (Z.to_nat c) c_src 0) 0); [lia|].
    destruct (Z.gtb_spec (nth (Z.to_nat c) c_src 0) total); [lia|].
    destruct (Z.ltb_spec (nth (Z.to_nat c) c_trg 0) 0); [lia|].
    destruct (Z.gtb_spec (nth (Z.to_nat c) c_trg 0) total); [lia|].
    cbn [orb]. rewrite IH, <- app_assoc. reflexivity.
Qed.

Lemma ANN_new_error counts c_src c_trg c_wts e :
  ANN_new counts c_src c_trg c_wts = inl e ->
  (e = NeuronCountVector /\ ~ counts_ok counts)
  \/ (e = EdgeArraySizes /\ counts_ok counts /\ ~ sizes_ok c_src c_trg c_wts)
  \/ (e = NeuronIndexOutOfBounds /\ counts_ok counts /\ sizes_ok c_src c_trg c_wts).
Proof.
  unfold ANN_new, counts_ok, sizes_ok. intros H.
  destruct (Nat.eqb_spec (length counts) 2) as [H2|H2];
    destruct (Nat.eqb_spec (length counts) 3) as [H3|H3];
    cbn [orb negb] in H;
    try (left; split; [congruence|lia]).
  all: destruct (Nat.eqb_spec (length c_src) (length c_trg)) as [Hst|Hst];
    destruct (Nat.eqb_spec (length c_src) (length c_wts)) as [Hsw|Hsw];
    destruct (Nat.eqb_spec (length c_trg) (length c_wts)) as [Htw|Htw];
    cbn [orb negb] in H;
    try (right; left; split; [congruence|split; [lia|lia]]); try lia.
  all: right; right.
  all: match type of H with
       | match ?m with _ => _ end = _ => destruct m as [e'|cs] eqn:Hm; [|discriminate]
       end.
  all: destruct (0 <? _); [apply add_connections_error in Hm|discriminate].
  all: split; [congruence|lia].
Qed.

(** X1 (ANN::ANN, the two size checks).  The constructor ends with the
    message about the neuron count vector exactly when that vector has
    neither two nor three elements, and with the message about the edge
    arrays exactly when it has two or three and the three edge arrays do not
    have one common length.  No other input gives either of the two. *)
Theorem ANN_new_size_errors counts c_src c_trg (c_wts : list double) :
  (ANN_new counts c_src c_trg c_wts = inl NeuronCountVector <-> ~ counts_ok counts)
  /\ (ANN_new counts c_src c_trg c_wts = inl EdgeArraySizes
      <-> counts_ok counts /\ ~ sizes_ok c_src c_trg c_wts).
Proof.
  split; split.
  - intros H. apply ANN_new_error in H as [[_ H]|[[H _]|[H _]]];
      [exact H|discriminate|discriminate].
  - unfold counts_ok, ANN_new. intros H.
    destruct (Nat.eqb_spec (length counts) 2); [tauto|].
    destruct (Nat.eqb_spec (length counts) 3); [tauto|reflexivity].
  - intros H. apply ANN_new_error in H as [[H _]|[[_ H]|[H _]]];
      [discriminate|exact H|discriminate].
  - unfold counts_ok, sizes_ok, ANN_new. intros [Hc Hs].
    assert (Hn : negb ((length counts =? 2)%nat || (length counts =? 3)%nat) = false).
    { destruct Hc as [-> | ->]; reflexivity. }
    rewrite Hn.
    destruct (Nat.eqb_spec (length c_src) (length c_trg)); [|reflexivity].
    destruct (Nat.eqb_spec (length c_src) (length c_wts)); [|reflexivity].
    tauto.
Qed.

Lemma ANN_new_plain counts c_src c_trg c_wts :
  plain_arguments counts c_src c_trg c_wts ->
  ANN_new counts c_src c_trg c_wts
  = match add_connections (indices 0 (Z.of_nat (length c_src)))
            (foldr Z.add 0 counts) c_src c_trg c_wts [] with
    | inl e => inl e
    | inr cs =>
        inr {| num_input := (layers_of counts).1.1;
               num_hidden := (layers_of counts).1.2;
               num_output := (layers_of counts).2;
               num_iPLUSh := (layers_of counts).1.1 + (layers_of counts).1.2;
               total_num_neurons := foldr Z.add 0 counts;
               neurons :=
                 map (fun n => new_Neuron
                                 (ntype_at (layers_of counts).1.1
                                    ((layers_of counts).1.1 + (layers_of counts).1.2) n))
                     (indices 0 (foldr Z.add 0 counts));
               total_num_connections := Z.of_nat (length c_src);
               connections := cs |}
    end.
Proof.
  intros (Hc & [Hst Hsw] & Hpos & Hsum & Hn). unfold ANN_new, USHRT_MAX in *.
  rewrite <- Hst, <- Hsw, !Nat.eqb_refl. cbn [negb orb].
  assert (Hconn : to_ushort (Z.of_nat (length c_src)) = Z.of_nat (length c_src))
    by (apply Z.mod_small; lia).
  rewrite Hconn.
  assert (Hadd : forall total,
             (if 0 <? Z.of_nat (length c_src)
              then add_connections (indices 0 (Z.of_nat (length c_src)))
                     total c_src c_trg c_wts []
              else inr [])
             = add_connections (indices 0 (Z.of_nat (length c_src)))
                 total c_src c_trg c_wts []).
  { intros total. destruct (Z.ltb_spec 0 (Z.of_nat (length c_src))); [reflexivity|].
    rewrite indices_nil by lia. reflexivity. }
  destruct Hc as [Hc|Hc];
    [destruct counts as [|x [|y [|z l]]]; try discriminate
    |destruct counts as [|x [|y [|z [|w l]]]]; try discriminate].
  all: repeat match goal with
              | H : Forall _ (_ :: _) |- _ => apply Forall_cons in H as [? H]
              end.
  all: cbn in Hsum.
  all: cbn [length Nat.eqb negb orb nth layers_of fst snd foldr].
  all: unfold to_ushort; rewrite ?(Z.mod_small 0), ?(Z.mod_small x),
         ?(Z.mod_small y), ?(Z.mod_small z) by lia.
  all: rewrite ?(Z.mod_small (x + 0)), ?(Z.mod_small (x + y)) by lia.
  all: rewrite ?(Z.mod_small (x + 0 + y)), ?(Z.mod_small (x + y + z)) by lia.
  all: rewrite ?Z.add_0_r, ?Z.add_assoc in *.
  all: rewrite Hadd; reflexivity.
Qed.

(** The elements of a list, met through their positions. *)
Lemma Forall_positions (P : Z -> Prop) (l : list Z) :
  Forall (fun c => P (nth (Z.to_nat c) l 0)) (indices 0 (Z.of_nat (length l)))
  <-> Forall P l.
Proof.
  rewrite !List.Forall_forall. split.
  - intros H x Hx. apply (In_nth _ _ 0) in Hx as (k & Hk & <-).
    specialize (H (Z.of_nat k)). rewrite Nat2Z.id in H. apply H.
    apply In_indices. lia.
  - intros H c Hc. apply In_indices in Hc. apply H, nth_In. lia.
Qed.

Lemma positions_in_range total (c_src c_trg : list Z) :
  length c_src = length c_trg ->
  Forall (fun x => 0 <= x <= total) (c_src ++ c_trg) ->
  Forall (fun c => 0 <= nth (Z.to_nat c) c_src 0 <= total
                   /\ 0 <= nth (Z.to_nat c) c_trg 0 <= total)
         (indices 0 (Z.of_nat (length c_src))).
Proof.
  intros Hlen Hall. apply Forall_app in Hall as [Hs Ht].
  apply (Forall_positions (fun x => 0 <= x <= total)) in Hs.
  apply (Forall_positions (fun x => 0 <= x <= total)) in Ht.
  rewrite <- Hlen in Ht. rewrite List.Forall_forall in *. auto.
Qed.

(** X2 (ANN::ANN, the check of the edge indices).  For counts and edge
    arrays without wrap-around, the constructor ends with the message about
    a neuron index exactly when one of the given source or target indices is
    negative or greater than the total number of neurons; an index equal to
    that total is not refused. *)
Theorem ANN_new_index_check counts c_src c_trg (c_wts : list double) :
  plain_arguments counts c_src c_trg c_wts ->
  (ANN_new counts c_src c_trg c_wts = inl NeuronIndexOutOfBounds
   <-> Exists (fun x => x < 0 \/ foldr Z.add 0 counts < x) (c_src ++ c_trg)).
Proof.
  intros Hplain. rewrite (ANN_new_plain _ _ _ _ Hplain).
  destruct Hplain as (_ & [Hst _] & _).
  set (total := foldr Z.add 0 counts).
  destruct (Forall_Exists_dec _ _ (index_cases total) (c_src ++ c_trg))
    as [Hall|Hbad].
  - rewrite add_connections_accepts by (apply positions_in_range; assumption).
    split; [discriminate|]. intros Hbad. exfalso.
    apply List.Exists_exists in Hbad as (x & Hx & Hbad).
    rewrite List.Forall_forall in Hall. specialize (Hall x Hx). lia.
  - split; [intros _; exact Hbad|intros _].
    rewrite add_connections_rejects; [reflexivity|].
    apply List.Exists_exists in Hbad as (x & Hx & Hbad).
    apply List.Exists_exists.
    apply in_app_or in Hx as [Hx|Hx];
      apply (In_nth _ _ 0) in Hx as (k & Hk & <-);
      exists (Z.of_nat k); (split; [apply In_indices; lia|]);
      rewrite Nat2Z.id; lia.
Qed.

Lemma layers_of_sum counts :
  counts_ok counts ->
  (layers_of counts).1.1 + (layers_of counts).1.2 + (layers_of counts).2
  = foldr Z.add 0 counts.
Proof.
  intros [H|H];
    [destruct counts as [|x [|y [|z l]]]; try discriminate
    |destruct counts as [|x [|y [|z [|w l]]]]; try discriminate];
    cbn; lia.
Qed.

Lemma layers_of_nonneg counts :
  counts_ok counts -> Forall (fun n => 0 <= n) counts ->
  0 <= (layers_of counts).1.1 /\ 0 <= (layers_of counts).1.2
  /\ 0 <= (layers_of counts).2.
Proof.
  intros [H|H] Hpos;
    [destruct counts as [|x [|y [|z l]]]; try discriminate
    |destruct counts as [|x [|y [|z [|w l]]]]; try discriminate].
  all: repeat match goal with
              | H : Forall _ (_ :: _) |- _ => apply Forall_cons in H as [? H]
              end.
  all: cbn; lia.
Qed.

(** X3 (ANN::ANN, what it builds).  For counts and edge arrays without
    wrap-around and edge indices between 0 and the total number of neurons,
    the constructor returns a network: two counts are inputs and outputs
    with no hidden layer, three are inputs, hidden neurons and outputs; the
    neuron at each index has the type of its layer and zero sum and output;
    the connections are the given triples in the given order, with zero
    data, and their number is recorded.  When every index is below the
    total, the network is consistent. *)
Theorem ANN_new_builds counts c_src c_trg (c_wts : list double) :
  plain_arguments counts c_src c_trg c_wts ->
  Forall (fun x => 0 <= x <= foldr Z.add 0 counts) (c_src ++ c_trg) ->
  exists a, ANN_new counts c_src c_trg c_wts = inr a
    /\ (num_input a, num_hidden a, num_output a) = layers_of counts
    /\ layout a /\ neurons_allocated a
    /\ (forall (k : nat) nr, neurons a !! k = Some nr ->
          nr = new_Neuron (ntype_at (num_input a) (num_iPLUSh a) (Z.of_nat k)))
    /\ total_num_connections a = Z.of_nat (length (connections a))
    /\ length (connections a) = length c_src
    /\ (forall (k : nat) s t w,
          c_src !! k = Some s -> c_trg !! k = Some t -> c_wts !! k = Some w ->
          connections a !! k = Some (mkConnection s t w 0))
    /\ (Forall (fun x => x < foldr Z.add 0 counts) (c_src ++ c_trg) ->
        consistent a).
Proof.
  intros Hplain Hall. rewrite (ANN_new_plain _ _ _ _ Hplain).
  destruct Hplain as (Hc & [Hst Hsw] & Hpos & Hsum & Hn).
  pose proof (layers_of_sum _ Hc) as Hlsum.
  pose proof (layers_of_nonneg _ Hc Hpos) as (HI & HH & HO).
  set (total := foldr Z.add 0 counts) in *.
  rewrite add_connections_accepts by (apply positions_in_range; assumption).
  cbn [app]. eexists. split; [reflexivity|].
  cbn [num_input num_hidden num_output num_iPLUSh total_num_neurons neurons
       total_num_connections connections].
  assert (Hlay : layout
            {| num_input := (layers_of counts).1.1;
               num_hidden := (layers_of counts).1.2;
               num_output := (layers_of counts).2;
               num_iPLUSh := (layers_of counts).1.1 + (layers_of counts).1.2;
               total_num_neurons := total;
               neurons :=
                 map (fun n => new_Neuron
                                 (ntype_at (layers_of counts).1.1
                                    ((layers_of counts).1.1 + (layers_of counts).1.2) n))
                     (indices 0 total);
               total_num_connections := Z.of_nat (length c_src);
               connections :=
                 map (fun c => new_Connection (nth (Z.to_nat c) c_src 0)
                                 (nth (Z.to_nat c) c_trg 0)
                                 (nth (Z.to_nat c) c_wts 0%float))
                     (indices 0 (Z.of_nat (length c_src))) |}).
  { unfold layout. cbn. lia. }
  assert (Hal : Z.of_nat (length (map (fun n => new_Neuron
                                 (ntype_at (layers_of counts).1.1
                                    ((layers_of counts).1.1 + (layers_of counts).1.2) n))
                     (indices 0 total))) = total).
  { rewrite length_map, length_indices. lia. }
  assert (Hlen : length (map (fun c => new_Connection (nth (Z.to_nat c) c_src 0)
                                 (nth (Z.to_nat c) c_trg 0)
                                 (nth (Z.to_nat c) c_wts 0%float))
                     (indices 0 (Z.of_nat (length c_src)))) = length c_src).
  { rewrite length_map, length_indices. lia. }
  split; [now destruct (layers_of counts) as [[i h] o]|].
  split; [exact Hlay|]. split; [exact Hal|].
  split; [|split; [lia|split; [exact Hlen|split]]].
  - intros k nr Hk.
    change (map ?f ?l) with (f <$> l) in Hk. rewrite list_lookup_fmap in Hk.
    apply fmap_Some in Hk as (n & Hn' & ->).
    assert (Hlt : (k < length (indices 0 total))%nat)
      by (apply lookup_lt_is_Some; eauto).
    rewrite length_indices in Hlt.
    rewrite lookup_indices in Hn' by lia. injection Hn' as <-.
    rewrite Z.add_0_l. reflexivity.
  - intros k s t w Hs Ht Hw.
    change (map ?f ?l) with (f <$> l). rewrite list_lookup_fmap.
    assert (Hlt : (k < length c_src)%nat) by (apply lookup_lt_is_Some; eauto).
    rewrite lookup_indices by lia. cbn [fmap option_fmap option_map].
    rewrite Z.add_0_l, Nat2Z.id, !nth_lookup, Hs, Ht, Hw.
    cbn [default from_option]. unfold id.
    apply Forall_app in Hall as [Hsrc Htrg].
    rewrite List.Forall_forall in Hsrc, Htrg.
    pose proof (Hsrc s (proj1 (list_elem_of_In _ _) (list_elem_of_lookup_2 _ _ _ Hs))).
    pose proof (Htrg t (proj1 (list_elem_of_In _ _) (list_elem_of_lookup_2 _ _ _ Ht))).
    unfold new_Connection, to_ushort, USHRT_MAX in *.
    rewrite !Z.mod_small by lia. reflexivity.
  - intros Hlt. split; [exact Hlay|]. split; [exact Hal|]. split; [|cbn; lia].
    unfold edges_in_range. cbn [neurons connections].
    rewrite List.Forall_forall. intros c Hin.
    apply in_map_iff in Hin as (p & <- & Hp). apply In_indices in Hp.
    apply Forall_app in Hall as [Hsrc Htrg]. apply Forall_app in Hlt as [Hls Hlt].
    rewrite List.Forall_forall in Hsrc, Htrg, Hls, Hlt.
    assert (Hps : In (nth (Z.to_nat p) c_src 0) c_src) by (apply nth_In; lia).
    assert (Hpt : In (nth (Z.to_nat p) c_trg 0) c_trg) by (apply nth_In; lia).
    pose proof (Hsrc _ Hps). pose proof (Htrg _ Hpt).
    pose proof (Hls _ Hps). pose proof (Hlt _ Hpt).
    unfold edge_in_range, new_Connection, to_ushort, USHRT_MAX in *.
    cbn [source_neuron_idx target_neuron_idx].
    rewrite !Z.mod_small by lia. rewrite Hal. lia.
Qed.

Lemma add_connections_inr cs total c_src c_trg c_wts acc r :
  add_connections cs total c_src c_trg c_wts acc = inr r ->
  r = acc ++ map (fun c => new_Connection (nth (Z.to_nat c) c_src 0)
                             (nth (Z.to_nat c) c_trg 0)
                             (nth (Z.to_nat c) c_wts 0%float)) cs.
Proof.
  revert acc. induction cs as [|c cs IH]; intros acc H.
  - injection H as <-. cbn. now rewrite app_nil_r.
  - cbn [add_connections] in H. destruct (_ || _); [discriminate|].
    apply IH in H. rewrite H, <- app_assoc. reflexivity.
Qed.

Lemma ANN_new_stores counts c_src c_trg c_wts a :
  ANN_new counts c_src c_trg c_wts = inr a ->
  total_num_connections a = to_ushort (Z.of_nat (length c_src))
  /\ connections a
     = map (fun c => new_Connection (nth (Z.to_nat c) c_src 0)
                       (nth (Z.to_nat c) c_trg 0)
                       (nth (Z.to_nat c) c_wts 0%float))
           (indices 0 (to_ushort (Z.of_nat (length c_src))))
  /\ num_input a = to_ushort (nth 0 counts 0)
  /\ (length counts = 3%nat ->
      num_hidden a = to_ushort (nth 1 counts 0)
      /\ num_output a = to_ushort (nth 2 counts 0))
  /\ (length counts = 2%nat ->
      num_hidden a = 0 /\ num_output a = to_ushort (nth 1 counts 0)).
Proof.
  unfold ANN_new. intros H.
  destruct (negb _); [discriminate|]. destruct (_ || _); [discriminate|].
  match type of H with
  | match ?m with _ => _ end = _ => destruct m as [e|cs] eqn:Hm; [discriminate|]
  end.
  injection H as <-.
  cbn [num_input num_hidden num_output total_num_connections connections].
  split; [reflexivity|]. split.
  - destruct (Z.ltb_spec 0 (to_ushort (Z.of_nat (length c_src)))) as [Hlt|Hge].
    + apply add_connections_inr in Hm. exact Hm.
    + injection Hm as <-. rewrite indices_nil by lia. reflexivity.
  - split; [reflexivity|]. split; intros ->; cbn [Nat.eqb]; split; reflexivity.
Qed.

(** The connection loop reads the arrays at the positions it visits and
    nowhere else. *)
Lemma add_connections_ext cs total c_src c_trg (c_wts : list double)
    c_src' c_trg' c_wts' acc :
  Forall (fun c => nth (Z.to_nat c) c_src' 0 = nth (Z.to_nat c) c_src 0
                   /\ nth (Z.to_nat c) c_trg' 0 = nth (Z.to_nat c) c_trg 0
                   /\ nth (Z.to_nat c) c_wts' 0%float
                      = nth (Z.to_nat c) c_wts 0%float) cs ->
  add_connections cs total c_src' c_trg' c_wts' acc
  = add_connections cs total c_src c_trg c_wts acc.
Proof.
  intros Hall. revert acc.
  induction Hall as [|c cs (Hs & Ht & Hw) _ IH]; intros acc; [reflexivity|].
  cbn [add_connections]. rewrite Hs, Ht, Hw, IH. reflexivity.
Qed.

Lemma nth_take_below {A : Type} (l : list A) (n k : nat) (d : A) :
  (k < n)%nat -> nth k (take n l) d = nth k l d.
Proof.
  revert n k. induction l as [|x l IH]; intros [|n] [|k] Hk;
    cbn; try reflexivity; try lia.
  apply IH. lia.
Qed.

(** X4 (ANN::ANN, more than 65535 edges).  The number of edges is kept in
    an unsigned short.  With edge arrays of one size, n being that size
    modulo 65536, the constructor does with the arrays what it does with
    their first n entries alone: the triples after them are neither checked
    nor stored, and whether it returns a network or an error does not depend
    on them.  A network that it returns records n and holds n connections,
    the first n triples in their order, with their indices reduced modulo
    65536. *)
Theorem ANN_new_edge_count_wraps counts c_src c_trg (c_wts : list double) :
  (sizes_ok c_src c_trg c_wts ->
   ANN_new counts c_src c_trg c_wts
   = ANN_new counts
       (take (Z.to_nat (Z.of_nat (length c_src) mod 65536)) c_src)
       (take (Z.to_nat (Z.of_nat (length c_src) mod 65536)) c_trg)
       (take (Z.to_nat (Z.of_nat (length c_src) mod 65536)) c_wts))
  /\ forall a, ANN_new counts c_src c_trg c_wts = inr a ->
       total_num_connections a = Z.of_nat (length c_src) mod 65536
       /\ Z.of_nat (length (connections a)) = Z.of_nat (length c_src) mod 65536
       /\ forall k : nat, Z.of_nat k < Z.of_nat (length c_src) mod 65536 ->
            connections a !! k
            = Some (new_Connection (nth k c_src 0) (nth k c_trg 0)
                      (nth k c_wts 0%float)).
Proof.
  pose proof (Z.mod_pos_bound (Z.of_nat (length c_src)) 65536 eq_refl) as Hmod.
  split.
  - intros [Hst Hsw].
    assert (Hle : Z.of_nat (length c_src) mod 65536 <= Z.of_nat (length c_src))
      by (apply Z.mod_le; lia).
    set (n := Z.to_nat (Z.of_nat (length c_src) mod 65536)).
    assert (Hn : Z.of_nat n = Z.of_nat (length c_src) mod 65536) by (unfold n; lia).
    assert (Hu : to_ushort (Z.of_nat n) = to_ushort (Z.of_nat (length c_src)))
      by (unfold to_ushort; rewrite Hn; apply Z.mod_mod; lia).
    unfold ANN_new. cbv zeta.
    rewrite !length_take, <- Hst, <- Hsw.
    replace (n `min` length c_src)%nat with n by lia.
    rewrite Hu, !Nat.eqb_refl. cbn [negb orb].
    destruct (negb _); [reflexivity|].
    destruct (0 <? _); [|reflexivity].
    rewrite (add_connections_ext _ _ c_src c_trg c_wts
               (take n c_src) (take n c_trg) (take n c_wts)); [reflexivity|].
    rewrite List.Forall_forall. intros c Hc. apply In_indices in Hc.
    unfold to_ushort in Hc. rewrite !nth_take_below by lia. auto.
  - intros a H. apply ANN_new_stores in H as (Hnum & Hcs & _).
    unfold to_ushort in *. rewrite Hcs.
    split; [exact Hnum|]. split.
    + rewrite length_map, length_indices. lia.
    + intros k Hk. change (map ?f ?l) with (f <$> l). rewrite list_lookup_fmap.
      rewrite lookup_indices by lia. cbn [fmap option_fmap option_map].
      rewrite Z.add_0_l, Nat2Z.id. reflexivity.
Qed.

Lemma read_buffer_Some {A : Type} (buf : list A) count l :
  read_buffer buf count = Some l ->
  0 <= count <= Z.of_nat (length buf) /\ l = take (Z.to_nat count) buf
  /\ Z.of_nat (length l) = count.
Proof.
  unfold read_buffer. intros H.
  destruct (Z.ltb_spec count 0); [discriminate|].
  destruct (Z.ltb_spec (Z.of_nat (length buf)) count); [discriminate|].
  injection H as <-. split; [lia|]. split; [reflexivity|].
  rewrite length_take. lia.
Qed.

(** X5 (new_ANN).  Through the C interface a network is always made from
    three counts, so a call that returns never ends with the message about
    the neuron count vector, and never with the one about the edge arrays:
    the three arrays are cut to the same length c_cnt.  The network it
    returns has the first three numbers, modulo 65536, as its input, hidden
    and output counts and records c_cnt modulo 65536 connections; with
    c_cnt zero or negative it has no connection, whatever the arrays hold. *)
Theorem new_ANN_outcome num_neurons c_src c_trg (c_wts : list double) c_cnt r :
  new_ANN num_neurons c_src c_trg c_wts c_cnt = Some r ->
  r <> inl NeuronCountVector /\ r <> inl EdgeArraySizes
  /\ forall a, r = inr a ->
       [num_input a; num_hidden a; num_output a]
       = map to_ushort (take 3 num_neurons)
       /\ total_num_connections a = to_ushort (Z.max 0 c_cnt)
       /\ (c_cnt <= 0 -> connections a = []).
Proof.
  unfold new_ANN. intros H.
  destruct (read_buffer num_neurons _) as [num|] eqn:Hnum; [|discriminate].
  apply read_buffer_Some in Hnum as (Hlen & Hnum & Hlnum).
  cbn [mbind option_bind] in H.
  assert (Hok : counts_ok num) by (right; cbn in Hlnum; lia).
  assert (Hsizes : exists src trg wts,
             r = ANN_new num src trg wts /\ sizes_ok src trg wts
             /\ Z.of_nat (length src) = Z.max 0 c_cnt).
  { destruct (Z.ltb_spec 0 c_cnt) as [Hpos|Hneg].
    - destruct (read_buffer c_src c_cnt) as [src|] eqn:Hsrc; [|discriminate].
      destruct (read_buffer c_trg c_cnt) as [trg|] eqn:Htrg; [|discriminate].
      destruct (read_buffer c_wts c_cnt) as [wts|] eqn:Hwts; [|discriminate].
      cbn [mbind option_bind] in H. injection H as <-.
      apply read_buffer_Some in Hsrc as (_ & _ & Hsrc).
      apply read_buffer_Some in Htrg as (_ & _ & Htrg).
      apply read_buffer_Some in Hwts as (_ & _ & Hwts).
      exists src, trg, wts. unfold sizes_ok. repeat split; lia.
    - injection H as <-. exists [], [], []. unfold sizes_ok. cbn. repeat split; lia. }
  destruct Hsizes as (src & trg & wts & -> & Hsz & Hcnt).
  split; [|split].
  - intros Herr. apply ANN_new_error in Herr as [[_ Hn]|[[He _]|[He _]]];
      [tauto|discriminate|discriminate].
  - intros Herr. apply ANN_new_error in Herr as [[He _]|[[_ [_ Hn]]|[He _]]];
      [discriminate|tauto|discriminate].
  - intros a Ha. apply ANN_new_stores in Ha as (Hn & Hcs & HI & H3 & _).
    destruct H3 as [HH HO]; [cbn in Hlnum; lia|].
    rewrite Hcnt in *. split; [|split; [exact Hn|]].
    + rewrite HI, HH, HO, Hnum.
      destruct num_neurons as [|x [|y [|z l]]]; cbn in Hlen; try lia.
      reflexivity.
    + intros Hle. rewrite Hcs. rewrite Z.max_l by lia. reflexivity.
Qed.

(** ** What the methods keep *)

Lemma update_loop_map {A B : Type} (g : A -> B) (F : Z -> A -> A) ns (v v' : list A) :
  (forall n x, g (F n x) = g x) ->
  for_loop ns (update_at F) v = Some v' -> map g v' = map g v.
Proof.
  intros HF.
  apply (for_loop_invariant (fun w => map g w = map g v)); [|reflexivity].
  intros n w w' Hw. unfold update_at.
  destruct (at_index w n) as [x|] eqn:Hx; [|discriminate].
  intros [= <-]. rewrite <- Hw.
  change (map g ?l) with (g <$> l).
  rewrite list_fmap_insert, HF. apply list_insert_id.
  apply at_index_inv in Hx as [_ Hx]. now rewrite list_lookup_fmap, Hx.
Qed.

Lemma alter_add_input_map {B : Type} (g : Neuron -> B) d t ns :
  (forall x, g (add_input d x) = g x) ->
  map g (alter (add_input d) t ns) = map g ns.
Proof.
  intros Hg. apply list_eq. intros k. change (map g ?l) with (g <$> l).
  rewrite !list_lookup_fmap. destruct (decide (k = t)) as [->|Hne].
  - rewrite list_lookup_alter_eq. destruct (ns !! t); cbn; [now rewrite Hg|reflexivity].
  - rewrite list_lookup_alter_ne by congruence. reflexivity.
Qed.

Lemma feed_keeps cs ns r :
  feed cs ns = Some r ->
  map type r.2 = map type ns /\ map output r.2 = map output ns.
Proof.
  revert ns r. induction cs as [|c cs IH]; intros ns r Hfeed.
  - injection Hfeed as <-. split; reflexivity.
  - rewrite feed_cons in Hfeed.
    destruct (at_index ns (source_neuron_idx c)) as [source|]; [|discriminate].
    destruct (at_index ns (target_neuron_idx c)) as [target|]; [|discriminate].
    cbn [mbind option_bind] in Hfeed.
    destruct (feed cs _) as [r0|] eqn:Hr0; [|discriminate].
    injection Hfeed as <-. destruct (IH _ _ Hr0) as [Hty Hout].
    rewrite alter_add_input_map in Hty by reflexivity.
    rewrite alter_add_input_map in Hout by reflexivity.
    split; assumption.
Qed.

Lemma method_call_types exp RAND_MAX a b :
  method_call exp RAND_MAX a b -> map type (neurons b) = map type (neurons a).
Proof.
  intros [b' Hcall|min max g code b' g' Hcall|inputs code b' Hcall|b' Hcall].
  - unfold fullyConnectFF in Hcall. destruct (_ >? INT_MAX); [discriminate|].
    destruct (for_loop _ _ (0, [])) as [st1|]; [|discriminate].
    cbn [mbind option_bind] in Hcall.
    destruct (for_loop _ _ st1) as [st2|]; [|discriminate].
    injection Hcall as <-. reflexivity.
  - unfold randomizeW in Hcall. destruct (max <=? min)%float.
    + injection Hcall as _ <- _. reflexivity.
    + destruct (randomize_all _ _ _ _ _) as [cs g2].
      injection Hcall as _ <- _. reflexivity.
  - unfold setInput in Hcall. destruct (negb _).
    + injection Hcall as _ <-. reflexivity.
    + destruct (for_loop _ _ _) as [ns|] eqn:Hns; [|discriminate].
      injection Hcall as _ <-. cbn.
      exact (update_loop_map type
               (fun n nr => set_output nr (nth (Z.to_nat n) inputs 0%float))
               _ _ _ (fun _ _ => eq_refl) Hns).
  - unfold activate in Hcall.
    destruct (feed _ _) as [r|] eqn:Hr; [|discriminate].
    cbn [mbind option_bind] in Hcall.
    destruct (for_loop _ _ _) as [ns|] eqn:Hns; [|discriminate].
    injection Hcall as <-. cbn. destruct (feed_keeps _ _ _ Hr) as [Hty _].
    rewrite <- Hty.
    exact (update_loop_map type (fun _ => fired exp) _ _ _ (fun _ _ => eq_refl) Hns).
Qed.

(** X6 (fullyConnectFF, randomizeW, setInput, activate).  No call of these
    methods, and no sequence of them, changes one of the five neuron counts
    of the header, the number of neurons or the type of a neuron. *)
Theorem method_calls_keep_neurons exp RAND_MAX a b :
  rtc (method_call exp RAND_MAX) a b ->
  counts_of b = counts_of a /\ map type (neurons b) = map type (neurons a).
Proof.
  induction 1 as [a|a a1 a2 Hcall _ [IHc IHt]]; [split; reflexivity|].
  destruct (method_call_preserves _ _ _ _ Hcall) as (Hc & _).
  pose proof (method_call_types _ _ _ _ Hcall) as Ht.
  split; congruence.
Qed.

(** ** Consistent networks *)

Lemma fullyConnectFF_connects (a : ANN) :
  layout a ->
  fullyConnectFF a
  = Some {| num_input := num_input a; num_hidden := num_hidden a;
            num_output := num_output a; num_iPLUSh := num_iPLUSh a;
            total_num_neurons := total_num_neurons a; neurons := neurons a;
            total_num_connections :=
              to_ushort (num_hidden a * (num_input a + num_output a));
            connections :=
              map (fun p => mkConnection p.1 p.2 0%float 0%float)
                  (list_prod (indices 0 (num_input a))
                             (indices (num_input a) (num_iPLUSh a))
                   ++ list_prod (indices (num_input a) (num_iPLUSh a))
                                (indices (num_iPLUSh a) (total_num_neurons a))) |}
  /\ Z.of_nat (length (list_prod (indices 0 (num_input a))
                                 (indices (num_input a) (num_iPLUSh a))
                       ++ list_prod (indices (num_input a) (num_iPLUSh a))
                                    (indices (num_iPLUSh a) (total_num_neurons a))))
     = num_hidden a * (num_input a + num_output a).
Proof.
  intros (HI & HH & HO & Hih & Htot & Hmax). unfold USHRT_MAX in Hmax.
  set (I := num_input a) in *. set (H := num_hidden a) in *.
  set (O := num_output a) in *.
  assert (Hprod : H * (I + O) <= 1073741824).
  { assert (Hsq : forall x y : Z, 4 * (x * y) <= (x + y) * (x + y))
      by (intros x y; pose proof (Z.square_nonneg (x - y)); nia).
    specialize (Hsq H (I + O)).
    assert ((H + (I + O)) * (H + (I + O)) <= 65535 * 65535)
      by (apply Z.mul_le_mono_nonneg; lia).
    lia. }
  assert (Hlen1 : (length (indices 0 I) * length (indices I (num_iPLUSh a)))%nat
                  = Z.to_nat (I * H)).
  { rewrite !length_indices. replace (num_iPLUSh a - I) with H by lia.
    rewrite Z.sub_0_r. rewrite Z2Nat.inj_mul by lia. reflexivity. }
  assert (Hlen2 : (length (indices I (num_iPLUSh a))
                   * length (indices (num_iPLUSh a) (total_num_neurons a)))%nat
                  = Z.to_nat (H * O)).
  { rewrite !length_indices. replace (num_iPLUSh a - I) with H by lia.
    replace (total_num_neurons a - num_iPLUSh a) with O by lia.
    rewrite Z2Nat.inj_mul by lia. reflexivity. }
  assert (HIH : 0 <= I * H) by nia.
  assert (HHO : 0 <= H * O) by nia.
  assert (Hsum : H * (I + O) = I * H + H * O) by ring.
  split.
  - unfold fullyConnectFF. fold I H O.
    destruct (Z.gtb_spec (H * (I + O)) INT_MAX) as [Hgt|_];
      [unfold INT_MAX in Hgt; lia|].
    rewrite for_loop_push_edges by (rewrite Hlen1; unfold INT_MAX; lia).
    cbn [mbind option_bind].
    rewrite for_loop_push_edges by (rewrite Hlen1, Hlen2; unfold INT_MAX; lia).
    cbn [mbind option_bind snd app].
    rewrite !endpoints_block, <- map_app
      by (apply Forall_indices_ushort; unfold USHRT_MAX; lia).
    reflexivity.
  - rewrite length_app, !length_prod, Hlen1, Hlen2. lia.
Qed.

Lemma edges_in_range_endpoints n cs cs' :
  map endpoints cs' = map endpoints cs ->
  Forall (edge_in_range n) cs -> Forall (edge_in_range n) cs'.
Proof.
  revert cs'. induction cs as [|c cs IH]; intros [|c' cs']; cbn; try discriminate.
  - constructor.
  - intros [= Hs Ht Hcs] Hall. apply Forall_cons in Hall as [[H1 H2] Hall].
    constructor; [|exact (IH cs' Hcs Hall)].
    split; [now rewrite Hs|now rewrite Ht].
Qed.

(** What a call other than fullyConnectFF leaves of the connections. *)
Lemma method_call_endpoints exp RAND_MAX a b :
  method_call exp RAND_MAX a b ->
  (fullyConnectFF a = Some b)
  \/ (map endpoints (connections b) = map endpoints (connections a)
      /\ total_num_connections b = total_num_connections a).
Proof.
  intros [b' Hcall|min max g code b' g' Hcall|inputs code b' Hcall|b' Hcall].
  - left. exact Hcall.
  - right. unfold randomizeW in Hcall. destruct (max <=? min)%float.
    + injection Hcall as _ <- _. split; reflexivity.
    + rewrite randomize_all_spec in Hcall. injection Hcall as _ <- _.
      split; [|reflexivity]. cbn. apply list_eq. intros k.
      change (map endpoints ?l) with (endpoints <$> l).
      rewrite !list_lookup_fmap, list_lookup_imap.
      now destruct (connections a !! k).
  - right. unfold setInput in Hcall. destruct (negb _).
    + injection Hcall as _ <-. split; reflexivity.
    + destruct (for_loop _ _ _) as [ns|]; [|discriminate].
      injection Hcall as _ <-. split; reflexivity.
  - right. unfold activate in Hcall.
    destruct (feed _ _) as [r|] eqn:Hr; [|discriminate].
    cbn [mbind option_bind] in Hcall.
    destruct (for_loop _ _ _) as [ns|]; [|discriminate].
    injection Hcall as <-. destruct (feed_Some _ _ _ Hr) as [_ Hend].
    split; [exact Hend|reflexivity].
Qed.

Lemma method_call_consistent exp RAND_MAX a b :
  consistent a -> method_call exp RAND_MAX a b -> consistent b.
Proof.
  intros (Hlay & Hall & Hedges & Hcnt) Hcall.
  destruct (method_call_preserves _ _ _ _ Hcall) as (Hc & Hlen & _).
  destruct (method_calls_layout exp RAND_MAX a b) as [Hlay' Hall'];
    [apply rtc_once; exact Hcall|split; assumption|].
  split; [exact Hlay'|]. split; [exact Hall'|].
  unfold edges_in_range in *. rewrite Hlen.
  destruct (method_call_endpoints _ _ _ _ Hcall) as [Hff|[Hend Hn]].
  - destruct (fullyConnectFF_connects a Hlay) as [Hb Hprod].
    rewrite Hb in Hff. injection Hff as <-.
    cbn [connections total_num_connections].
    destruct Hlay as (HI & HH & HO & Hih & Htot & Hmax).
    unfold neurons_allocated in Hall. split.
    + rewrite List.Forall_forall. intros c Hin.
      apply in_map_iff in Hin as ([s t] & <- & Hp).
      unfold edge_in_range. cbn.
      apply in_app_or in Hp as [Hp|Hp]; apply in_prod_iff in Hp as [Hs Ht];
        apply In_indices in Hs, Ht; lia.
    + rewrite length_map, Hprod. unfold to_ushort.
      assert (0 <= num_hidden a * (num_input a + num_output a)) by nia.
      pose proof (Z.mod_pos_bound (num_hidden a * (num_input a + num_output a))
                    65536 eq_refl).
      pose proof (Z.mod_le (num_hidden a * (num_input a + num_output a)) 65536).
      lia.
  - split; [exact (edges_in_range_endpoints _ _ _ Hend Hedges)|].
    rewrite Hn. assert (length (map endpoints (connections b))
                        = length (map endpoints (connections a))) by congruence.
    rewrite !length_map in *. lia.
Qed.

Lemma for_loop_read {A S : Type} (v : list A) (g : S -> A -> S) ns s :
  Forall (fun n => 0 <= n < Z.of_nat (length v)) ns ->
  is_Some (for_loop ns (fun n s => x ← at_index v n; Some (g s x)) s).
Proof.
  intros Hall. revert s. induction Hall as [|n ns Hn _ IH]; intros s.
  - eexists. reflexivity.
  - rewrite for_loop_cons. destruct (at_index_Some v n Hn) as [x ->].
    cbn [mbind option_bind]. apply IH.
Qed.

Lemma for_loop_read_inv {A S : Type} (v : list A) (g : S -> A -> S) ns s :
  is_Some (for_loop ns (fun n s => x ← at_index v n; Some (g s x)) s) ->
  Forall (fun n => 0 <= n < Z.of_nat (length v)) ns.
Proof.
  revert s. induction ns as [|n ns IH]; intros s Hs; [constructor|].
  rewrite for_loop_cons in Hs.
  destruct (at_index v n) as [x|] eqn:Hx; [|destruct Hs; discriminate].
  cbn [mbind option_bind] in Hs.
  constructor; [exact (proj1 (at_index_inv _ _ _ Hx))|exact (IH _ Hs)].
Qed.

Lemma Forall_indices_below lo hi n :
  0 <= lo -> hi <= n -> Forall (fun k => 0 <= k < n) (indices lo hi).
Proof.
  intros Hlo Hhi. rewrite List.Forall_forall. intros k Hk.
  apply In_indices in Hk. lia.
Qed.

Lemma stream_defined show_double (a : ANN) :
  neurons_allocated a ->
  total_num_connections a <= Z.of_nat (length (connections a)) ->
  is_Some (stream show_double a).
Proof.
  intros Hall Hcnt. unfold neurons_allocated in Hall. unfold stream.
  match goal with
  | |- is_Some (?m ≫= _) =>
      assert (Hs1 : is_Some m)
  end.
  { apply (for_loop_read (neurons a)
             (fun s nr => (s ++ put_int (NeuronType_code (type nr)) ++ " ")%string)).
    apply Forall_indices_below; lia. }
  destruct Hs1 as [s1 ->]. cbn [mbind option_bind].
  apply (for_loop_read (connections a)
           (fun s conn =>
              (s ++ put_int (source_neuron_idx conn) ++ " --> "
                 ++ put_int (target_neuron_idx conn) ++ " : "
                 ++ show_double (weight conn) ++ endl)%string)).
  apply Forall_indices_below; lia.
Qed.

Lemma consistent_defined exp show_double (a : ANN) :
  consistent a ->
  (forall inputs, is_Some (setInput inputs a))
  /\ is_Some (getOutput a) /\ is_Some (activate exp a)
  /\ is_Some (fullyConnectFF a) /\ is_Some (stream show_double a).
Proof.
  intros (Hlay & Hall & Hedges & Hcnt).
  pose proof Hlay as (HI & HH & HO & Hih & Htot & Hmax).
  pose proof Hall as Hall'. unfold neurons_allocated in Hall'.
  split; [|split; [|split; [|split]]].
  - intros inputs. unfold setInput. destruct (negb _); [eexists; reflexivity|].
    destruct (for_loop_update_at
                (fun n nr => set_output nr (nth (Z.to_nat n) inputs 0%float))
                (indices 0 (num_input a)) (neurons a)) as (ns & Hns & _).
    { apply NoDup_indices. }
    { apply Forall_forall. intros n Hn. apply list_elem_of_In, In_indices in Hn. lia. }
    unfold update_at in Hns. rewrite Hns. eexists. reflexivity.
  - rewrite getOutput_slice by lia. eexists. reflexivity.
  - destruct (feed_spec _ _ Hedges) as (r & Hr & Hlen & _).
    destruct (fire_loop exp (num_input a) r.2 HI) as (ns & Hns & _).
    unfold activate. rewrite Hr. cbn [mbind option_bind].
    rewrite <- Hall', <- Hlen, Hns. eexists. reflexivity.
  - destruct (fullyConnectFF_connects a Hlay) as [-> _]. eexists. reflexivity.
  - apply stream_defined; [exact Hall|lia].
Qed.

(** X7 (the methods on a consistent network).  A network that follows the
    index layout, has total_num_neurons neurons, has every edge between
    existing neurons and records no more connections than it holds, stays
    so under any sequence of calls of fullyConnectFF, randomizeW, setInput
    and activate; and in every state so reached setInput, getOutput,
    activate, fullyConnectFF and stream have a defined result: no index is
    out of bounds and no counter overflows. *)
Theorem consistent_after_calls exp RAND_MAX show_double a b :
  consistent a -> rtc (method_call exp RAND_MAX) a b ->
  consistent b
  /\ (forall inputs, is_Some (setInput inputs b))
  /\ is_Some (getOutput b) /\ is_Some (activate exp b)
  /\ is_Some (fullyConnectFF b) /\ is_Some (stream show_double b).
Proof.
  intros Ha Hcalls.
  assert (Hb : consistent b).
  { induction Hcalls as [a|a a1 a2 Hcall _ IH]; [exact Ha|].
    apply IH. exact (method_call_consistent _ _ _ _ Ha Hcall). }
  split; [exact Hb|]. exact (consistent_defined exp show_double b Hb).
Qed.

(** ** What a pass computes *)

Lemma output_at_ext (ns ns' : list Neuron) n :
  map output ns' = map output ns -> output_at ns' n = output_at ns n.
Proof.
  intros H. unfold output_at. rewrite <- !list_lookup_fmap.
  change (output <$> ?l) with (map output l). now rewrite H.
Qed.

Lemma received_ext (ns ns' : list Neuron) k cs s :
  map output ns' = map output ns -> received ns' k cs s = received ns k cs s.
Proof.
  intros H. unfold received. revert s. induction cs as [|c cs IH]; intros s.
  - reflexivity.
  - cbn [fold_left]. rewrite (output_at_ext _ _ _ H). apply IH.
Qed.

Lemma received_cons (ns : list Neuron) k c cs s :
  received ns k (c :: cs) s
  = received ns k cs
      (if target_neuron_idx c =? Z.of_nat k
       then (s + weight c * output_at ns (source_neuron_idx c))%float else s).
Proof. reflexivity. Qed.

Lemma feed_computes cs ns r :
  feed cs ns = Some r ->
  r.1 = map (fun c => set_data c (weight c * output_at ns (source_neuron_idx c))%float) cs
  /\ forall (k : nat) x, ns !! k = Some x ->
       r.2 !! k = Some {| input_sum := received ns k cs (input_sum x);
                          output := output x; type := type x |}.
Proof.
  revert ns r. induction cs as [|c cs IH]; intros ns r Hfeed.
  - injection Hfeed as <-. split; [reflexivity|].
    intros k [s o t] Hx. exact Hx.
  - rewrite feed_cons in Hfeed.
    destruct (at_index ns (source_neuron_idx c)) as [source|] eqn:Hs; [|discriminate].
    destruct (at_index ns (target_neuron_idx c)) as [target|] eqn:Ht; [|discriminate].
    cbn [mbind option_bind] in Hfeed.
    destruct (feed cs _) as [r0|] eqn:Hr0; [|discriminate].
    injection Hfeed as <-. destruct (IH _ _ Hr0) as [Hcs Hk].
    apply at_index_inv in Hs as [_ Hs]. apply at_index_inv in Ht as [Ht0 _].
    assert (Hout : output_at ns (source_neuron_idx c) = output source)
      by (unfold output_at; now rewrite Hs).
    assert (Hmap : map output
                     (alter (add_input (weight c * output source)%float)
                        (Z.to_nat (target_neuron_idx c)) ns)
                   = map output ns)
      by (apply alter_add_input_map; reflexivity).
    cbn [fst snd map]. split.
    + rewrite Hout, Hcs. f_equal. apply map_ext. intros c'.
      now rewrite (output_at_ext _ _ _ Hmap).
    + intros k x Hx. rewrite received_cons, Hout. rewrite <- (received_ext _ _ _ _ _ Hmap).
      destruct (Z.eqb_spec (target_neuron_idx c) (Z.of_nat k)) as [Heq|Hne].
      * apply (Hk k (add_input (weight c * output source)%float x)).
        rewrite Heq, Nat2Z.id, list_lookup_alter_eq, Hx. reflexivity.
      * apply (Hk k x). rewrite list_lookup_alter_ne by lia. exact Hx.
Qed.

(** X8 (activate, the values).  On a network with total_num_neurons neurons
    and every edge between existing neurons, one pass gives each connection
    the data weight * output of its source, with the outputs as they were
    before the pass; every neuron from num_input on gets as output the
    sigmoid of the sum it had plus the data of the connections that target
    it, added in the order of the connection vector, and a zero sum; a
    neuron below num_input keeps its output and keeps accumulating what its
    incoming connections carry. *)
Theorem activate_computes (exp : double -> double) (a : ANN) :
  0 <= num_input a -> neurons_allocated a -> edges_in_range a ->
  exists b,
    activate exp a = Some b
    /\ connections b
       = map (fun c => set_data c (weight c
                                   * output_at (neurons a) (source_neuron_idx c))%float)
             (connections a)
    /\ forall (k : nat) nr, neurons a !! k = Some nr ->
         neurons b !! k
         = Some (if decide (num_input a <= Z.of_nat k)
                 then {| input_sum := 0;
                         output := sigmoid_AF exp
                                     (received (neurons a) k (connections a)
                                        (input_sum nr));
                         type := type nr |}
                 else {| input_sum := received (neurons a) k (connections a)
                                        (input_sum nr);
                         output := output nr; type := type nr |}).
Proof.
  intros HI Hall Hedges.
  destruct (feed_spec _ _ Hedges) as (r & Hr & Hlen & _).
  destruct (feed_computes _ _ _ Hr) as [Hcs Hk].
  destruct (fire_loop exp (num_input a) r.2 HI) as (ns & Hns & _ & Hk').
  unfold activate. rewrite Hr. cbn [mbind option_bind].
  unfold neurons_allocated in Hall. rewrite <- Hall, <- Hlen, Hns.
  cbn [mbind option_bind]. eexists. split; [reflexivity|].
  cbn [connections neurons set_connections set_neurons].
  split; [exact Hcs|]. intros k nr Hnr.
  rewrite (Hk' k _ (Hk k nr Hnr)).
  destruct (decide (num_input a <= Z.of_nat k)); reflexivity.
Qed.

(** ** setInput, twice and before getOutput *)

Lemma for_loop_ext_in {S : Type} (body body' : Z -> S -> option S) ns s :
  (forall n s, In n ns -> body n s = body' n s) ->
  for_loop ns body s = for_loop ns body' s.
Proof.
  revert s. induction ns as [|n ns IH]; intros s Hext; [reflexivity|].
  rewrite !for_loop_cons, (Hext n s) by (left; reflexivity).
  destruct (body' n s) as [s'|]; [|reflexivity]. cbn [mbind option_bind].
  apply IH. intros m t Hm. apply Hext. right. exact Hm.
Qed.

Lemma update_loop_in_range {A : Type} (F : Z -> A -> A) ns (v v' : list A) :
  for_loop ns (update_at F) v = Some v' ->
  Forall (fun n => 0 <= n < Z.of_nat (length v)) ns.
Proof.
  revert v. induction ns as [|n ns IH]; intros v Hv; [constructor|].
  rewrite for_loop_cons in Hv.
  destruct (update_at F n v) as [w|] eqn:Hw; [|discriminate].
  cbn [mbind option_bind] in Hv. unfold update_at in Hw.
  destruct (at_index v n) as [x|] eqn:Hx; [|discriminate].
  injection Hw as <-. apply at_index_inv in Hx as [Hn _].
  constructor; [exact Hn|]. apply IH in Hv. now rewrite length_insert in Hv.
Qed.

(** The neuron vector after the loop of setInput. *)
Lemma setInput_loop (inputs : list double) I (v v' : list Neuron) :
  for_loop (indices 0 I)
    (update_at (fun n nr => set_output nr (nth (Z.to_nat n) inputs 0%float))) v
  = Some v' ->
  length v' = length v
  /\ forall k : nat,
       v' !! k = (fun nr => if decide (Z.of_nat k < I)
                            then set_output nr (nth k inputs 0%float) else nr)
                 <$> v !! k.
Proof.
  intros Hv. pose proof (update_loop_in_range _ _ _ _ Hv) as Hin.
  destruct (for_loop_update_at
              (fun n nr => set_output nr (nth (Z.to_nat n) inputs 0%float))
              (indices 0 I) v (NoDup_indices 0 I) Hin) as (w & Hw & Hlen & Hk).
  rewrite Hv in Hw. injection Hw as <-. split; [exact Hlen|].
  intros k. destruct (v !! k) as [x|] eqn:Hx.
  - rewrite (Hk k x Hx). cbn. f_equal.
    destruct (decide (Z.of_nat k ∈ indices 0 I)) as [H|H];
      rewrite list_elem_of_In, In_indices in H.
    + rewrite decide_True by lia. now rewrite Nat2Z.id.
    + rewrite decide_False by lia. reflexivity.
  - cbn. apply lookup_ge_None. apply lookup_ge_None in Hx. lia.
Qed.

(** X9 (setInput after setInput).  Of two calls of setInput in a row the
    second decides: given as many values as the network has inputs, it
    returns what it would have returned without the first call. *)
Theorem setInput_overwrites (first second : list double) (a a1 : ANN) (code : Z) :
  setInput first a = Some (code, a1) ->
  Z.of_nat (length second) = num_input a ->
  setInput second a1 = setInput second a.
Proof.
  intros H1 Hlen. unfold setInput in H1 |- *.
  destruct (negb (Z.of_nat (length first) =? num_input a)).
  { injection H1 as _ <-. reflexivity. }
  destruct (for_loop _ _ (neurons a)) as [ns1|] eqn:Hns1; [|discriminate].
  injection H1 as _ <-. cbn [num_input neurons set_neurons].
  destruct (Z.eqb_spec (Z.of_nat (length second)) (num_input a)) as [_|Hne];
    [cbn [negb]|contradiction].
  apply setInput_loop in Hns1 as [Hl1 Hk1].
  set (F := fun n nr => set_output nr (nth (Z.to_nat n) second 0%float)).
  change ((ns ← for_loop (indices 0 (num_input a)) (update_at F) ns1;
           Some (0, set_neurons (set_neurons a ns1) ns))
          = (ns ← for_loop (indices 0 (num_input a)) (update_at F) (neurons a);
             Some (0, set_neurons a ns))).
  destruct (for_loop _ _ (neurons a)) as [v|] eqn:Hv.
  - pose proof (update_loop_in_range _ _ _ _ Hv) as Hin.
    rewrite <- Hl1 in Hin.
    destruct (for_loop_update_at F (indices 0 (num_input a)) ns1
                (NoDup_indices _ _) Hin) as (w & Hw & _).
    rewrite Hw. cbn [mbind option_bind]. do 2 f_equal.
    unfold set_neurons. cbn. f_equal.
    apply setInput_loop in Hw as [_ Hkw]. apply setInput_loop in Hv as [_ Hkv].
    apply list_eq. intros k. rewrite Hkw, Hkv, Hk1.
    destruct (neurons a !! k) as [x|]; [|reflexivity]. cbn. f_equal.
    destruct (decide (Z.of_nat k < num_input a)); reflexivity.
  - destruct (for_loop _ _ ns1) as [w|] eqn:Hw; [|reflexivity]. exfalso.
    pose proof (update_loop_in_range _ _ _ _ Hw) as Hin. rewrite Hl1 in Hin.
    destruct (for_loop_update_at F (indices 0 (num_input a)) (neurons a)
                (NoDup_indices _ _) Hin) as (w' & Hw' & _).
    congruence.
Qed.

(** X10 (setInput before getOutput).  On a network whose num_input is not
    above num_iPLUSh, setInput does not change what getOutput returns: new
    inputs reach the outputs only through activate. *)
Theorem setInput_keeps_getOutput (inputs : list double) (a a1 : ANN) (code : Z) :
  setInput inputs a = Some (code, a1) ->
  num_input a <= num_iPLUSh a ->
  getOutput a1 = getOutput a.
Proof.
  intros H1 Hle. unfold setInput in H1.
  destruct (negb _); [injection H1 as _ <-; reflexivity|].
  destruct (for_loop _ _ (neurons a)) as [ns1|] eqn:Hns1; [|discriminate].
  injection H1 as _ <-. apply setInput_loop in Hns1 as [Hl1 Hk1].
  unfold getOutput. cbn [num_iPLUSh total_num_neurons neurons set_neurons].
  apply for_loop_ext_in. intros n out Hn. apply In_indices in Hn.
  assert (Hat : at_index ns1 n = at_index (neurons a) n).
  { unfold at_index. destruct (n <? 0) eqn:Hneg; [reflexivity|].
    apply Z.ltb_ge in Hneg. rewrite Hk1.
    destruct (neurons a !! Z.to_nat n) as [x|]; [|reflexivity]. cbn.
    rewrite decide_False by lia. reflexivity. }
  now rewrite Hat.
Qed.

(** ** The C interface *)

Lemma at_index_nth (v : list double) n :
  0 <= n < Z.of_nat (length v) -> at_index v n = Some (nth (Z.to_nat n) v 0%float).
Proof.
  intros Hn. destruct (at_index_Some v n Hn) as [x Hx]. rewrite Hx.
  apply at_index_inv in Hx as [_ Hx]. now rewrite nth_lookup, Hx.
Qed.

(** The copy loop of getOutput_ANN, as a loop of in-place updates. *)
Lemma copy_loop (v outs : list double) count :
  count <= Z.of_nat (length v) ->
  for_loop (indices 0 count)
    (fun i outs => x ← at_index v i; _ ← at_index outs i;
                   Some (<[Z.to_nat i := x]> outs)) outs
  = for_loop (indices 0 count)
      (update_at (fun n _ => nth (Z.to_nat n) v 0%float)) outs.
Proof.
  intros Hv. apply for_loop_ext_in. intros n s Hn. apply In_indices in Hn.
  rewrite (at_index_nth v n) by lia. unfold update_at. cbn [mbind option_bind].
  destruct (at_index s n); reflexivity.
Qed.

Lemma copy_loop_result (v outs : list double) count :
  0 <= count -> count <= Z.of_nat (length v) -> count <= Z.of_nat (length outs) ->
  for_loop (indices 0 count)
    (update_at (fun n _ => nth (Z.to_nat n) v 0%float)) outs
  = Some (take (Z.to_nat count) v ++ drop (Z.to_nat count) outs).
Proof.
  intros H0 Hv Ho.
  destruct (for_loop_update_at (fun n (_ : double) => nth (Z.to_nat n) v 0%float)
              (indices 0 count) outs (NoDup_indices _ _))
    as (w & Hw & Hlen & Hk).
  { apply Forall_forall. intros n Hn. apply list_elem_of_In, In_indices in Hn. lia. }
  rewrite Hw. f_equal. apply list_eq. intros k.
  destruct (decide (k < Z.to_nat count)%nat) as [Hlt|Hge].
  - rewrite lookup_app_l by (rewrite length_take; lia).
    rewrite lookup_take_lt by lia.
    destruct (lookup_lt_is_Some_2 outs k) as [x Hx]; [lia|].
    rewrite (Hk k x Hx), decide_True
      by (rewrite list_elem_of_In, In_indices; lia).
    rewrite Nat2Z.id, nth_lookup.
    destruct (lookup_lt_is_Some_2 v k) as [y ->]; [lia|]. reflexivity.
  - rewrite lookup_app_r by (rewrite length_take; lia).
    rewrite length_take, lookup_drop.
    replace (Z.to_nat count + (k - Z.to_nat count `min` length v))%nat with k by lia.
    destruct (outs !! k) as [x|] eqn:Hx.
    + rewrite (Hk k x Hx), decide_False
        by (rewrite list_elem_of_In, In_indices; lia).
      reflexivity.
    + apply lookup_ge_None. apply lookup_ge_None in Hx. lia.
Qed.

Lemma getOutput_ANN_core (net : ANN) (outputs : list double) :
  layout net -> neurons_allocated net ->
  (num_output net <= Z.of_nat (length outputs) ->
   getOutput_ANN net outputs (num_output net)
   = Some (0, map output (drop (Z.to_nat (num_iPLUSh net)) (neurons net))
              ++ drop (Z.to_nat (num_output net)) outputs))
  /\ (Z.of_nat (length outputs) < num_output net ->
      getOutput_ANN net outputs (num_output net) = None).
Proof.
  intros (HI & HH & HO & Hih & Htot & Hmax) Hall. unfold getOutput_ANN.
  unfold neurons_allocated in Hall. rewrite Z.eqb_refl. cbn [negb].
  rewrite getOutput_slice by lia. cbn [mbind option_bind].
  rewrite take_ge by (rewrite length_drop; lia).
  set (v := map output (drop (Z.to_nat (num_iPLUSh net)) (neurons net))).
  assert (Hv : Z.of_nat (length v) = num_output net)
    by (unfold v; rewrite length_map, length_drop; lia).
  rewrite copy_loop by lia. split.
  - intros Hlen. rewrite copy_loop_result by lia. cbn [mbind option_bind].
    rewrite take_ge by lia. reflexivity.
  - intros Hlen.
    destruct (for_loop _ _ outputs) as [w|] eqn:Hw; [|reflexivity]. exfalso.
    apply update_loop_in_range in Hw. rewrite List.Forall_forall in Hw.
    specialize (Hw (Z.of_nat (length outputs))). rewrite In_indices in Hw. lia.
Qed.

(** X11 (getOutput_ANN).  With a count other than num_output the function
    returns -1 and leaves the buffer alone.  With count = num_output, on a
    network that follows the index layout and has total_num_neurons
    neurons, it returns 0 and the buffer holds the outputs of the output
    neurons in its first count places, the rest as before; a buffer shorter
    than count is written past its end. *)
Theorem getOutput_ANN_spec (net : ANN) (outputs : list double) (count : Z) :
  (count <> num_output net -> getOutput_ANN net outputs count = Some (-1, outputs))
  /\ (count = num_output net -> layout net -> neurons_allocated net ->
      (count <= Z.of_nat (length outputs) ->
       getOutput_ANN net outputs count
       = Some (0, map output (drop (Z.to_nat (num_iPLUSh net)) (neurons net))
                  ++ drop (Z.to_nat count) outputs))
      /\ (Z.of_nat (length outputs) < count ->
          getOutput_ANN net outputs count = None)).
Proof.
  split.
  - intros Hne. unfold getOutput_ANN.
    destruct (Z.eqb_spec count (num_output net)); [lia|reflexivity].
  - intros -> Hlay Hall. exact (getOutput_ANN_core net outputs Hlay Hall).
Qed.

(** X12 (setInput_ANN, activate_ANN, getOutput_ANN).  On a consistent
    network, with num_input and num_output as the two counts and buffers
    that hold at least that many values, setting the inputs, activating and
    fetching the outputs through the C interface each have a defined
    result, the two that report one return 0, only the first num_input
    values of the input buffer are used, and the output buffer receives
    what getOutput returns after the pass in its first num_output places. *)
Theorem interface_round (exp : double -> double) (net : ANN)
    (inputs outputs : list double) :
  consistent net ->
  num_input net <= Z.of_nat (length inputs) ->
  num_output net <= Z.of_nat (length outputs) ->
  exists a1 a2 out,
    setInput_ANN net inputs (num_input net) = Some (0, a1)
    /\ setInput (take (Z.to_nat (num_input net)) inputs) net = Some (0, a1)
    /\ activate_ANN exp a1 = Some a2
    /\ getOutput a2 = Some out
    /\ getOutput_ANN a2 outputs (num_output net)
       = Some (0, out ++ drop (Z.to_nat (num_output net)) outputs).
Proof.
  intros Hcons Hin Hout.
  pose proof Hcons as ((HI & HH & HO & Hih & Htot & Hmax) & Hall & _).
  assert (Hbuf : read_buffer inputs (num_input net)
                 = Some (take (Z.to_nat (num_input net)) inputs)).
  { unfold read_buffer.
    destruct (Z.ltb_spec (num_input net) 0); [lia|].
    destruct (Z.ltb_spec (Z.of_nat (length inputs)) (num_input net)); [lia|].
    reflexivity. }
  assert (Hset : exists a1, setInput (take (Z.to_nat (num_input net)) inputs) net
                            = Some (0, a1)).
  { unfold setInput. rewrite length_take.
    destruct (Z.eqb_spec (Z.of_nat (Z.to_nat (num_input net) `min` length inputs))
                (num_input net)); [cbn [negb]|lia].
    destruct (for_loop_update_at
                (fun n nr => set_output nr
                               (nth (Z.to_nat n)
                                  (take (Z.to_nat (num_input net)) inputs) 0%float))
                (indices 0 (num_input net)) (neurons net)) as (ns & Hns & _).
    { apply NoDup_indices. }
    { apply Forall_forall. intros n Hn. apply list_elem_of_In, In_indices in Hn.
      unfold neurons_allocated in Hall. lia. }
    unfold update_at in Hns. rewrite Hns. eexists. reflexivity. }
  destruct Hset as [a1 Hset].
  assert (Hc1 : consistent a1).
  { apply (method_call_consistent exp 0 net a1 Hcons).
    exact (call_setInput exp 0 net _ _ _ Hset). }
  destruct (consistent_defined exp (fun _ => EmptyString) a1 Hc1)
    as (_ & _ & [a2 Hact] & _).
  assert (Hm2 : method_call exp 0 a1 a2) by (apply call_activate; exact Hact).
  pose proof (method_call_consistent exp 0 a1 a2 Hc1 Hm2)
    as (Hlay2 & Hall2 & _).
  assert (Hcounts : counts_of a2 = counts_of net).
  { destruct (method_call_preserves _ _ _ _ Hm2) as (Hp2 & _).
    destruct (method_call_preserves _ _ _ _ (call_setInput exp 0 net _ _ _ Hset))
      as (Hp1 & _).
    congruence. }
  unfold counts_of in Hcounts. injection Hcounts as E1 E2 E3 E4 E5.
  pose proof Hlay2 as (HI2 & HH2 & HO2 & Hih2 & Htot2 & Hmax2).
  pose proof Hall2 as Hall2'. unfold neurons_allocated in Hall2'.
  exists a1, a2, (map output (drop (Z.to_nat (num_iPLUSh a2)) (neurons a2))).
  split; [unfold setInput_ANN; rewrite Hbuf; exact Hset|].
  split; [exact Hset|]. split; [exact Hact|]. split.
  - rewrite getOutput_slice by lia.
    rewrite take_ge by (rewrite length_drop; lia). reflexivity.
  - rewrite <- E3.
    destruct (getOutput_ANN_core a2 outputs) as [H _]; [exact Hlay2|exact Hall2|].
    apply H. lia.
Qed.

(** ** stream *)

(** X13 (ANN::stream, print_ANN).  The description lists the connections up
    to the recorded number, not up to the size of the vector.  On a network
    with total_num_neurons neurons it has a defined result exactly when the
    recorded number of connections is not above the number of connections
    held; beyond that the loop reads past the end of the vector. *)
Theorem stream_defined_iff (show_double : double -> string) (a : ANN) :
  neurons_allocated a -> 0 <= total_num_connections a ->
  (is_Some (stream show_double a)
   <-> total_num_connections a <= Z.of_nat (length (connections a))).
Proof.
  intros Hall H0. split; [|apply stream_defined; exact Hall].
  unfold stream. intros Hs.
  match type of Hs with
  | is_Some (?m ≫= _) => destruct m as [s1|]; [|destruct Hs; discriminate]
  end.
  cbn [mbind option_bind] in Hs.
  apply (for_loop_read_inv (connections a)
           (fun s conn =>
              (s ++ put_int (source_neuron_idx conn) ++ " --> "
                 ++ put_int (target_neuron_idx conn) ++ " : "
                 ++ show_double (weight conn) ++ endl)%string)) in Hs.
  destruct (Z_le_gt_dec (total_num_connections a)
              (Z.of_nat (length (connections a)))) as [Hle|Hgt]; [exact Hle|].
  rewrite List.Forall_forall in Hs.
  specialize (Hs (Z.of_nat (length (connections a)))).
  rewrite In_indices in Hs. lia.
Qed.

(** ** randomizeW, again *)

(** X14 (randomizeW after randomizeW).  The weights a call of randomizeW
    assigns do not depend on the weights before: after an earlier call,
    with whatever interval and draws, a call that passes the test of its
    interval returns what it would have returned without the earlier one. *)
Theorem randomizeW_forgets_weights (RAND_MAX : Z) (min max min' max' : double)
    (a a1 : ANN) (g g1 g' : RandSource) (code : Z) :
  randomizeW RAND_MAX min max a g = (code, a1, g1) ->
  (max' <=? min')%float = false ->
  randomizeW RAND_MAX min' max' a1 g' = randomizeW RAND_MAX min' max' a g'.
Proof.
  intros H1 Hlt. unfold randomizeW in *. rewrite Hlt.
  destruct (max <=? min)%float; [injection H1 as _ <- _; reflexivity|].
  rewrite randomize_all_spec in H1. injection H1 as _ <- _.
  rewrite !randomize_all_spec. cbn [connections set_connections].
  rewrite length_imap.
  match goal with
  | |- (_, set_connections _ (imap ?F (imap ?G ?cs)), _) = _ =>
      assert (Hcs : imap F (imap G cs) = imap F cs)
  end.
  { apply list_eq. intros k. rewrite !list_lookup_imap.
    destruct (connections a !! k); reflexivity. }
  rewrite Hcs. reflexivity.
Qed.

(** ** Persistence, again *)









Lemma deserialize_written (show_double : double -> string)
    (read_double : string -> option double) (a a0 : ANN) :
  header_typed a -> Forall edge_typed (connections a) ->
  neurons_allocated a ->
  total_num_connections a = Z.of_nat (length (connections a)) ->
  Forall (fun c => is_Some (read_double (show_double (weight c)))) (connections a) ->
  exists cs',
    deserialize read_double a0 (Some (serialize_lines show_double a))
    = Some (0, {| num_input := num_input a; num_hidden := num_hidden a;
                  num_output := num_output a; num_iPLUSh := num_iPLUSh a;
                  total_num_neurons := total_num_neurons a;
                  neurons := map (fun nr => new_Neuron (type nr)) (neurons a);
                  total_num_connections := total_num_connections a;
                  connections := cs' |})
    /\ map Some cs' = map (reread show_double read_double) (connections a).
Proof.
  intros (HI & HH & HO & Hih & Htot & Hcnt) Hty Hall Hrec Hw.
  unfold neurons_allocated in Hall.
  destruct (read_connections_written show_double read_double
              (connections a) [] Hty Hw) as (cs' & Hcs' & Hmap).
  rewrite app_nil_r in Hcs'. exists cs'. split; [|exact Hmap].
  unfold deserialize, serialize_lines. cbn [app extract].
  rewrite !get_put_ushort by assumption. read_step.
  rewrite get_put_ushort by assumption. read_step.
  rewrite get_put_ushort by assumption. read_step.
  rewrite get_put_ushort by assumption. read_step.
  rewrite get_put_ushort by assumption. read_step.
  rewrite <- Hall, Nat2Z.id, read_neurons_written.
  read_step.
  rewrite get_put_ushort by assumption. read_step.
  rewrite Hrec, Nat2Z.id, Hcs'. read_step.
  rewrite Hall. reflexivity.
Qed.

Lemma rewritten_edges (show_double : double -> string)
    (read_double : string -> option double) (cs cs' : list Connection) :
  map Some cs' = map (reread show_double read_double) cs ->
  Forall (fun c => exists w, read_double (show_double (weight c)) = Some w
                             /\ show_double w = show_double (weight c)) cs ->
  flat_map (fun c => [put_int (source_neuron_idx c);
                      put_int (target_neuron_idx c);
                      show_double (weight c)]) cs'
  = flat_map (fun c => [put_int (source_neuron_idx c);
                        put_int (target_neuron_idx c);
                        show_double (weight c)]) cs.
Proof.
  revert cs'. induction cs as [|c cs IH]; intros [|c' cs']; cbn [map];
    try discriminate; [reflexivity|].
  intros [= Hc Hcs] Hall. apply Forall_cons in Hall as [(w & Hw & Hshow) Hall].
  unfold reread in Hc. rewrite Hw in Hc. cbn [mbind option_bind] in Hc.
  injection Hc as ->. cbn [flat_map app source_neuron_idx target_neuron_idx weight].
  rewrite Hshow, (IH cs' Hcs Hall). reflexivity.
Qed.

(** X17 (serialize after the file constructor).  Let a network have
    unsigned short header numbers and edge indices, total_num_neurons
    neurons, and record as many connections as it holds, and let the text
    of each weight read back to a double that has the same text.  Then the
    file serialize writes is read by the file constructor, and serializing
    the network so read writes the same file again: what a round trip
    changes of the weights, it changes once. *)
Theorem serialize_stable (show_double : double -> string)
    (read_double : string -> option double) (a : ANN) (h : Z * Z * Z * Z * Z * Z) :
  header_typed a -> Forall edge_typed (connections a) ->
  neurons_allocated a ->
  total_num_connections a = Z.of_nat (length (connections a)) ->
  Forall (fun c => exists w, read_double (show_double (weight c)) = Some w
                             /\ show_double w = show_double (weight c))
         (connections a) ->
  exists f a',
    serialize show_double a true = (0, Some f)
    /\ ANN_from_file read_double h (Some f) = Some a'
    /\ serialize show_double a' true = (0, Some f).
Proof.
  intros Hh Hty Hall Hrec Hw.
  destruct (deserialize_written show_double read_double a (uninitialised h)
              Hh Hty Hall Hrec) as (cs' & Hd & Hmap).
  { eapply Forall_impl; [exact Hw|]. intros c (w & Hc & _). exists w. exact Hc. }
  eexists. eexists. split; [reflexivity|]. unfold ANN_from_file.
  rewrite Hd. cbn [mbind option_bind snd]. split; [reflexivity|].
  unfold serialize, serialize_lines.
  cbn [num_input num_hidden num_output num_iPLUSh total_num_neurons
       total_num_connections neurons connections].
  rewrite map_map. cbn [type new_Neuron].
  rewrite (rewritten_edges _ _ _ _ Hmap Hw). reflexivity.
Qed.

(** ** When a pass is defined *)

Lemma feed_in_range cs ns r :
  feed cs ns = Some r -> Forall (edge_in_range (length ns)) cs.
Proof.
  revert ns r. induction cs as [|c cs IH]; intros ns r Hfeed; [constructor|].
  rewrite feed_cons in Hfeed.
  destruct (at_index ns (source_neuron_idx c)) as [source|] eqn:Hs; [|discriminate].
  destruct (at_index ns (target_neuron_idx c)) as [target|] eqn:Ht; [|discriminate].
  cbn [mbind option_bind] in Hfeed.
  destruct (feed cs _) as [r0|] eqn:Hr0; [|discriminate].
  apply IH in Hr0. rewrite length_alter in Hr0.
  apply at_index_inv in Hs as [Hs _]. apply at_index_inv in Ht as [Ht _].
  constructor; [split; assumption|exact Hr0].
Qed.

(** X18 (activate, when it is defined).  On a network with
    total_num_neurons neurons, a pass has a defined result exactly when
    every connection has its source and its target among the neurons; a
    single index equal to total_num_neurons or above makes the first loop
    read or write past the end of the neuron vector. *)
Theorem activate_defined_iff (exp : double -> double) (a : ANN) :
  0 <= num_input a -> neurons_allocated a ->
  (is_Some (activate exp a) <-> edges_in_range a).
Proof.
  intros HI Hall. split.
  - intros [b Hb]. unfold activate in Hb.
    destruct (feed _ _) as [r|] eqn:Hr; [|discriminate].
    exact (feed_in_range _ _ _ Hr).
  - intros Hedges. destruct (feed_spec _ _ Hedges) as (r & Hr & Hlen & _).
    destruct (fire_loop exp (num_input a) r.2 HI) as (ns & Hns & _).
    unfold activate. rewrite Hr. cbn [mbind option_bind].
    unfold neurons_allocated in Hall. rewrite <- Hall, <- Hlen, Hns.
    eexists. reflexivity.
Qed.

(** ** Three passes over two layers of edges *)

Lemma received_set_data (ns : list Neuron) k (g : Connection -> double) cs s :
  received ns k (map (fun c => set_data c (g c)) cs) s = received ns k cs s.
Proof.
  revert s. induction cs as [|c cs IH]; intros s; [reflexivity|].
  cbn [map]. rewrite !received_cons. cbn [set_data target_neuron_idx
    source_neuron_idx weight]. apply IH.
Qed.

Lemma received_agree (ns ns' : list Neuron) k cs s :
  Forall (fun c => target_neuron_idx c = Z.of_nat k ->
                   output_at ns (source_neuron_idx c)
                   = output_at ns' (source_neuron_idx c)) cs ->
  received ns k cs s = received ns' k cs s.
Proof.
  intros Hall. revert s. induction Hall as [|c cs Hc _ IH]; intros s; [reflexivity|].
  rewrite !received_cons.
  destruct (Z.eqb_spec (target_neuron_idx c) (Z.of_nat k)) as [Heq|_];
    [rewrite (Hc Heq)|]; apply IH.
Qed.

Lemma output_at_lookup (ns : list Neuron) n nr :
  ns !! Z.to_nat n = Some nr -> output_at ns n = output nr.
Proof. intros H. unfold output_at. now rewrite H. Qed.

(** One pass over a rested network. *)
Lemma pass_step (exp : double -> double) (a : ANN) :
  0 <= num_input a -> neurons_allocated a -> edges_in_range a -> rested a ->
  exists b,
    activate exp a = Some b
    /\ counts_of b = counts_of a /\ neurons_allocated b /\ edges_in_range b
    /\ rested b
    /\ (exists g, connections b = map (fun c => set_data c (g c)) (connections a))
    /\ length (neurons b) = length (neurons a)
    /\ forall (k : nat) nr, neurons a !! k = Some nr ->
         exists nr', neurons b !! k = Some nr'
           /\ output nr'
              = if decide (num_input a <= Z.of_nat k)
                then sigmoid_AF exp (received (neurons a) k (connections a) 0)
                else output nr.
Proof.
  intros HI Hall Hedges Hrest.
  destruct (feed_spec _ _ Hedges) as (r & Hr & Hlenr & _).
  destruct (feed_computes _ _ _ Hr) as [Hcs Hkr].
  destruct (fire_loop exp (num_input a) r.2 HI) as (ns & Hns & _ & Hk').
  assert (Hb : activate exp a = Some (set_connections (set_neurons a ns) r.1)).
  { unfold activate. rewrite Hr. cbn [mbind option_bind].
    unfold neurons_allocated in Hall. rewrite <- Hall, <- Hlenr, Hns. reflexivity. }
  assert (Hk : forall (k : nat) nr, neurons a !! k = Some nr ->
            ns !! k
            = Some (if decide (num_input a <= Z.of_nat k)
                    then fired exp {| input_sum := received (neurons a) k
                                                     (connections a) (input_sum nr);
                                      output := output nr; type := type nr |}
                    else {| input_sum := received (neurons a) k (connections a)
                                           (input_sum nr);
                            output := output nr; type := type nr |}))
    by (intros k nr Hnr; exact (Hk' k _ (Hkr k nr Hnr))).
  remember (set_connections (set_neurons a ns) r.1) as b eqn:Eb.
  assert (Hcsb : connections b
                 = map (fun c => set_data c
                                   (weight c * output_at (neurons a)
                                                 (source_neuron_idx c))%float)
                       (connections a)) by (rewrite Eb; exact Hcs).
  assert (Hkb : forall (k : nat) nr, neurons a !! k = Some nr ->
            neurons b !! k
            = Some (if decide (num_input a <= Z.of_nat k)
                    then fired exp {| input_sum := received (neurons a) k
                                                     (connections a) (input_sum nr);
                                      output := output nr; type := type nr |}
                    else {| input_sum := received (neurons a) k (connections a)
                                           (input_sum nr);
                            output := output nr; type := type nr |}))
    by (rewrite Eb; exact Hk).
  exists b. split; [exact Hb|].
  pose proof (call_activate exp 0 a b Hb) as Hcall.
  destruct (method_call_preserves _ _ _ _ Hcall) as (Hc & Hlen & _).
  pose proof Hc as Hc'. unfold counts_of in Hc'. injection Hc' as E1 E2 E3 E4 E5.
  split; [exact Hc|]. split; [unfold neurons_allocated in *; congruence|].
  split.
  { unfold edges_in_range. rewrite Hlen, Hcsb.
    apply (edges_in_range_endpoints _ (connections a)); [|exact Hedges].
    rewrite map_map. reflexivity. }
  split; [exact (activate_rested exp a b HI Hall Hb)|].
  split; [eexists; exact Hcsb|]. split; [exact Hlen|].
  intros k nr Hnr. rewrite (Hkb k nr Hnr). eexists. split; [reflexivity|].
  destruct (decide (num_input a <= Z.of_nat k)) as [Hge|Hlt];
    unfold fired; cbn [output input_sum]; [|reflexivity].
  now rewrite (rested_lookup a k nr Hrest HI Hnr Hge).
Qed.

(** X19 (activate, three times).  On a network whose sums are at rest and
    whose edges go from inputs to hidden neurons or from hidden neurons to
    outputs, as fullyConnectFF builds them, the third of three passes in a
    row changes no output: the inputs reach the hidden layer in the first
    pass and the outputs in the second. *)
Theorem activate_thrice_two_hop (exp : double -> double) (a : ANN) :
  0 <= num_input a -> neurons_allocated a -> edges_in_range a ->
  rested a -> two_hop a ->
  exists a1 a2 a3,
    activate exp a = Some a1 /\ activate exp a1 = Some a2
    /\ activate exp a2 = Some a3
    /\ map output (neurons a3) = map output (neurons a2)
    /\ getOutput a3 = getOutput a2.
Proof.
  intros HI Hall Hedges Hrest Hhop.
  destruct (pass_step exp a HI Hall Hedges Hrest)
    as (a1 & Ha1 & Hc1 & Hall1 & Hedges1 & Hrest1 & [g1 Hcs1] & Hlen1 & Hk1).
  pose proof Hc1 as Hc1'. unfold counts_of in Hc1'.
  injection Hc1' as E1 E2 E3 E4 E5.
  assert (HI1 : 0 <= num_input a1) by lia.
  destruct (pass_step exp a1 HI1 Hall1 Hedges1 Hrest1)
    as (a2 & Ha2 & Hc2 & Hall2 & Hedges2 & Hrest2 & [g2 Hcs2] & Hlen2 & Hk2).
  pose proof Hc2 as Hc2'. unfold counts_of in Hc2'.
  injection Hc2' as F1 F2 F3 F4 F5.
  assert (HI2 : 0 <= num_input a2) by lia.
  destruct (pass_step exp a2 HI2 Hall2 Hedges2 Hrest2)
    as (a3 & Ha3 & Hc3 & Hall3 & Hedges3 & Hrest3 & [g3 Hcs3] & Hlen3 & Hk3).
  pose proof Hc3 as Hc3'. unfold counts_of in Hc3'.
  injection Hc3' as G1 G2 G3 G4 G5.
  exists a1, a2, a3. split; [exact Ha1|]. split; [exact Ha2|]. split; [exact Ha3|].
  rewrite Hcs2, Hcs1 in Hk3. rewrite Hcs1 in Hk2.
  rewrite F1, E1 in Hk3. rewrite E1 in Hk2.
  assert (Hk3' : forall (k : nat) nr, neurons a2 !! k = Some nr ->
            exists nr', neurons a3 !! k = Some nr'
              /\ output nr'
                 = if decide (num_input a <= Z.of_nat k)
                   then sigmoid_AF exp (received (neurons a2) k (connections a) 0)
                   else output nr).
  { intros k nr Hnr. destruct (Hk3 k nr Hnr) as (nr' & Hnr' & Ho).
    exists nr'. split; [exact Hnr'|]. now rewrite !received_set_data in Ho. }
  assert (Hk2' : forall (k : nat) nr, neurons a1 !! k = Some nr ->
            exists nr', neurons a2 !! k = Some nr'
              /\ output nr'
                 = if decide (num_input a <= Z.of_nat k)
                   then sigmoid_AF exp (received (neurons a1) k (connections a) 0)
                   else output nr).
  { intros k nr Hnr. destruct (Hk2 k nr Hnr) as (nr' & Hnr' & Ho).
    exists nr'. split; [exact Hnr'|]. now rewrite received_set_data in Ho. }
  clear Hk2 Hk3.
  unfold edges_in_range in Hedges. unfold two_hop in Hhop.
  rewrite List.Forall_forall in Hedges, Hhop.
  (* the outputs of the inputs never change *)
  assert (Hin : forall n, 0 <= n < num_input a -> n < Z.of_nat (length (neurons a)) ->
            output_at (neurons a1) n = output_at (neurons a) n
            /\ output_at (neurons a2) n = output_at (neurons a1) n).
  { intros n Hn Hlt.
    destruct (lookup_lt_is_Some_2 (neurons a) (Z.to_nat n)) as [x Hx]; [lia|].
    destruct (Hk1 _ _ Hx) as (x1 & Hx1 & Ho1).
    destruct (Hk2' _ _ Hx1) as (x2 & Hx2 & Ho2).
    rewrite decide_False in Ho1, Ho2 by lia.
    rewrite (output_at_lookup _ _ _ Hx), (output_at_lookup _ _ _ Hx1),
      (output_at_lookup _ _ _ Hx2). split; congruence. }
  (* the hidden layer is settled after the first pass *)
  assert (Hhid : forall n, num_input a <= n < num_iPLUSh a ->
            n < Z.of_nat (length (neurons a)) ->
            output_at (neurons a2) n = output_at (neurons a1) n).
  { intros n Hn Hlt.
    destruct (lookup_lt_is_Some_2 (neurons a) (Z.to_nat n)) as [x Hx]; [lia|].
    destruct (Hk1 _ _ Hx) as (x1 & Hx1 & Ho1).
    destruct (Hk2' _ _ Hx1) as (x2 & Hx2 & Ho2).
    rewrite decide_True in Ho1, Ho2 by lia.
    rewrite (output_at_lookup _ _ _ Hx1), (output_at_lookup _ _ _ Hx2), Ho1, Ho2.
    f_equal. apply received_agree. apply List.Forall_forall. intros c Hc Ht.
    destruct (Hedges c Hc) as [Hs _].
    destruct (Hhop c Hc) as [[Hsrc _]|[_ Htrg]]; [|lia].
    apply (Hin (source_neuron_idx c)); lia. }
  assert (Hout : map output (neurons a3) = map output (neurons a2)).
  { apply list_eq. intros k. change (map output ?l) with (output <$> l).
    rewrite !list_lookup_fmap.
    destruct (neurons a2 !! k) as [x2|] eqn:Hx2.
    - destruct (Hk3' _ _ Hx2) as (x3 & Hx3 & Ho3). rewrite Hx3. cbn. f_equal.
      rewrite Ho3. destruct (decide (num_input a <= Z.of_nat k)) as [Hge|Hlt];
        [|reflexivity].
      assert (Hk : (k < length (neurons a1))%nat)
        by (rewrite <- Hlen2; exact (lookup_lt_Some _ _ _ Hx2)).
      destruct (lookup_lt_is_Some_2 (neurons a1) k Hk) as [x1 Hx1].
      destruct (Hk2' _ _ Hx1) as (x2' & Hx2' & Ho2).
      rewrite Hx2 in Hx2'. injection Hx2' as <-.
      rewrite Ho2, decide_True by exact Hge. f_equal.
      apply received_agree. apply List.Forall_forall. intros c Hc Ht.
      destruct (Hedges c Hc) as [Hs _].
      destruct (Hhop c Hc) as [[Hsrc _]|[Hsrc _]].
      + apply (Hin (source_neuron_idx c)); lia.
      + apply (Hhid (source_neuron_idx c)); lia.
    - cbn. apply fmap_None, lookup_ge_None. apply lookup_ge_None in Hx2. lia. }
  split; [exact Hout|]. apply getOutput_ext; [lia|lia|exact Hout].
Qed.

(** ** The shape fullyConnectFF gives *)

Lemma fullyConnectFF_shape (a b : ANN) :
  layout a -> fullyConnectFF a = Some b -> two_hop b.
Proof.
  intros Hlay Hb. destruct (fullyConnectFF_connects a Hlay) as [Hff _].
  rewrite Hff in Hb. injection Hb as <-.
  destruct Hlay as (HI & HH & HO & Hih & Htot & Hmax).
  unfold two_hop. cbn [connections num_input num_iPLUSh].
  rewrite List.Forall_forall. intros c Hin.
  apply in_map_iff in Hin as ([s t] & <- & Hp). cbn.
  apply in_app_or in Hp as [Hp|Hp]; apply in_prod_iff in Hp as [Hs Ht];
    apply In_indices in Hs, Ht; lia.
Qed.

Lemma two_hop_endpoints (a b : ANN) :
  counts_of b = counts_of a ->
  map endpoints (connections b) = map endpoints (connections a) ->
  two_hop a -> two_hop b.
Proof.
  unfold counts_of, two_hop. intros [= -> _ _ -> _].
  generalize (connections a) (connections b). clear.
  intros cs. induction cs as [|c cs IH]; intros [|c' cs']; cbn; try discriminate.
  - constructor.
  - intros [= Hs Ht Hcs] Hall. apply Forall_cons in Hall as [Hc Hall].
    constructor; [rewrite Hs, Ht; exact Hc|exact (IH cs' Hcs Hall)].
Qed.

(** X23 (fullyConnectFF, then any calls).  Once fullyConnectFF has run on a
    network that follows the index layout, every edge goes from an input to
    a hidden neuron or from a hidden neuron to an output, and this stays so
    through any later calls of fullyConnectFF, randomizeW, setInput and
    activate. *)
Theorem fullyConnectFF_two_hop exp RAND_MAX (a b c : ANN) :
  layout a -> fullyConnectFF a = Some b ->
  rtc (method_call exp RAND_MAX) b c -> two_hop c.
Proof.
  intros Hlay Hb Hcalls.
  assert (Hlayb : layout b).
  { destruct (fullyConnectFF_connects a Hlay) as [Hff _].
    rewrite Hff in Hb. injection Hb as <-. exact Hlay. }
  pose proof (fullyConnectFF_shape a b Hlay Hb) as Hhop. clear Hb.
  induction Hcalls as [b|b b1 c Hcall _ IH]; [exact Hhop|].
  destruct (method_call_preserves _ _ _ _ Hcall) as (Hc & _).
  assert (Hlay1 : layout b1).
  { unfold counts_of in Hc. injection Hc as H1 H2 H3 H4 H5.
    unfold layout in *. rewrite H1, H2, H3, H4, H5. exact Hlayb. }
  apply IH; [exact Hlay1|].
  destruct (method_call_endpoints _ _ _ _ Hcall) as [Hff|[Hend _]].
  - exact (fullyConnectFF_shape b b1 Hlayb Hff).
  - exact (two_hop_endpoints b b1 Hc Hend Hhop).
Qed.

(** ** The further theorems at concrete networks *)

Ltac all_by_evaluation :=
  repeat (constructor; [by_evaluation|]); constructor.

Lemma session_calls :
  rtc (method_call exp_series 2147483647) bare_2_2_1 passed_2_2_1.
Proof.
  apply (rtc_l _ _ connected_2_2_1);
    [apply call_fullyConnectFF; vm_compute; reflexivity|].
  apply (rtc_l _ _ weighted_2_2_1).
  { apply (call_randomizeW _ _ _ (-1)%float 1%float
             {| draws := glibc_draws; calls := 0 |} 0 _
             {| draws := glibc_draws; calls := 6 |}).
    vm_compute. reflexivity. }
  apply (rtc_l _ _ primed_2_2_1).
  { apply (call_setInput _ _ _ [1; -1]%float 0). vm_compute. reflexivity. }
  apply rtc_once. apply call_activate. vm_compute. reflexivity.
Qed.

Lemma bare_2_2_1_built : ANN_new [2; 2; 1] [] [] [] = inr bare_2_2_1.
Proof. reflexivity. Qed.

Lemma session_reachable :
  reachable exp_series 2147483647 get_double passed_2_2_1.
Proof.
  exists bare_2_2_1. split; [|exact session_calls].
  exact (from_arrays get_double _ _ _ _ _ bare_2_2_1_built).
Qed.

Lemma bare_2_2_1_consistent : consistent bare_2_2_1.
Proof.
  split; [by_evaluation|]. split; [reflexivity|].
  split; [constructor|by_evaluation].
Qed.

Lemma one_edge_net_consistent : consistent one_edge_net.
Proof.
  split; [exact one_edge_net_layout|]. split; [reflexivity|].
  split; [exact one_edge_net_edges|by_evaluation].
Qed.

Lemma two_layer_arguments :
  plain_arguments [2; 2; 1] [0; 0; 1; 1; 2; 3] [2; 3; 2; 3; 4; 4]
                  [1; 0; 0; 1; 200; -100]%float.
Proof.
  split; [right; reflexivity|]. split; [split; reflexivity|].
  split; [all_by_evaluation|]. split; by_evaluation.
Qed.

Lemma ANN_new_index_check_witness :
  plain_arguments [2; 2; 1] [0; 0; 1; 1; 2; 3] [2; 3; 2; 3; 4; 4]
                  [1; 0; 0; 1; 200; -100]%float
  /\ (ANN_new [2; 2; 1] [0; 0; 1; 1; 2; 3] [2; 3; 2; 3; 4; 4]
              [1; 0; 0; 1; 200; -100]%float = inl NeuronIndexOutOfBounds
      <-> Exists (fun x => x < 0 \/ foldr Z.add 0 [2; 2; 1] < x)
                 ([0; 0; 1; 1; 2; 3] ++ [2; 3; 2; 3; 4; 4])).
Proof.
  split; [exact two_layer_arguments|].
  exact (ANN_new_index_check _ _ _ _ two_layer_arguments).
Defined.

Lemma ANN_new_builds_witness :
  plain_arguments [2; 2; 1] [0; 0; 1; 1; 2; 3] [2; 3; 2; 3; 4; 4]
                  [1; 0; 0; 1; 200; -100]%float
  /\ Forall (fun x => 0 <= x <= foldr Z.add 0 [2; 2; 1])
            ([0; 0; 1; 1; 2; 3] ++ [2; 3; 2; 3; 4; 4])
  /\ exists a, two_layer_net = inr a
       /\ (num_input a, num_hidden a, num_output a) = (2, 2, 1)
       /\ layout a /\ neurons_allocated a
       /\ total_num_connections a = Z.of_nat (length (connections a)).
Proof.
  assert (H : Forall (fun x => 0 <= x <= foldr Z.add 0 [2; 2; 1])
                     ([0; 0; 1; 1; 2; 3] ++ [2; 3; 2; 3; 4; 4]))
    by all_by_evaluation.
  split; [exact two_layer_arguments|]. split; [exact H|].
  destruct (ANN_new_builds _ _ _ _ two_layer_arguments H)
    as (a & H1 & H2 & H3 & H4 & _ & H5 & _).
  exists a. split; [exact H1|]. split; [exact H2|]. split; [exact H3|].
  split; [exact H4|exact H5].
Defined.

Lemma ANN_new_edge_count_wraps_witness :
  sizes_ok (0 :: repeat 99 (Z.to_nat 65536)) (1 :: repeat 99 (Z.to_nat 65536))
           (0.5%float :: repeat 0%float (Z.to_nat 65536))
  /\ ANN_new [1; 1] (0 :: repeat 99 (Z.to_nat 65536))
       (1 :: repeat 99 (Z.to_nat 65536))
       (0.5%float :: repeat 0%float (Z.to_nat 65536))
     = ANN_new [1; 1] [0] [1] [0.5%float]
  /\ ANN_new [1; 1] [0; 99] [1; 99] [0.5%float; 0%float]
     = inl NeuronIndexOutOfBounds.
Proof.
  assert (Hsz : sizes_ok (0 :: repeat 99 (Z.to_nat 65536))
                  (1 :: repeat 99 (Z.to_nat 65536))
                  (0.5%float :: repeat 0%float (Z.to_nat 65536)))
    by (unfold sizes_ok; cbn [length]; rewrite !repeat_length; split; reflexivity).
  split; [exact Hsz|]. split; [|vm_compute; reflexivity].
  destruct (ANN_new_edge_count_wraps [1; 1] (0 :: repeat 99 (Z.to_nat 65536))
              (1 :: repeat 99 (Z.to_nat 65536))
              (0.5%float :: repeat 0%float (Z.to_nat 65536))) as [Heq _].
  rewrite (Heq Hsz). vm_compute. reflexivity.
Defined.

Lemma new_ANN_outcome_witness :
  exists r,
    new_ANN [2; 2; 1; 7] [0; 9] [2; 9] [0.5; 9]%float 1 = Some r
    /\ r <> inl NeuronCountVector /\ r <> inl EdgeArraySizes.
Proof.
  eexists. split; [vm_compute; reflexivity|].
  match goal with
  | |- ?r <> _ /\ _ =>
      assert (Hnew : new_ANN [2; 2; 1; 7] [0; 9] [2; 9] [0.5; 9]%float 1 = Some r)
        by (vm_compute; reflexivity);
      destruct (new_ANN_outcome _ _ _ _ _ _ Hnew) as (H1 & H2 & _)
  end.
  split; [exact H1|exact H2].
Defined.

Lemma method_calls_keep_neurons_witness :
  rtc (method_call exp_series 2147483647) bare_2_2_1 passed_2_2_1
  /\ counts_of passed_2_2_1 = counts_of bare_2_2_1
  /\ map type (neurons passed_2_2_1) = map type (neurons bare_2_2_1).
Proof.
  split; [exact session_calls|].
  exact (method_calls_keep_neurons _ _ _ _ session_calls).
Defined.

Lemma consistent_after_calls_witness :
  consistent bare_2_2_1
  /\ rtc (method_call exp_series 2147483647) bare_2_2_1 passed_2_2_1
  /\ consistent passed_2_2_1
  /\ is_Some (activate exp_series passed_2_2_1)
  /\ is_Some (stream put_double passed_2_2_1).
Proof.
  split; [exact bare_2_2_1_consistent|]. split; [exact session_calls|].
  destruct (consistent_after_calls exp_series 2147483647 put_double _ _
              bare_2_2_1_consistent session_calls) as (H1 & _ & _ & H2 & _ & H3).
  split; [exact H1|]. split; [exact H2|exact H3].
Defined.

Lemma reachable_well_typed_witness :
  reachable exp_series 2147483647 get_double passed_2_2_1
  /\ well_typed passed_2_2_1.
Proof.
  split; [exact session_reachable|].
  exact (reachable_well_typed _ _ _ _ session_reachable).
Defined.

Lemma reachable_rested_witness :
  reachable exp_series 2147483647 get_double passed_2_2_1
  /\ rested passed_2_2_1.
Proof.
  split; [exact session_reachable|].
  exact (reachable_rested _ _ _ _ session_reachable).
Defined.

Lemma getOutput_after_calls_witness :
  Forall (fun n => 0 <= n) [2; 2; 1] /\ foldr Z.add 0 [2; 2; 1] <= USHRT_MAX
  /\ ANN_new [2; 2; 1] [] [] [] = inr bare_2_2_1
  /\ rtc (method_call exp_series 2147483647) bare_2_2_1 passed_2_2_1
  /\ exists out, getOutput passed_2_2_1 = Some out
       /\ Z.of_nat (length out) = num_output passed_2_2_1.
Proof.
  assert (H1 : Forall (fun n => 0 <= n) [2; 2; 1]) by all_by_evaluation.
  assert (H2 : foldr Z.add 0 [2; 2; 1] <= USHRT_MAX) by by_evaluation.
  split; [exact H1|]. split; [exact H2|]. split; [exact bare_2_2_1_built|].
  split; [exact session_calls|].
  exact (getOutput_after_calls _ _ _ _ _ _ _ _ H1 H2 bare_2_2_1_built session_calls).
Defined.

Lemma activate_computes_witness :
  0 <= num_input one_edge_net /\ neurons_allocated one_edge_net
  /\ edges_in_range one_edge_net
  /\ exists b, activate exp_series one_edge_net = Some b
       /\ connections b
          = map (fun c => set_data c
                            (weight c * output_at (neurons one_edge_net)
                                          (source_neuron_idx c))%float)
                (connections one_edge_net).
Proof.
  split; [by_evaluation|]. split; [reflexivity|].
  split; [exact one_edge_net_edges|].
  destruct (activate_computes exp_series one_edge_net)
    as (b & H1 & H2 & _);
    [by_evaluation|reflexivity|exact one_edge_net_edges|].
  exists b. split; [exact H1|exact H2].
Defined.

Lemma setInput_overwrites_witness :
  exists a1,
    setInput [0.25%float] one_edge_net = Some (0, a1)
    /\ Z.of_nat (length [0.5%float]) = num_input one_edge_net
    /\ setInput [0.5%float] a1 = setInput [0.5%float] one_edge_net.
Proof.
  eexists. split; [vm_compute; reflexivity|]. split; [reflexivity|].
  apply (setInput_overwrites [0.25%float] [0.5%float] one_edge_net _ 0);
    [vm_compute; reflexivity|reflexivity].
Defined.

Lemma setInput_keeps_getOutput_witness :
  exists a1,
    setInput [1; -1]%float passed_2_2_1 = Some (0, a1)
    /\ num_input passed_2_2_1 <= num_iPLUSh passed_2_2_1
    /\ getOutput a1 = getOutput passed_2_2_1.
Proof.
  eexists. split; [vm_compute; reflexivity|]. split; [by_evaluation|].
  apply (setInput_keeps_getOutput [1; -1]%float passed_2_2_1 _ 0);
    [vm_compute; reflexivity|by_evaluation].
Defined.

Lemma interface_round_witness :
  consistent one_edge_net
  /\ num_input one_edge_net <= Z.of_nat (length [0; 9]%float)
  /\ num_output one_edge_net <= Z.of_nat (length [7; 7; 7]%float)
  /\ exists a1 a2 out,
       setInput_ANN one_edge_net [0; 9]%float (num_input one_edge_net) = Some (0, a1)
       /\ activate_ANN exp_series a1 = Some a2
       /\ getOutput_ANN a2 [7; 7; 7]%float (num_output one_edge_net)
          = Some (0, out ++ drop (Z.to_nat (num_output one_edge_net)) [7; 7; 7]%float).
Proof.
  assert (H1 : num_input one_edge_net <= Z.of_nat (length [0; 9]%float))
    by by_evaluation.
  assert (H2 : num_output one_edge_net <= Z.of_nat (length [7; 7; 7]%float))
    by by_evaluation.
  split; [exact one_edge_net_consistent|]. split; [exact H1|]. split; [exact H2|].
  destruct (interface_round exp_series one_edge_net [0; 9]%float [7; 7; 7]%float
              one_edge_net_consistent H1 H2)
    as (a1 & a2 & out & Hs & _ & Ha & _ & Hg).
  exists a1, a2, out. split; [exact Hs|]. split; [exact Ha|exact Hg].
Defined.

Lemma stream_defined_iff_witness :
  neurons_allocated passed_2_2_1 /\ 0 <= total_num_connections passed_2_2_1
  /\ (is_Some (stream put_double passed_2_2_1)
      <-> total_num_connections passed_2_2_1
          <= Z.of_nat (length (connections passed_2_2_1))).
Proof.
  assert (H : 0 <= total_num_connections passed_2_2_1) by by_evaluation.
  split; [reflexivity|]. split; [exact H|].
  exact (stream_defined_iff put_double passed_2_2_1 eq_refl H).
Defined.

Lemma randomizeW_forgets_weights_witness :
  randomizeW 2147483647 (-1) 1 connected_2_2_1 {| draws := glibc_draws; calls := 0 |}
  = (0, weighted_2_2_1, {| draws := glibc_draws; calls := 6 |})
  /\ (2 <=? 0)%float = false
  /\ randomizeW 2147483647 0 2 weighted_2_2_1 {| draws := glibc_draws; calls := 6 |}
     = randomizeW 2147483647 0 2 connected_2_2_1 {| draws := glibc_draws; calls := 6 |}.
Proof.
  assert (H : randomizeW 2147483647 (-1) 1 connected_2_2_1
                {| draws := glibc_draws; calls := 0 |}
              = (0, weighted_2_2_1, {| draws := glibc_draws; calls := 6 |}))
    by (vm_compute; reflexivity).
  split; [exact H|]. split; [reflexivity|].
  exact (randomizeW_forgets_weights 2147483647 (-1) 1 0 2 _ _ _ _
           {| draws := glibc_draws; calls := 6 |} _ H eq_refl).
Defined.


Lemma serialize_stable_witness :
  header_typed one_third_net /\ Forall edge_typed (connections one_third_net)
  /\ neurons_allocated one_third_net
  /\ total_num_connections one_third_net
     = Z.of_nat (length (connections one_third_net))
  /\ Forall (fun c => exists w, get_double (put_double (weight c)) = Some w
                                /\ put_double w = put_double (weight c))
            (connections one_third_net)
  /\ exists f a',
       serialize put_double one_third_net true = (0, Some f)
       /\ ANN_from_file get_double (0, 0, 0, 0, 0, 0) (Some f) = Some a'
       /\ serialize put_double a' true = (0, Some f).
Proof.
  assert (H1 : header_typed one_third_net) by by_evaluation.
  assert (H2 : Forall edge_typed (connections one_third_net))
    by (constructor; [by_evaluation|constructor]).
  assert (H3 : Forall (fun c => exists w, get_double (put_double (weight c)) = Some w
                                          /\ put_double w = put_double (weight c))
                      (connections one_third_net)).
  { constructor; [|constructor]. exists 0.333333%float.
    split; [vm_compute; reflexivity|vm_compute; reflexivity]. }
  split; [exact H1|]. split; [exact H2|]. split; [reflexivity|].
  split; [reflexivity|]. split; [exact H3|].
  exact (serialize_stable put_double get_double one_third_net (0, 0, 0, 0, 0, 0)
           H1 H2 eq_refl eq_refl H3).
Defined.

Lemma activate_defined_iff_witness :
  0 <= num_input one_edge_net /\ neurons_allocated one_edge_net
  /\ (is_Some (activate exp_series one_edge_net) <-> edges_in_range one_edge_net).
Proof.
  assert (H : 0 <= num_input one_edge_net) by by_evaluation.
  split; [exact H|]. split; [reflexivity|].
  exact (activate_defined_iff exp_series one_edge_net H eq_refl).
Defined.

Lemma primed_2_2_1_edges : edges_in_range primed_2_2_1.
Proof. all_by_evaluation. Qed.

Lemma primed_2_2_1_rested : rested primed_2_2_1.
Proof. unfold rested. vm_compute. repeat constructor. Qed.

Lemma primed_2_2_1_two_hop : two_hop primed_2_2_1.
Proof.
  repeat (constructor; [first [left; by_evaluation|right; by_evaluation]|]).
  constructor.
Qed.

Lemma activate_thrice_two_hop_witness :
  0 <= num_input primed_2_2_1 /\ neurons_allocated primed_2_2_1
  /\ edges_in_range primed_2_2_1 /\ rested primed_2_2_1 /\ two_hop primed_2_2_1
  /\ exists a1 a2 a3,
       activate exp_series primed_2_2_1 = Some a1
       /\ activate exp_series a1 = Some a2 /\ activate exp_series a2 = Some a3
       /\ map output (neurons a3) = map output (neurons a2)
       /\ getOutput a3 = getOutput a2.
Proof.
  assert (H : 0 <= num_input primed_2_2_1) by by_evaluation.
  split; [exact H|]. split; [reflexivity|]. split; [exact primed_2_2_1_edges|].
  split; [exact primed_2_2_1_rested|]. split; [exact primed_2_2_1_two_hop|].
  exact (activate_thrice_two_hop exp_series primed_2_2_1 H eq_refl
           primed_2_2_1_edges primed_2_2_1_rested primed_2_2_1_two_hop).
Defined.

Lemma fullyConnectFF_two_hop_witness :
  layout bare_2_2_1 /\ fullyConnectFF bare_2_2_1 = Some connected_2_2_1
  /\ rtc (method_call exp_series 2147483647) connected_2_2_1 weighted_2_2_1
  /\ two_hop weighted_2_2_1.
Proof.
  assert (H1 : layout bare_2_2_1) by by_evaluation.
  assert (H2 : fullyConnectFF bare_2_2_1 = Some connected_2_2_1)
    by (vm_compute; reflexivity).
  assert (H3 : rtc (method_call exp_series 2147483647)
                 connected_2_2_1 weighted_2_2_1).
  { apply rtc_once.
    apply (call_randomizeW _ _ _ (-1)%float 1%float
             {| draws := glibc_draws; calls := 0 |} 0 _
             {| draws := glibc_draws; calls := 6 |}).
    vm_compute. reflexivity. }
  split; [exact H1|]. split; [exact H2|]. split; [exact H3|].
  exact (fullyConnectFF_two_hop _ _ _ _ _ H1 H2 H3).
Defined.
